(** * Optimistic sync and conflict-resolution engine: a shallow embedding

    The development follows the layout of the repository:
    - [packages/core]: the todo state machine, the sync-token codec and the
      retry/backoff helper;
    - [apps/server]: the monotonic timestamp generator, the in-memory store
      (cursor-filtered listing, compare-and-swap) and the delta-sync route;
    - [apps/web/src/lib/sync]: the client sync state, the merge algorithm and
      the mutation processor.

    JavaScript strings are modelled by [string], a sequence of 8-bit units
    compared unit by unit.  On the ASCII strings the application handles
    (identifiers, ISO timestamps, the JSON made of them) these are the UTF-16
    code units that [<] and [>] compare in the source, and also the UTF-8
    bytes that [Buffer] sees; a string with other characters is held as its
    UTF-8 bytes.  Numbers that only ever hold integers
    (versions, millisecond counts, attempt counters) are in [Z].  The server
    keeps its [Map]s as [gmap]s; on the client, where a [Map] is iterated,
    insertion order is kept ([JsMap]).  An [await] is a point at which the
    function returns the [await]ed request and is resumed with the answer. *)

From Stdlib Require Import ZArith Ascii String List Sorting.Sorted Lia.
From stdpp Require Import base option list gmap strings sorting.

Local Open Scope string_scope.
Local Open Scope Z_scope.
Local Open Scope list_scope.

(** ** JavaScript string comparison *)

Module JsString.

(** [a < b] on strings. *)
Definition lt (a b : string) : Prop := String.compare a b = Lt.

(** [a <= b] on strings. *)
Definition le (a b : string) : Prop := String.compare a b <> Gt.

Definition ltb (a b : string) : bool := String.ltb a b.

(** Truthiness of a string: every string but the empty one. *)
Definition truthy (s : string) : bool :=
  match s with EmptyString => false | String _ _ => true end.

Lemma ltb_lt a b : ltb a b = true <-> lt a b.
Proof.
  unfold ltb, String.ltb, lt. destruct (String.compare a b); split; congruence.
Qed.

Lemma compare_refl a : String.compare a a = Eq.
Proof.
  induction a as [|c a IH]; simpl; [reflexivity|].
  unfold Ascii.compare. rewrite N.compare_refl. exact IH.
Qed.

Lemma lt_irrefl a : ~ lt a a.
Proof. unfold lt. rewrite compare_refl. discriminate. Qed.

Lemma lt_trans a b c : lt a b -> lt b c -> lt a c.
Proof.
  unfold lt. revert b c.
  induction a as [|x a IH]; intros [|y b] [|z c]; simpl; try congruence.
  unfold Ascii.compare.
  destruct (N.compare_spec (N_of_ascii x) (N_of_ascii y)) as [Exy|Lxy|Gxy];
    try discriminate;
    destruct (N.compare_spec (N_of_ascii y) (N_of_ascii z)) as [Eyz|Lyz|Gyz];
    try discriminate; intros Hab Hbc.
  - rewrite Exy, Eyz, N.compare_refl. eauto.
  - rewrite Exy. apply N.compare_lt_iff in Lyz. rewrite Lyz. reflexivity.
  - rewrite <- Eyz. apply N.compare_lt_iff in Lxy. rewrite Lxy. reflexivity.
  - assert (H : (N_of_ascii x < N_of_ascii z)%N) by lia.
    apply N.compare_lt_iff in H. rewrite H. reflexivity.
Qed.

Lemma lt_gt a b : String.compare a b = Gt <-> lt b a.
Proof.
  unfold lt. rewrite (String.compare_antisym a b).
  destruct (String.compare b a); simpl; split; congruence.
Qed.

Lemma trichotomy a b : lt a b \/ a = b \/ lt b a.
Proof.
  destruct (String.compare a b) eqn:E.
  - right; left. now apply String.compare_eq_iff.
  - left. exact E.
  - right; right. now apply lt_gt.
Qed.

Lemma lt_asym a b : lt a b -> ~ lt b a.
Proof. intros H1 H2. exact (lt_irrefl a (lt_trans _ _ _ H1 H2)). Qed.

Lemma le_lteq a b : le a b <-> lt a b \/ a = b.
Proof.
  unfold le, lt. split.
  - intros H. destruct (String.compare a b) eqn:E; [right|left|congruence].
    + now apply String.compare_eq_iff.
    + reflexivity.
  - intros [H| ->]; [rewrite H | rewrite compare_refl]; discriminate.
Qed.

Lemma empty_lt_truthy s : truthy s = true -> lt "" s.
Proof. destruct s; [discriminate | reflexivity]. Qed.

Lemma truthy_nonempty s : truthy s = true <-> s <> "".
Proof. destruct s; simpl; split; congruence. Qed.

End JsString.

(** ** Code units *)

Module CodeUnit.

(** The number of a unit and the unit of a number below 256. *)
Definition code (c : ascii) : Z := Z.of_N (N_of_ascii c).
Definition unit_of (n : Z) : ascii := ascii_of_N (Z.to_N n).

Lemma code_range c : 0 <= code c < 256.
Proof. unfold code. pose proof (N_ascii_bounded c). lia. Qed.

Lemma code_unit_of n : 0 <= n < 256 -> code (unit_of n) = n.
Proof.
  intros Hn. unfold code, unit_of. rewrite N_ascii_embedding by lia. lia.
Qed.

Lemma unit_of_code c : unit_of (code c) = c.
Proof. unfold code, unit_of. rewrite N2Z.id. apply ascii_N_embedding. Qed.

End CodeUnit.

(** ** JavaScript arrays and maps *)

Module JsArray.

(** [Array.prototype.sort] with a comparator is a stable sort: an element
    moves behind another one only when the comparator is positive. *)
Fixpoint insert_by {A} (cmp : A -> A -> Z) (x : A) (l : list A) : list A :=
  match l with
  | [] => [x]
  | y :: l' => if (0 <? cmp x y)%Z then y :: insert_by cmp x l' else x :: l
  end.

Definition sort_by {A} (cmp : A -> A -> Z) (l : list A) : list A :=
  foldr (insert_by cmp) [] l.

End JsArray.

(** [Map<string, V>]: iteration follows insertion order, [set] on a present
    key keeps its position. *)
Module JsMap.

Abbreviation t V := (list (string * V)) (only parsing).

Section Defs.
Context {V : Type}.

Definition empty : t V := [].

Fixpoint get (m : t V) (k : string) : option V :=
  match m with
  | [] => None
  | (k', v) :: m' => if decide (k' = k) then Some v else get m' k
  end.

Fixpoint set (m : t V) (k : string) (v : V) : t V :=
  match m with
  | [] => [(k, v)]
  | (k', v') :: m' =>
      if decide (k' = k) then (k, v) :: m' else (k', v') :: set m' k v
  end.

Definition delete (m : t V) (k : string) : t V :=
  filter (fun kv => kv.1 <> k) m.

Definition has (m : t V) (k : string) : bool :=
  match get m k with Some _ => true | None => false end.

Definition keys (m : t V) : list string := m.*1.

Definition values (m : t V) : list V := m.*2.

Lemma get_set_eq (m : t V) k v : get (set m k v) k = Some v.
Proof.
  induction m as [|[k' v'] m IH]; simpl.
  - destruct (decide (k = k)); congruence.
  - destruct (decide (k' = k)) as [->|Hne]; simpl.
    + destruct (decide (k = k)); congruence.
    + destruct (decide (k' = k)); [contradiction|exact IH].
Qed.

Lemma get_set_ne (m : t V) k k' v : k <> k' -> get (set m k v) k' = get m k'.
Proof.
  intros Hne. induction m as [|[k0 v0] m IH]; simpl.
  - destruct (decide (k = k')); [contradiction|reflexivity].
  - destruct (decide (k0 = k)) as [->|Hk0]; simpl.
    + destruct (decide (k = k')); [contradiction|reflexivity].
    + destruct (decide (k0 = k')); [reflexivity|exact IH].
Qed.

Lemma get_delete_eq (m : t V) k : get (delete m k) k = None.
Proof.
  unfold delete. induction m as [|[k0 v0] m IH]; [reflexivity|].
  rewrite filter_cons. cbn [fst].
  destruct (decide (k0 <> k)) as [Hne|He]; [|exact IH].
  cbn [get]. destruct (decide (k0 = k)); [contradiction|exact IH].
Qed.

Lemma get_delete_ne (m : t V) k k' : k <> k' -> get (delete m k) k' = get m k'.
Proof.
  intros Hne. unfold delete. induction m as [|[k0 v0] m IH]; [reflexivity|].
  rewrite filter_cons. cbn [fst].
  destruct (decide (k0 <> k)) as [Hk|Hk]; cbn [get].
  - destruct (decide (k0 = k')); [reflexivity|exact IH].
  - destruct (decide (k0 = k')) as [E|_]; [|exact IH].
    exfalso. apply Hk. congruence.
Qed.

End Defs.
End JsMap.

(** ** [packages/core/src/types.ts] *)

Inductive TodoState : Type := TODO | ONGOING | DONE.

#[global] Instance TodoState_eq_dec : EqDecision TodoState.
Proof. solve_decision. Defined.

Record Todo : Type := mkTodo {
  id : string;
  listId : string;
  title : string;
  state : TodoState;
  createdBy : string;
  createdAt : string;
  updatedAt : string;
  version : Z;
  deletedAt : option string
}.

#[global] Instance Todo_eq_dec : EqDecision Todo.
Proof. solve_decision. Defined.

Record TodoList : Type := mkTodoList {
  list_id : string;
  joinKey : string;
  list_createdAt : string
}.

(** ** [packages/core/src/todo-state-machine.ts] *)

Module StateMachine.

Definition ALLOWED_NEXT_STATES (from : TodoState) : list TodoState :=
  match from with
  | TODO => [ONGOING]
  | ONGOING => [TODO; DONE]
  | DONE => [ONGOING]
  end.

(** [Array.prototype.includes] on a list of states. *)
Fixpoint includes (l : list TodoState) (x : TodoState) : bool :=
  match l with
  | [] => false
  | y :: l' => if decide (y = x) then true else includes l' x
  end.

Definition isValidTransition (from to : TodoState) : bool :=
  includes (ALLOWED_NEXT_STATES from) to.

Definition getAllowedNextStates (s : TodoState) : list TodoState :=
  ALLOWED_NEXT_STATES s.

End StateMachine.

(** ** [apps/server/src/store.ts]: the in-memory store *)

Module Store.

(** The private maps of the module that the todo operations and the sync
    route touch ([users] and the join-key index are left out).
    [todosByList] maps a list id to a [Set<string>] of todo ids; a JavaScript
    [Set] iterates in insertion order, so it is kept as a duplicate-free
    list. *)
Record t : Type := mk {
  lists : gmap string TodoList;
  todos : gmap string Todo;
  todosByList : gmap string (list string)
}.

Definition empty : t := {| lists := ∅; todos := ∅; todosByList := ∅ |}.

(** [Set.prototype.add]. *)
Definition set_add (x : string) (s : list string) : list string :=
  if decide (x ∈ s) then s else s ++ [x].

Definition listExists (st : t) (l : string) : bool :=
  bool_decide (is_Some (lists st !! l)).

Definition createList (st : t) (l : TodoList) : t * TodoList :=
  ({| lists := <[list_id l := l]> (lists st);
      todos := todos st;
      todosByList := todosByList st |}, l).

Definition getTodo (st : t) (todoId : string) : option Todo :=
  todos st !! todoId.

(** The cursor argument of [getTodosForList]:
    [{ updatedAt?: string; todoId?: string }]. *)
Record Cursor : Type := mkCursor {
  c_updatedAt : option string;
  c_todoId : option string
}.

Definition isTodoAfterCursor (todo : Todo) (cUpdatedAt cTodoId : string) : bool :=
  if JsString.ltb cUpdatedAt (updatedAt todo) then true
  else if bool_decide (updatedAt todo = cUpdatedAt) && JsString.ltb cTodoId (id todo)
       then true
       else false.

(** The comparator handed to [Array.prototype.sort]. *)
Definition compareTodos (a b : Todo) : Z :=
  if decide (updatedAt a = updatedAt b) then
    if decide (id a = id b) then 0
    else if JsString.ltb (id a) (id b) then -1 else 1
  else if JsString.ltb (updatedAt a) (updatedAt b) then -1 else 1.

(** The body of the [for (const todoId of todoIds)] loop: [None] stands for
    [continue], [Some todo] for [result.push(todo)]. *)
Definition selectTodo (st : t) (cursor : option Cursor) (todoId : string)
  : option Todo :=
  match todos st !! todoId with
  | None => None
  | Some todo =>
      match cursor with
      | Some {| c_updatedAt := Some u; c_todoId := tid |} =>
          if JsString.truthy u then
            if isTodoAfterCursor todo u (default "" tid)
            then Some todo else None
          else Some todo
      | _ => Some todo
      end
  end.

Definition getTodosForList (st : t) (l : string) (cursor : option Cursor)
  : list Todo :=
  match todosByList st !! l with
  | None => []
  | Some todoIds => JsArray.sort_by compareTodos (omap (selectTodo st cursor) todoIds)
  end.

Definition createTodo (st : t) (todo : Todo) : t * Todo :=
  let listTodos := default [] (todosByList st !! listId todo) in
  ({| lists := lists st;
      todos := <[id todo := todo]> (todos st);
      todosByList :=
        <[listId todo := set_add (id todo) listTodos]> (todosByList st) |},
   todo).

Definition updateTodo (st : t) (todo : Todo) : t * Todo :=
  ({| lists := lists st;
      todos := <[id todo := todo]> (todos st);
      todosByList := todosByList st |}, todo).

(** [Partial<Omit<Todo, 'id' | 'listId' | 'createdBy' | 'createdAt'>>]: each
    remaining field may be given or left out; [deletedAt] is itself optional
    in [Todo], so a given [deletedAt] may also be [undefined]. *)
Record TodoUpdates : Type := mkUpdates {
  u_title : option string;
  u_state : option TodoState;
  u_updatedAt : option string;
  u_version : option Z;
  u_deletedAt : option (option string)
}.

(** [Object.assign(todo, updates)]. *)
Definition assign (todo : Todo) (u : TodoUpdates) : Todo :=
  {| id := id todo;
     listId := listId todo;
     title := default (title todo) (u_title u);
     state := default (state todo) (u_state u);
     createdBy := createdBy todo;
     createdAt := createdAt todo;
     updatedAt := default (updatedAt todo) (u_updatedAt u);
     version := default (version todo) (u_version u);
     deletedAt := default (deletedAt todo) (u_deletedAt u) |}.

Definition set_version (todo : Todo) (v : Z) : Todo :=
  {| id := id todo; listId := listId todo; title := title todo;
     state := state todo; createdBy := createdBy todo;
     createdAt := createdAt todo; updatedAt := updatedAt todo;
     version := v; deletedAt := deletedAt todo |}.

Inductive CompareAndSwapResult : Type :=
| Success (todo : Todo)
| Conflict (currentTodo : Todo)
| NotFound.

(** The stored object is mutated in place; the map keeps pointing at it, so
    the entry under [todoId] is the one that changes. *)
Definition compareAndSwapTodo (st : t) (todoId : string) (expectedVersion : Z)
    (updates : TodoUpdates) : t * CompareAndSwapResult :=
  match todos st !! todoId with
  | None => (st, NotFound)
  | Some todo =>
      if decide (version todo = expectedVersion) then
        let todo' := set_version (assign todo updates) (expectedVersion + 1) in
        ({| lists := lists st;
            todos := <[todoId := todo']> (todos st);
            todosByList := todosByList st |}, Success todo')
      else (st, Conflict todo)
  end.

End Store.

(** ** [Date]: time values and [toISOString]

    The date arithmetic of ECMA-262 (Day, TimeWithinDay, DayFromYear,
    YearFromTime, MonthFromTime, DateFromTime, ...) on integer time values in
    milliseconds since the epoch. *)

Module JsDate.

Definition msPerDay : Z := 86400000.
Definition msPerHour : Z := 3600000.
Definition msPerMinute : Z := 60000.
Definition msPerSecond : Z := 1000.

(** A [Date] holds a time value only within 100,000,000 days of the epoch. *)
Definition maxTimeValue : Z := 8640000000000000.

Definition Day (t : Z) : Z := t / msPerDay.
Definition TimeWithinDay (t : Z) : Z := t mod msPerDay.

Definition DayFromYear (y : Z) : Z :=
  365 * (y - 1970) + (y - 1969) / 4 - (y - 1901) / 100 + (y - 1601) / 400.

Definition DaysInYear (y : Z) : Z := DayFromYear (y + 1) - DayFromYear y.

(** The year of a day number: the largest [y] with [DayFromYear y <= d].
    The mean year has 146097/400 days, which locates the year up to one. *)
Definition YearFromDay (d : Z) : Z :=
  let y := 1970 + (400 * d) / 146097 in
  if (DayFromYear (y + 1) <=? d)%Z then y + 1
  else if (DayFromYear y <=? d)%Z then y
  else y - 1.

Definition YearFromTime (t : Z) : Z := YearFromDay (Day t).

Definition InLeapYear (t : Z) : Z := DaysInYear (YearFromTime t) - 365.

Definition DayWithinYear (t : Z) : Z := Day t - DayFromYear (YearFromTime t).

(** The day of the year on which month [m] (0-based) starts. *)
Definition monthStart (leap : Z) (m : Z) : Z :=
  if (m <=? 0)%Z then 0
  else if (m =? 1)%Z then 31
  else if (m =? 2)%Z then 59 + leap
  else if (m =? 3)%Z then 90 + leap
  else if (m =? 4)%Z then 120 + leap
  else if (m =? 5)%Z then 151 + leap
  else if (m =? 6)%Z then 181 + leap
  else if (m =? 7)%Z then 212 + leap
  else if (m =? 8)%Z then 243 + leap
  else if (m =? 9)%Z then 273 + leap
  else if (m =? 10)%Z then 304 + leap
  else if (m =? 11)%Z then 334 + leap
  else 365 + leap.

(** The 0-based month of day [dy] of a year. *)
Definition monthOfDay (leap : Z) (dy : Z) : Z :=
  if (dy <? 31)%Z then 0
  else if (dy <? 59 + leap)%Z then 1
  else if (dy <? 90 + leap)%Z then 2
  else if (dy <? 120 + leap)%Z then 3
  else if (dy <? 151 + leap)%Z then 4
  else if (dy <? 181 + leap)%Z then 5
  else if (dy <? 212 + leap)%Z then 6
  else if (dy <? 243 + leap)%Z then 7
  else if (dy <? 273 + leap)%Z then 8
  else if (dy <? 304 + leap)%Z then 9
  else if (dy <? 334 + leap)%Z then 10
  else 11.

Definition MonthFromTime (t : Z) : Z :=
  monthOfDay (InLeapYear t) (DayWithinYear t).

Definition DateFromTime (t : Z) : Z :=
  DayWithinYear t - monthStart (InLeapYear t) (MonthFromTime t) + 1.

Definition HourFromTime (t : Z) : Z := (t / msPerHour) mod 24.
Definition MinFromTime (t : Z) : Z := (t / msPerMinute) mod 60.
Definition SecFromTime (t : Z) : Z := (t / msPerSecond) mod 60.
Definition msFromTime (t : Z) : Z := t mod msPerSecond.

(** *** Decimal fields *)

Definition digit (n : Z) : ascii := ascii_of_N (48 + Z.to_N (n mod 10)).

(** [n] written with exactly [width] decimal digits (zero padded; the low
    digits of [n] when it has more). *)
Fixpoint pad (width : nat) (n : Z) : string :=
  match width with
  | O => ""
  | S w => pad w (n / 10) ++ String (digit n) ""
  end.

(** The year field: four digits from 0 to 9999, else a sign and six digits. *)
Definition yearString (y : Z) : string :=
  if (0 <=? y)%Z && (y <=? 9999)%Z then pad 4 y
  else if (0 <=? y)%Z then "+" ++ pad 6 y
  else "-" ++ pad 6 (- y).

(** [new Date(t).toISOString()]: [None] stands for the [RangeError] thrown
    on an invalid date. *)
Definition toISOString (t : Z) : option string :=
  if (Z.abs t <=? maxTimeValue)%Z then
    Some (yearString (YearFromTime t) ++ "-" ++ pad 2 (MonthFromTime t + 1) ++ "-"
          ++ pad 2 (DateFromTime t) ++ "T" ++ pad 2 (HourFromTime t) ++ ":"
          ++ pad 2 (MinFromTime t) ++ ":" ++ pad 2 (SecFromTime t) ++ "."
          ++ pad 3 (msFromTime t) ++ "Z")%string
  else None.

(** The last instant of year 9999, the last one written with a four-digit
    year. *)
Definition maxFourDigitYearTime : Z := 253402300799999.

(** *** [Date.parse] on the format of [toISOString]

    Only what [toISOString] prints with a four-digit year is read
    ([YYYY-MM-DDTHH:mm:ss.sssZ]); anything else counts as an invalid date. *)

Definition digitValue (c : ascii) : option Z :=
  let n := Z.of_N (N_of_ascii c) in
  if (48 <=? n)%Z && (n <=? 57)%Z then Some (n - 48) else None.

Fixpoint number (acc : Z) (cs : list ascii) : option Z :=
  match cs with
  | [] => Some acc
  | c :: cs' => d ← digitValue c; number (10 * acc + d) cs'
  end.

Definition parseISO (s : string) : option Z :=
  match list_ascii_of_string s with
  | [y1; y2; y3; y4; "-"%char; mo1; mo2; "-"%char; d1; d2; "T"%char;
     h1; h2; ":"%char; mi1; mi2; ":"%char; s1; s2; "."%char;
     f1; f2; f3; "Z"%char] =>
      y ← number 0 [y1; y2; y3; y4];
      mo ← number 0 [mo1; mo2];
      d ← number 0 [d1; d2];
      h ← number 0 [h1; h2];
      mi ← number 0 [mi1; mi2];
      sec ← number 0 [s1; s2];
      f ← number 0 [f1; f2; f3];
      let leap := DaysInYear y - 365 in
      if (1 <=? mo)%Z && (mo <=? 12)%Z && (1 <=? d)%Z
         && (d <=? monthStart leap mo - monthStart leap (mo - 1))%Z
         && (h <=? 23)%Z && (mi <=? 59)%Z && (sec <=? 59)%Z
      then Some ((DayFromYear y + monthStart leap (mo - 1) + d - 1) * msPerDay
                 + h * msPerHour + mi * msPerMinute + sec * msPerSecond + f)
      else None
  | _ => None
  end.

End JsDate.

(** ** [apps/server/src/utils/time.ts]: the monotonic timestamp generator *)

Module Time.

(** The module variable [lastMonotonicTimestampMs] is the state; [nowMs] is
    what [Date.now()] reads.  The counter is advanced before the string is
    made. *)
Definition getMonotonicISOString (lastMonotonicTimestampMs nowMs : Z)
  : Z * option string :=
  let last' :=
    if (nowMs <=? lastMonotonicTimestampMs)%Z
    then lastMonotonicTimestampMs + 1
    else nowMs in
  (last', JsDate.toISOString last').

Definition initial : Z := 0.

(** Successive calls, one per clock reading. *)
Fixpoint calls (last : Z) (clock : list Z) : Z * list (option string) :=
  match clock with
  | [] => (last, [])
  | nowMs :: clock' =>
      let '(last', s) := getMonotonicISOString last nowMs in
      let '(final, rest) := calls last' clock' in
      (final, s :: rest)
  end.

End Time.

(** ** [JSON]: values, [JSON.parse] and [JSON.stringify]

    JSON text is handled as a list of 8-bit units; a unit of 128 or more
    belongs to the UTF-8 form of a character and is passed through. *)

Module Json.
Import CodeUnit.

#[warnings="-register-all"]
Inductive value : Type :=
| JNull
| JBool (b : bool)
| JNumber (literal : string)
| JString (s : string)
| JArray (items : list value)
| JObject (members : list (string * value)).

(** Property lookup on a parsed object: of two members with the same name
    the later one is the one that stays. *)
Fixpoint lookup (members : list (string * value)) (k : string) : option value :=
  match members with
  | [] => None
  | (k', v) :: members' =>
      match lookup members' k with
      | Some v' => Some v'
      | None => if decide (k' = k) then Some v else None
      end
  end.

(** *** Strings *)

Definition hexDigit (n : Z) : ascii :=
  if (n <? 10)%Z then unit_of (48 + n) else unit_of (87 + n).

Definition hexValue (c : ascii) : option Z :=
  let n := code c in
  if (48 <=? n)%Z && (n <=? 57)%Z then Some (n - 48)
  else if (97 <=? n)%Z && (n <=? 102)%Z then Some (n - 87)
  else if (65 <=? n)%Z && (n <=? 70)%Z then Some (n - 55)
  else None.

(** QuoteJSONString, one unit at a time. *)
Definition escapeUnit (c : ascii) : list ascii :=
  let n := code c in
  if (n =? 34)%Z then ["\"; "034"]%char
  else if (n =? 92)%Z then ["\"; "\"]%char
  else if (n =? 8)%Z then ["\"; "b"]%char
  else if (n =? 12)%Z then ["\"; "f"]%char
  else if (n =? 10)%Z then ["\"; "n"]%char
  else if (n =? 13)%Z then ["\"; "r"]%char
  else if (n =? 9)%Z then ["\"; "t"]%char
  else if (n <? 32)%Z then
    ["\"; "u"; "0"; "0"; hexDigit (n / 16); hexDigit (n mod 16)]%char
  else [c].

Definition escape (s : list ascii) : list ascii := concat (map escapeUnit s).

Definition quote (s : string) : list ascii :=
  ("034"%char :: escape (list_ascii_of_string s)) ++ ["034"%char].

(** The UTF-8 form of the code unit written by a [\uXXXX] escape. *)
Definition utf8 (n : Z) : list ascii :=
  if (n <? 128)%Z then [unit_of n]
  else if (n <? 2048)%Z then [unit_of (192 + n / 64); unit_of (128 + n mod 64)]
  else [unit_of (224 + n / 4096); unit_of (128 + (n / 64) mod 64);
        unit_of (128 + n mod 64)].

(** The units of a string literal after its opening quote, up to the
    closing quote. *)
Fixpoint parse_chars (cs : list ascii) : option (list ascii * list ascii) :=
  match cs with
  | [] => None
  | c :: cs' =>
      if (code c =? 34)%Z then Some ([], cs')
      else if (code c =? 92)%Z then
        match cs' with
        | e :: r =>
            let simple (x : Z) :=
              '(s, rest) ← parse_chars r; Some (unit_of x :: s, rest) in
            if (code e =? 34)%Z then simple 34
            else if (code e =? 92)%Z then simple 92
            else if (code e =? 47)%Z then simple 47
            else if (code e =? 98)%Z then simple 8
            else if (code e =? 102)%Z then simple 12
            else if (code e =? 110)%Z then simple 10
            else if (code e =? 114)%Z then simple 13
            else if (code e =? 116)%Z then simple 9
            else if (code e =? 117)%Z then
              match r with
              | h1 :: h2 :: h3 :: h4 :: r' =>
                  a ← hexValue h1; b ← hexValue h2;
                  c' ← hexValue h3; d ← hexValue h4;
                  '(s, rest) ← parse_chars r';
                  Some (utf8 (((a * 16 + b) * 16 + c') * 16 + d) ++ s, rest)
              | _ => None
              end
            else None
        | [] => None
        end
      else if (code c <? 32)%Z then None
      else '(s, rest) ← parse_chars cs'; Some (c :: s, rest)
  end.

(** *** Numbers *)

Definition isDigit (c : ascii) : bool := (48 <=? code c)%Z && (code c <=? 57)%Z.

Fixpoint digits (cs : list ascii) : list ascii * list ascii :=
  match cs with
  | c :: cs' =>
      if isDigit c then let '(ds, rest) := digits cs' in (c :: ds, rest)
      else ([], cs)
  | [] => ([], [])
  end.

(** An optional minus sign; an integer part, 0 or a non-zero digit followed
    by digits; an optional fraction, a point and at least one digit; an
    optional exponent, e or E, an optional sign and at least one digit. *)
Definition parse_number (cs : list ascii) : option (list ascii * list ascii) :=
  let '(sign, cs1) :=
    match cs with
    | c :: r => if (code c =? 45)%Z then ([c], r) else ([], cs)
    | [] => ([], cs)
    end in
  '(int, cs2) ←
    match cs1 with
    | c :: r =>
        if (code c =? 48)%Z then Some ([c], r)
        else if isDigit c then let '(ds, rest) := digits r in Some (c :: ds, rest)
        else None
    | [] => None
    end;
  '(frac, cs3) ←
    match cs2 with
    | c :: r =>
        if (code c =? 46)%Z then
          match digits r with
          | ([], _) => None
          | (ds, rest) => Some (c :: ds, rest)
          end
        else Some ([], cs2)
    | [] => Some ([], cs2)
    end;
  '(exp, cs4) ←
    match cs3 with
    | c :: r =>
        if (code c =? 101)%Z || (code c =? 69)%Z then
          let '(sgn, r') :=
            match r with
            | s :: r' =>
                if (code s =? 43)%Z || (code s =? 45)%Z then ([s], r') else ([], r)
            | [] => ([], r)
            end in
          match digits r' with
          | ([], _) => None
          | (ds, rest) => Some (c :: sgn ++ ds, rest)
          end
        else Some ([], cs3)
    | [] => Some ([], cs3)
    end;
  Some (sign ++ int ++ frac ++ exp, cs4).

(** *** Values *)

Definition isSpace (c : ascii) : bool :=
  (code c =? 32)%Z || (code c =? 9)%Z || (code c =? 10)%Z || (code c =? 13)%Z.

Fixpoint skip_ws (cs : list ascii) : list ascii :=
  match cs with
  | c :: cs' => if isSpace c then skip_ws cs' else cs
  | [] => []
  end.

(** What is left of [cs] after the word [word], when [cs] starts with it. *)
Fixpoint strip_prefix (word cs : list ascii) : option (list ascii) :=
  match word, cs with
  | [], _ => Some cs
  | w :: word', c :: cs' =>
      if (code w =? code c)%Z then strip_prefix word' cs' else None
  | _ :: _, [] => None
  end.

Definition parse_literal (cs : list ascii) : option (value * list ascii) :=
  match strip_prefix (list_ascii_of_string "true") cs with
  | Some r => Some (JBool true, r)
  | None =>
      match strip_prefix (list_ascii_of_string "false") cs with
      | Some r => Some (JBool false, r)
      | None =>
          match strip_prefix (list_ascii_of_string "null") cs with
          | Some r => Some (JNull, r)
          | None => None
          end
      end
  end.

(** Recursive descent.  Every recursive call is made on what is left after
    at least one unit has been read, so fuel above the length of the text is
    never used up. *)
Fixpoint parse_value (fuel : nat) (cs : list ascii) : option (value * list ascii) :=
  match fuel with
  | O => None
  | S fuel' =>
      match skip_ws cs with
      | [] => None
      | c :: rest =>
          if (code c =? 123)%Z then
            match skip_ws rest with
            | c' :: rest' =>
                if (code c' =? 125)%Z then Some (JObject [], rest')
                else '(ms, r) ← parse_members fuel' rest; Some (JObject ms, r)
            | [] => None
            end
          else if (code c =? 91)%Z then
            match skip_ws rest with
            | c' :: rest' =>
                if (code c' =? 93)%Z then Some (JArray [], rest')
                else
                  '(v, r) ← parse_value fuel' rest;
                  '(vs, r') ← parse_elements fuel' r;
                  Some (JArray (v :: vs), r')
            | [] => None
            end
          else if (code c =? 34)%Z then
            '(s, r) ← parse_chars rest; Some (JString (string_of_list_ascii s), r)
          else if (code c =? 45)%Z || isDigit c then
            '(n, r) ← parse_number (c :: rest);
            Some (JNumber (string_of_list_ascii n), r)
          else parse_literal (c :: rest)
      end
  end
(** The elements after the first one: a comma and an element, or the closing
    bracket. *)
with parse_elements (fuel : nat) (cs : list ascii)
  : option (list value * list ascii) :=
  match fuel with
  | O => None
  | S fuel' =>
      match skip_ws cs with
      | c :: rest =>
          if (code c =? 44)%Z then
            '(v, r) ← parse_value fuel' rest;
            '(vs, r') ← parse_elements fuel' r;
            Some (v :: vs, r')
          else if (code c =? 93)%Z then Some ([], rest)
          else None
      | [] => None
      end
  end
(** The members of an object, from the name of the first one on. *)
with parse_members (fuel : nat) (cs : list ascii)
  : option (list (string * value) * list ascii) :=
  match fuel with
  | O => None
  | S fuel' =>
      match skip_ws cs with
      | q :: rest =>
          if (code q =? 34)%Z then
            '(k, rest1) ← parse_chars rest;
            match skip_ws rest1 with
            | colon :: rest2 =>
                if (code colon =? 58)%Z then
                  '(v, rest3) ← parse_value fuel' rest2;
                  match skip_ws rest3 with
                  | c :: rest4 =>
                      if (code c =? 44)%Z then
                        '(ms, r) ← parse_members fuel' rest4;
                        Some ((string_of_list_ascii k, v) :: ms, r)
                      else if (code c =? 125)%Z then
                        Some ([(string_of_list_ascii k, v)], rest4)
                      else None
                  | [] => None
                  end
                else None
            | [] => None
            end
          else None
      | [] => None
      end
  end.

(** [JSON.parse]; [None] stands for the [SyntaxError]. *)
Definition parse (text : string) : option value :=
  let cs := list_ascii_of_string text in
  '(v, rest) ← parse_value (S (length cs)) cs;
  match skip_ws rest with
  | [] => Some v
  | _ => None
  end.

(** [JSON.stringify] without indentation. *)
Fixpoint stringify_units (v : value) : list ascii :=
  match v with
  | JNull => list_ascii_of_string "null"
  | JBool true => list_ascii_of_string "true"
  | JBool false => list_ascii_of_string "false"
  | JNumber literal => list_ascii_of_string literal
  | JString s => quote s
  | JArray items =>
      "["%char ::
      (fix go (vs : list value) : list ascii :=
         match vs with
         | [] => []
         | [v] => stringify_units v
         | v :: vs' => stringify_units v ++ ","%char :: go vs'
         end) items ++ ["]"%char]
  | JObject members =>
      "{"%char ::
      (fix go (ms : list (string * value)) : list ascii :=
         match ms with
         | [] => []
         | [(k, v)] => quote k ++ ":"%char :: stringify_units v
         | (k, v) :: ms' => quote k ++ ":"%char :: stringify_units v ++ ","%char :: go ms'
         end) members ++ ["}"%char]
  end.

Definition stringify (v : value) : string :=
  string_of_list_ascii (stringify_units v).

End Json.

(** ** [Buffer]: base64 as Node does it *)

Module Base64.
Import CodeUnit.

(** The character of a 6-bit group: A-Z, a-z, 0-9, + and /. *)
Definition char_of_sextet (n : Z) : ascii :=
  if (n <? 26)%Z then unit_of (65 + n)
  else if (n <? 52)%Z then unit_of (71 + n)
  else if (n <? 62)%Z then unit_of (n - 4)
  else if (n =? 62)%Z then "+"%char
  else "/"%char.

(** The 6-bit group of a character; [-] and [_] of the URL-safe alphabet are
    read as well. *)
Definition sextet_of_char (c : ascii) : option Z :=
  let n := code c in
  if (65 <=? n)%Z && (n <=? 90)%Z then Some (n - 65)
  else if (97 <=? n)%Z && (n <=? 122)%Z then Some (n - 71)
  else if (48 <=? n)%Z && (n <=? 57)%Z then Some (n + 4)
  else if (n =? 43)%Z || (n =? 45)%Z then Some 62
  else if (n =? 47)%Z || (n =? 95)%Z then Some 63
  else None.

(** [buffer.toString('base64')]: three bytes make four characters, the last
    group is padded with [=]. *)
Fixpoint encode_bytes (bs : list ascii) : list ascii :=
  match bs with
  | [] => []
  | [a] =>
      [char_of_sextet (code a / 4); char_of_sextet ((code a mod 4) * 16);
       "="%char; "="%char]
  | [a; b] =>
      [char_of_sextet (code a / 4);
       char_of_sextet ((code a mod 4) * 16 + code b / 16);
       char_of_sextet ((code b mod 16) * 4); "="%char]
  | a :: b :: c :: rest =>
      char_of_sextet (code a / 4)
      :: char_of_sextet ((code a mod 4) * 16 + code b / 16)
      :: char_of_sextet ((code b mod 16) * 4 + code c / 64)
      :: char_of_sextet (code c mod 64)
      :: encode_bytes rest
  end.

(** [Buffer.from(text, 'base64')] never throws: a character outside the
    alphabet is skipped, the first [=] ends the input. *)
Fixpoint sextets (cs : list ascii) : list Z :=
  match cs with
  | [] => []
  | c :: cs' =>
      if (code c =? 61)%Z then []
      else match sextet_of_char c with
           | Some n => n :: sextets cs'
           | None => sextets cs'
           end
  end.

(** A byte is written as soon as its bits are there; a single left-over
    group is dropped. *)
Fixpoint bytes_of_sextets (ss : list Z) : list ascii :=
  match ss with
  | s1 :: s2 :: s3 :: s4 :: rest =>
      unit_of (s1 * 4 + s2 / 16)
      :: unit_of ((s2 mod 16) * 16 + s3 / 4)
      :: unit_of ((s3 mod 4) * 64 + s4)
      :: bytes_of_sextets rest
  | [s1; s2; s3] =>
      [unit_of (s1 * 4 + s2 / 16); unit_of ((s2 mod 16) * 16 + s3 / 4)]
  | [s1; s2] => [unit_of (s1 * 4 + s2 / 16)]
  | _ => []
  end.

(** [Buffer.from(text, 'utf-8').toString('base64')]; the text is already
    held as its UTF-8 bytes. *)
Definition encode (text : string) : string :=
  string_of_list_ascii (encode_bytes (list_ascii_of_string text)).

(** The UTF-16 code units of a text that is held as UTF-8: a character of
    two or three bytes is one unit, a character of four bytes is a pair of
    surrogates.  A byte that starts no character is taken as it is. *)
Definition isContinuation (c : ascii) : bool :=
  (128 <=? code c)%Z && (code c <? 192)%Z.

Fixpoint codeUnits (cs : list ascii) : list Z :=
  match cs with
  | [] => []
  | c :: cs' =>
      let n := code c in
      if (n <? 128)%Z then n :: codeUnits cs'
      else
        match cs' with
        | c2 :: r2 =>
            if (192 <=? n)%Z && (n <? 224)%Z && isContinuation c2 then
              ((n mod 32) * 64 + code c2 mod 64) :: codeUnits r2
            else
              match r2 with
              | c3 :: r3 =>
                  if (224 <=? n)%Z && (n <? 240)%Z
                     && isContinuation c2 && isContinuation c3 then
                    ((n mod 16) * 4096 + (code c2 mod 64) * 64 + code c3 mod 64)
                    :: codeUnits r3
                  else
                    match r3 with
                    | c4 :: r4 =>
                        if (240 <=? n)%Z && (n <? 248)%Z && isContinuation c2
                           && isContinuation c3 && isContinuation c4 then
                          let v := (n mod 8) * 262144 + (code c2 mod 64) * 4096
                                   + (code c3 mod 64) * 64 + code c4 mod 64
                                   - 65536 in
                          (55296 + v / 1024) :: (56320 + v mod 1024) :: codeUnits r4
                        else n :: codeUnits cs'
                    | [] => n :: codeUnits cs'
                    end
              | [] => n :: codeUnits cs'
              end
        | [] => [n]
        end
  end.

(** The decoder looks at one byte of each code unit of the token, the low
    one: a character above U+00FF is read as the character of its low
    byte. *)
Definition lowByte (u : Z) : ascii := unit_of (u mod 256).

Definition characters (token : string) : list ascii :=
  map lowByte (codeUnits (list_ascii_of_string token)).

(** [Buffer.from(token, 'base64').toString('utf-8')]; bytes that are not
    UTF-8 are kept as they are (Node puts U+FFFD in their place). *)
Definition decode (token : string) : string :=
  string_of_list_ascii (bytes_of_sextets (sextets (characters token))).

End Base64.

(** ** [packages/core/src/utils/sync-token.ts] *)

Module SyncToken.

Record SyncTokenPayload : Type := mkPayload {
  lastUpdatedAt : string;
  lastId : option string
}.

(** The two ways the source reaches base64: [Buffer] where it is defined
    (Node, so the server), else [btoa] and [atob], which may throw
    ([None]). *)
Inductive Platform : Type :=
| WithBuffer (toBase64 : string -> string) (fromBase64 : string -> string)
| WithoutBuffer (btoa : string -> option string) (atob : string -> option string).

Definition node : Platform := WithBuffer Base64.encode Base64.decode.

(** The object literal handed to [JSON.stringify]. *)
Definition payloadObject (payload : SyncTokenPayload) : Json.value :=
  Json.JObject
    (("lastUpdatedAt", Json.JString (lastUpdatedAt payload))
     :: match lastId payload with
        | Some i => [("lastId", Json.JString i)]
        | None => []
        end).

(** [None]: [btoa] threw. *)
Definition encodeSyncToken (p : Platform) (payload : SyncTokenPayload)
  : option string :=
  let json := Json.stringify (payloadObject payload) in
  match p with
  | WithBuffer toBase64 _ => Some (toBase64 json)
  | WithoutBuffer btoa _ => btoa json
  end.

(** The text handed to [JSON.parse]; [None]: [atob] threw. *)
Definition decodedText (p : Platform) (token : string) : option string :=
  match p with
  | WithBuffer _ fromBase64 => Some (fromBase64 token)
  | WithoutBuffer _ atob => atob token
  end.

(** The test on the parsed value. *)
Definition checkPayload (payload : Json.value) : option SyncTokenPayload :=
  match payload with
  | Json.JObject members =>
      match Json.lookup members "lastUpdatedAt" with
      | Some (Json.JString u) =>
          match Json.lookup members "lastId" with
          | None => Some {| lastUpdatedAt := u; lastId := None |}
          | Some (Json.JString i) => Some {| lastUpdatedAt := u; lastId := Some i |}
          | Some _ => None
          end
      | _ => None
      end
  | _ => None
  end.

(** [None] is [null]: something threw, or the test failed. *)
Definition decodeSyncToken (p : Platform) (token : string)
  : option SyncTokenPayload :=
  json ← decodedText p token;
  payload ← Json.parse json;
  checkPayload payload.

End SyncToken.

(** ** [apps/server/src/routes/todos.ts]: the delta-sync route *)

Module TodoRoutes.
Import SyncToken.

Inductive Reply : Type :=
| Ok (todos : list Todo) (syncToken : option string)
| ListNotFound.

(** [GET /lists/:listId/todos]; [syncToken] is the query parameter. *)
Definition getTodos (p : Platform) (st : Store.t) (l : string)
    (syncToken : option string) : Reply :=
  if negb (Store.listExists st l) then ListNotFound
  else
    let cursor :=
      match syncToken with
      | Some token =>
          if JsString.truthy token then
            match decodeSyncToken p token with
            | Some payload =>
                Some {| Store.c_updatedAt := Some (lastUpdatedAt payload);
                        Store.c_todoId := lastId payload |}
            | None => None
            end
          else None
      | None => None
      end in
    let todoList := Store.getTodosForList st l cursor in
    let lastTodo := last todoList in
    let latestUpdatedAt :=
      match lastTodo with
      | Some todo => updatedAt todo
      | None =>
          match cursor ≫= Store.c_updatedAt with
          | Some u => u
          | None => default "" (JsDate.toISOString 0)
          end
      end in
    let latestTodoId :=
      match lastTodo with
      | Some todo => Some (id todo)
      | None => cursor ≫= Store.c_todoId
      end in
    Ok todoList
       (encodeSyncToken p {| lastUpdatedAt := latestUpdatedAt;
                             lastId := latestTodoId |}).

End TodoRoutes.

(** ** [packages/core/src/utils/retry.ts]: the backoff timer *)

Module Retry.

(** A number that may be [Infinity]. *)
Inductive Bound : Type := Finite (n : Z) | Infinity.

Definition DEFAULT_RETRIES : Z := 10.
Definition DEFAULT_FACTOR : Z := 2.
Definition DEFAULT_MIN_TIMEOUT : Z := 1000.
Definition DEFAULT_MAX_TIMEOUT : Bound := Infinity.

Record BackoffOptions : Type := mkBackoffOptions {
  factor : option Z;
  minTimeout : option Z;
  maxTimeout : option Bound
}.

(** [Math.min(x, maxTimeout)]. *)
Definition min_bound (x : Z) (b : Bound) : Z :=
  match b with Finite m => Z.min x m | Infinity => x end.

(** [createBackoff(options)] returns a timer; the timer sleeps for the delay
    computed here (no abort signal is ever passed by the processor).
    [attempt] is at least 1, so the exponent is a natural number.  The
    delay is an integer here; the source computes it in doubles, which give
    this integer on the attempts 1 to 9 that the processor makes with the
    default timer (1000 to 256000), the only use made of it below. *)
Definition createBackoff (options : option BackoffOptions) (attempt : Z) : Z :=
  let factor := default DEFAULT_FACTOR (options ≫= factor) in
  let minTimeout := default DEFAULT_MIN_TIMEOUT (options ≫= minTimeout) in
  let maxTimeout := default DEFAULT_MAX_TIMEOUT (options ≫= maxTimeout) in
  min_bound (minTimeout * factor ^ (attempt - 1)) maxTimeout.

Definition DEFAULT_BACKOFF : Z -> Z := createBackoff None.

End Retry.

(** ** [apps/web/src/lib/sync/state.ts]: the client sync state *)

Module SyncState.

Record PendingMutation : Type := mkMutation {
  m_id : string;
  todoId : string;
  appliedAt : string;
  nextState : TodoState
}.

(** [activeRuns] maps a todo id to the promise of its run; the promise
    carries no data. *)
Record t : Type := mk {
  serverState : JsMap.t Todo;
  pendingMutations : JsMap.t (list PendingMutation);
  activeRuns : JsMap.t unit;
  runGeneration : Z
}.

Definition initial : t :=
  {| serverState := []; pendingMutations := []; activeRuns := [];
     runGeneration := 0 |}.

Definition getServerTodo (s : t) (k : string) : option Todo :=
  JsMap.get (serverState s) k.

Definition setServerTodo (s : t) (todo : Todo) : t :=
  {| serverState := JsMap.set (serverState s) (id todo) todo;
     pendingMutations := pendingMutations s;
     activeRuns := activeRuns s;
     runGeneration := runGeneration s |}.

Definition getAllServerTodos (s : t) : list Todo :=
  JsMap.values (serverState s).

Definition getNextMutation (s : t) (k : string) : option PendingMutation :=
  JsMap.get (pendingMutations s) k ≫= head.

Definition getAllPendingMutations (s : t) (k : string) : list PendingMutation :=
  default [] (JsMap.get (pendingMutations s) k).

Definition set_pendingMutations (s : t) (p : JsMap.t (list PendingMutation)) : t :=
  {| serverState := serverState s;
     pendingMutations := p;
     activeRuns := activeRuns s;
     runGeneration := runGeneration s |}.

(** [id] and [appliedAt] come from [crypto.randomUUID()] and the clock. *)
Definition enqueueMutation (s : t) (uuid now : string) (k : string)
    (next : TodoState) : t * PendingMutation :=
  let mutation :=
    {| m_id := uuid; todoId := k; appliedAt := now; nextState := next |} in
  let queue' :=
    match JsMap.get (pendingMutations s) k with
    | Some queue => queue ++ [mutation]
    | None => [mutation]
    end in
  (set_pendingMutations s (JsMap.set (pendingMutations s) k queue'), mutation).

Definition dequeueMutation (s : t) (k : string) : t :=
  match JsMap.get (pendingMutations s) k with
  | None | Some [] => set_pendingMutations s (JsMap.delete (pendingMutations s) k)
  | Some (_ :: queue') =>
      match queue' with
      | [] => set_pendingMutations s (JsMap.delete (pendingMutations s) k)
      | _ => set_pendingMutations s (JsMap.set (pendingMutations s) k queue')
      end
  end.

Definition getRunGeneration (s : t) : Z := runGeneration s.

Definition cancelRunGeneration (s : t) : t :=
  {| serverState := serverState s;
     pendingMutations := pendingMutations s;
     activeRuns := activeRuns s;
     runGeneration := runGeneration s + 1 |}.

Definition clearSyncState (s : t) : t :=
  {| serverState := []; pendingMutations := []; activeRuns := [];
     runGeneration := runGeneration s + 1 |}.

End SyncState.

(** ** [apps/web/src/lib/sync/merge.ts]: the merge algorithm *)

Module Merge.
Import SyncState.

Section WithClock.

(** [Date.parse]: the time value of a date string, [None] for [NaN]. *)
Variable parseDate : string -> option Z.

Definition isOptimisticTodo (todo : Todo) : bool :=
  bool_decide (version todo = 0).

(** [a.id < b.id ? -1 : a.id > b.id ? 1 : 0]. *)
Definition compareIds (a b : Todo) : Z :=
  if JsString.ltb (id a) (id b) then -1
  else if JsString.ltb (id b) (id a) then 1 else 0.

Definition compareByCreatedAt (a b : Todo) : Z :=
  match parseDate (createdAt a), parseDate (createdAt b) with
  | Some aTime, Some bTime =>
      if decide (aTime <> bTime) then aTime - bTime else compareIds a b
  | _, _ => compareIds a b
  end.

(** [new Date(a) >= new Date(b)]: false as soon as one date is invalid. *)
Definition dateGe (a b : string) : bool :=
  match parseDate a, parseDate b with
  | Some x, Some y => (y <=? x)%Z
  | _, _ => false
  end.

Definition isNewerThan (incoming : Todo) (existing : option Todo) : bool :=
  match existing with
  | None => true
  | Some existing =>
      if (version existing <? version incoming)%Z then true
      else if bool_decide (version incoming = version existing)
           then dateGe (updatedAt incoming) (updatedAt existing)
           else false
  end.

(** [{ ...todo, createdAt }]. *)
Definition with_createdAt (todo : Todo) (c : string) : Todo :=
  {| id := id todo; listId := listId todo; title := title todo;
     state := state todo; createdBy := createdBy todo; createdAt := c;
     updatedAt := updatedAt todo; version := version todo;
     deletedAt := deletedAt todo |}.

Definition todoToStore (todo : Todo) (preserveCreatedAt : option string) : Todo :=
  match preserveCreatedAt with
  | Some c =>
      if JsString.truthy c && negb (bool_decide (createdAt todo = c))
      then with_createdAt todo c else todo
  | None => todo
  end.

Definition updateServerStateEntry (s : SyncState.t) (todo : Todo)
    (preserveCreatedAt : option string) : SyncState.t :=
  let existing := getServerTodo s (id todo) in
  let stored := todoToStore todo preserveCreatedAt in
  if isNewerThan stored existing then setServerTodo s stored else s.

(** [{ ...acc, state: mutation.nextState, updatedAt: mutation.appliedAt }]. *)
Definition applyMutation (acc : Todo) (mutation : PendingMutation) : Todo :=
  {| id := id acc; listId := listId acc; title := title acc;
     state := nextState mutation; createdBy := createdBy acc;
     createdAt := createdAt acc; updatedAt := appliedAt mutation;
     version := version acc; deletedAt := deletedAt acc |}.

Definition deriveDisplayTodos (s : SyncState.t) : list Todo :=
  map (fun todo => fold_left applyMutation (getAllPendingMutations s (id todo)) todo)
      (getAllServerTodos s).

(** The first loop of [mergeTodos]: the [createdAt] of every optimistic local
    todo, by id. *)
Definition optimisticCreatedAtById (local : list Todo) : JsMap.t string :=
  fold_left
    (fun m todo =>
       if isOptimisticTodo todo then JsMap.set m (id todo) (createdAt todo) else m)
    local [].

(** One round of the second loop. *)
Definition mergeIncoming (optimistic : JsMap.t string) (s : SyncState.t)
    (incomingTodo : Todo) : SyncState.t :=
  let existing := getServerTodo s (id incomingTodo) in
  let preserveCreatedAt :=
    match existing with
    | Some e => Some (createdAt e)
    | None => JsMap.get optimistic (id incomingTodo)
    end in
  updateServerStateEntry s incomingTodo preserveCreatedAt.

(** [mergeTodos] updates the cache and returns the display list. *)
Definition mergeTodos (s : SyncState.t) (local incoming : list Todo)
  : SyncState.t * list Todo :=
  let optimistic := optimisticCreatedAtById local in
  let s' := fold_left (mergeIncoming optimistic) incoming s in
  let optimisticTodos :=
    List.filter
      (fun todo =>
         isOptimisticTodo todo &&
         negb (bool_decide (is_Some (getServerTodo s' (id todo)))))
      local in
  (s', JsArray.sort_by compareByCreatedAt (deriveDisplayTodos s' ++ optimisticTodos)).

End WithClock.
End Merge.

(** ** [apps/web/src/lib/stores]: the Svelte stores the processor reads *)

Module Stores.

Record User : Type := mkUser {
  user_id : string;
  user_name : option string;
  user_createdAt : string
}.

Inductive AuthStatus : Type := Loading | Ready | Error | SessionExpired.

Record AuthState : Type := mkAuth {
  user : option User;
  auth_status : AuthStatus;
  auth_error : option string
}.

(** [error] is ['not-found' | null]; [ls_listId] is the field [listId] (the
    name is taken by [Todo]). *)
Record ListState : Type := mkList {
  ls_listId : option string;
  list_joinKey : option string;
  list_error : bool
}.

Record TodosState : Type := mkTodos {
  todos : list Todo;
  syncToken : option string
}.

Inductive SyncStatus : Type := Idle | Syncing | SyncError.

(** The sync store together with the module counter [pendingSyncOps]. *)
Record SyncStore : Type := mkSyncStore {
  sync_status : SyncStatus;
  sync_error : option string;
  pendingSyncOps : Z
}.

Definition beginSyncOp (s : SyncStore) : SyncStore :=
  {| sync_status := Syncing;
     sync_error := sync_error s;
     pendingSyncOps := pendingSyncOps s + 1 |}.

Definition endSyncOp (s : SyncStore) (error : option string) : SyncStore :=
  let n := Z.max 0 (pendingSyncOps s - 1) in
  let isError := match error with Some e => JsString.truthy e | None => false end in
  if decide (n = 0) then
    {| sync_status := if isError then SyncError else Idle;
       sync_error := error;
       pendingSyncOps := n |}
  else if isError then
    {| sync_status := sync_status s; sync_error := error; pendingSyncOps := n |}
  else
    {| sync_status := sync_status s; sync_error := sync_error s;
       pendingSyncOps := n |}.

Definition setSessionExpired (a : AuthState) : AuthState :=
  {| user := None; auth_status := SessionExpired; auth_error := auth_error a |}.

End Stores.

(** ** [apps/web/src/lib/sync/processor.ts]: the mutation processor *)

Module Processor.
Import SyncState Stores.

(** Everything the processor reads or writes. *)
Record World : Type := mkWorld {
  syncState : SyncState.t;
  authStore : AuthState;
  listStore : ListState;
  todosStore : TodosState;
  syncStore : SyncStore
}.

Definition with_syncState (w : World) (s : SyncState.t) : World :=
  {| syncState := s; authStore := authStore w; listStore := listStore w;
     todosStore := todosStore w; syncStore := syncStore w |}.

Definition with_syncStore (w : World) (s : SyncStore) : World :=
  {| syncState := syncState w; authStore := authStore w; listStore := listStore w;
     todosStore := todosStore w; syncStore := s |}.

(** What the environment hands back when [api.updateTodoState] settles. *)
Inductive ThrownError : Type :=
| UnauthorizedError (statusCode : Z)
| InvalidTransitionError
| OtherError (message : string).

Inductive ApiOutcome : Type :=
| RespOk (todo : Todo)
| RespConflict (currentTodo : Todo)
| RespOther
| Throws (err : ThrownError).

Inductive ValidationResult : Type :=
| VProceed
| VDone
| VConflict (message : string).

Inductive ExecutionResult : Type :=
| ExSuccess (todo : Todo)
| ExVersionConflict (todo : Todo)
| ExInvalidTransition
| ExAuthError
| ExNetworkError (message : string)
| ExCancelled.

(** The body of the request sent by [executeMutation]. *)
Record Request : Type := mkRequest {
  req_todoId : string;
  req_userId : string;
  req_nextState : TodoState;
  req_expectedVersion : Z
}.

(** The local variables of one run of [processMutations]. *)
Record Run : Type := mkRun {
  run_todoId : string;
  run_generation : Z;
  run_attempt : Z
}.

Definition with_attempt (r : Run) (a : Z) : Run :=
  {| run_todoId := run_todoId r; run_generation := run_generation r;
     run_attempt := a |}.

(** The [await] at which a run is suspended. *)
Inductive Pending : Type :=
| AwaitValidate (mutation : PendingMutation) (validation : ValidationResult)
| AwaitExecute (mutation : PendingMutation) (request : option Request)
| AwaitBackoff (delay : Z)
| AwaitSync
| Exited.

(** What resumes a suspended run. *)
Inductive Event : Type :=
| Tick
| ApiSettled (outcome : ApiOutcome)
| TimerFired
| SyncSettled.

Section WithClock.
Variable parseDate : string -> option Z.

Definition backoff : Z -> Z := Retry.DEFAULT_BACKOFF.

Definition updateDisplayTodos (w : World) (serverTodos : list Todo) : World :=
  let '(s', merged) :=
    Merge.mergeTodos parseDate (syncState w) (todos (todosStore w)) serverTodos in
  {| syncState := s'; authStore := authStore w; listStore := listStore w;
     todosStore := {| todos := merged; syncToken := syncToken (todosStore w) |};
     syncStore := syncStore w |}.

Definition canProcess (w : World) : bool :=
  bool_decide (is_Some (user (authStore w))) &&
  bool_decide (is_Some (ls_listId (listStore w))) &&
  negb (list_error (listStore w)).

Definition isRunValid (w : World) (runGeneration : Z) : bool :=
  bool_decide (getRunGeneration (syncState w) = runGeneration).

Definition validateMutation (w : World) (mutation : PendingMutation)
  : ValidationResult :=
  match getServerTodo (syncState w) (todoId mutation) with
  | None => VDone
  | Some serverTodo =>
      if match deletedAt serverTodo with
         | Some d => JsString.truthy d
         | None => false
         end
      then VDone
      else if decide (state serverTodo = nextState mutation) then VDone
      else if negb (StateMachine.isValidTransition (state serverTodo)
                      (nextState mutation))
      then VConflict "Conflict, change not applied"
      else VProceed
  end.

(** [executeMutation] up to its [await]: either it gives up at once
    ([None]) or it sends the request. *)
Definition executeMutation_send (w : World) (mutation : PendingMutation)
  : World * option Request :=
  match user (authStore w), getServerTodo (syncState w) (todoId mutation) with
  | Some u, Some serverTodo =>
      (with_syncStore w (beginSyncOp (syncStore w)),
       Some {| req_todoId := todoId mutation;
               req_userId := user_id u;
               req_nextState := nextState mutation;
               req_expectedVersion := version serverTodo |})
  | _, _ => (w, None)
  end.

Definition isUnauthenticatedError (err : ThrownError) : bool :=
  match err with
  | UnauthorizedError statusCode => bool_decide (statusCode = 401)
  | _ => false
  end.

(** [getErrorMessage]: the [userMessage] of an API error; for any other
    error [message] stands for what [getErrorMessage] makes of it. *)
Definition getErrorMessage (err : ThrownError) : string :=
  match err with
  | UnauthorizedError statusCode =>
      if bool_decide (statusCode = 401)
      then "Your session is no longer valid. Refresh the app to continue."
      else "You don't have permission to perform this action."
  | InvalidTransitionError => "This state change is not allowed."
  | OtherError message => message
  end.

(** [executeMutation] from the point where the request settles. *)
Definition executeMutation_settle (w : World) (runGeneration : Z)
    (outcome : ApiOutcome) : World * ExecutionResult :=
  let result :=
    match outcome with
    | Throws err =>
        if isUnauthenticatedError err then ExAuthError
        else match err with
             | InvalidTransitionError => ExInvalidTransition
             | _ => ExNetworkError (getErrorMessage err)
             end
    | _ =>
        if negb (isRunValid w runGeneration) then ExCancelled
        else match outcome with
             | RespOk todo => ExSuccess todo
             | RespConflict currentTodo => ExVersionConflict currentTodo
             | _ => ExNetworkError "Unknown response"
             end
    end in
  (with_syncStore w (endSyncOp (syncStore w) None), result).

(** [handleAuthError]; cancelling the event stream is outside the model. *)
Definition handleAuthError (w : World) : World :=
  {| syncState := clearSyncState (syncState w);
     authStore := setSessionExpired (authStore w);
     listStore := listStore w; todosStore := todosStore w; syncStore := syncStore w |}.

(** The head of the [while] loop, up to [await validateMutation(mutation)]. *)
Definition loopHead (run : Run) (w : World) : World * Run * Pending :=
  if negb (isRunValid w (run_generation run)) then (w, run, Exited)
  else if negb (canProcess w) then (w, run, Exited)
  else match getNextMutation (syncState w) (run_todoId run) with
       | None => (w, run, Exited)
       | Some mutation =>
           (w, run, AwaitValidate mutation (validateMutation w mutation))
       end.

(** Phase 4: what the loop does with the result of [executeMutation]. *)
Definition handleResult (run : Run) (w : World) (mutation : PendingMutation)
    (result : ExecutionResult) : World * Run * Pending :=
  match result with
  | ExNetworkError _ =>
      if (Retry.DEFAULT_RETRIES <=? run_attempt run)%Z then (w, run, Exited)
      else (w, run, AwaitBackoff (backoff (run_attempt run)))
  | ExSuccess todo =>
      let run := with_attempt run 1 in
      let w := with_syncState w (dequeueMutation (syncState w) (todoId mutation)) in
      loopHead run (updateDisplayTodos w [todo])
  | ExVersionConflict todo =>
      let run := with_attempt run 1 in
      loopHead run (updateDisplayTodos w [todo])
  | ExInvalidTransition => (w, with_attempt run 1, AwaitSync)
  | ExAuthError => (handleAuthError w, with_attempt run 1, Exited)
  | ExCancelled => (w, with_attempt run 1, Exited)
  end.

(** [processMutations(todoId, runGeneration)] runs to its first [await]. *)
Definition processMutations (w : World) (k : string) (runGeneration : Z)
  : World * Run * Pending :=
  loopHead {| run_todoId := k; run_generation := runGeneration;
              run_attempt := 1 |} w.

(** A suspended run is resumed on the world as it is by then; it runs to its
    next [await].  [None]: the event is not the one the run waits for. *)
Definition resume (run : Run) (w : World) (p : Pending) (e : Event)
  : option (World * Run * Pending) :=
  match p, e with
  | AwaitValidate mutation validation, Tick =>
      match validation with
      | VProceed =>
          let '(w', request) := executeMutation_send w mutation in
          Some (w', run, AwaitExecute mutation request)
      | _ =>
          let w := with_syncState w
                     (dequeueMutation (syncState w) (run_todoId run)) in
          Some (loopHead run (updateDisplayTodos w []))
      end
  | AwaitExecute mutation None, Tick =>
      Some (handleResult run w mutation ExCancelled)
  | AwaitExecute mutation (Some _), ApiSettled outcome =>
      let '(w', result) := executeMutation_settle w (run_generation run) outcome in
      Some (handleResult run w' mutation result)
  | AwaitBackoff _, TimerFired =>
      Some (loopHead (with_attempt run (run_attempt run + 1)) w)
  | AwaitSync, SyncSettled => Some (loopHead run w)
  | _, _ => None
  end.

(** What a run does to the outside when it suspends: a request goes out, or
    a timer is set. *)
Inductive Effect : Type :=
| Sent (request : Request)
| Slept (delay : Z).

Definition effectOf (p : Pending) : list Effect :=
  match p with
  | AwaitExecute _ (Some request) => [Sent request]
  | AwaitBackoff delay => [Slept delay]
  | _ => []
  end.

(** A run left alone: the events arrive one after the other and nothing else
    touches the world in between.  It stops at the first event the run does
    not wait for (so at the latest when the run has exited). *)
Fixpoint runAlone (events : list Event) (st : World * Run * Pending)
    (trace : list Effect) : World * Run * Pending * list Effect :=
  match events with
  | [] => (st, trace)
  | e :: events' =>
      let '(w, run, p) := st in
      match resume run w p e with
      | None => (st, trace)
      | Some st' => runAlone events' st' (trace ++ effectOf st'.2)
      end
  end.

End WithClock.
End Processor.
(** ** [packages/core/src/utils/validation.ts]: request validation *)

Module Validation.
Import CodeUnit.

(** [\d]. *)
Definition isDigit (c : ascii) : bool := (48 <=? code c)%Z && (code c <=? 57)%Z.

(** [[a-zA-Z0-9_-]]. *)
Definition isIdentifierUnit (c : ascii) : bool :=
  let n := code c in
  ((97 <=? n)%Z && (n <=? 122)%Z) || ((65 <=? n)%Z && (n <=? 90)%Z)
  || ((48 <=? n)%Z && (n <=? 57)%Z) || (n =? 95)%Z || (n =? 45)%Z.

(** [IDENTIFIER_REGEX.test(value)]: one unit or more, all of the class. *)
Definition matchesIdentifier (value : string) : bool :=
  match list_ascii_of_string value with
  | [] => false
  | cs => forallb isIdentifierUnit cs
  end.

(** The argument is taken at its declared type, a string. *)
Definition isValidIdentifier (value : string) : bool :=
  (1 <=? Z.of_nat (String.length value))%Z
  && (Z.of_nat (String.length value) <=? 128)%Z
  && matchesIdentifier value.

(** [ISO_DATE_UTC_REGEX.test(value)]: four digits, a hyphen, two digits, a
    hyphen, two digits, T, two digits, a colon, two digits, a colon, two
    digits, a point, three digits, Z, and nothing else. *)
Definition matchesIsoDateUtc (value : string) : bool :=
  match list_ascii_of_string value with
  | [y1; y2; y3; y4; h1; mo1; mo2; h2; d1; d2; t; hh1; hh2; c1; mi1; mi2; c2;
     s1; s2; p; f1; f2; f3; z] =>
      isDigit y1 && isDigit y2 && isDigit y3 && isDigit y4
      && (code h1 =? 45)%Z && isDigit mo1 && isDigit mo2
      && (code h2 =? 45)%Z && isDigit d1 && isDigit d2
      && (code t =? 84)%Z && isDigit hh1 && isDigit hh2
      && (code c1 =? 58)%Z && isDigit mi1 && isDigit mi2
      && (code c2 =? 58)%Z && isDigit s1 && isDigit s2
      && (code p =? 46)%Z && isDigit f1 && isDigit f2 && isDigit f3
      && (code z =? 90)%Z
  | _ => false
  end.

Section WithClock.

(** [Date.parse]: [None] for [NaN]. *)
Variable parseDate : string -> option Z.

Definition isValidISOString (value : string) : bool :=
  if negb (matchesIsoDateUtc value) then false
  else bool_decide (is_Some (parseDate value)).

End WithClock.
End Validation.

(** ** [apps/server/src/sse.ts]: the subscribers of a list *)

Module Sse.

(** A connection is a [FastifyReply]; only its identity is used. *)
Definition Connection : Type := Z.

(** [Map<string, Set<FastifyReply>>]; a set iterates in insertion order. *)
Abbreviation t := (gmap string (list Connection)) (only parsing).

Definition set_add (reply : Connection) (s : list Connection) : list Connection :=
  if decide (reply ∈ s) then s else s ++ [reply].

Definition set_delete (reply : Connection) (s : list Connection)
  : list Connection :=
  filter (fun r => r <> reply) s.

Definition subscribe (subscribers : t) (l : string) (reply : Connection) : t :=
  <[l := set_add reply (default [] (subscribers !! l))]> subscribers.

Definition unsubscribe (subscribers : t) (l : string) (reply : Connection) : t :=
  match subscribers !! l with
  | Some listSubscribers =>
      let rest := set_delete reply listSubscribers in
      if decide (length rest = 0%nat) then delete l subscribers
      else <[l := rest]> subscribers
  | None => subscribers
  end.

Definition message : string :=
  "event: changed" ++ String "010" ("data: {}" ++ String "010" (String "010" "")).

(** [writeThrows] tells for which connections [reply.raw.write] throws.
    The result is the map, without the connections on which the write threw,
    and the writes that went through, in order. *)
Definition notifyListChanged (writeThrows : Connection -> bool) (subscribers : t)
    (l : string) : t * list (Connection * string) :=
  match subscribers !! l with
  | None => (subscribers, [])
  | Some listSubscribers =>
      let alive := filter (fun r => writeThrows r = false) listSubscribers in
      (<[l := alive]> subscribers, map (fun r => (r, message)) alive)
  end.

End Sse.

(** ** [apps/server/src/store.ts]: users and join keys *)

Module Directory.
Import Stores.

(** The maps [users] and [listsByJoinKey] of the store. *)
Record t : Type := mk {
  users : gmap string User;
  listsByJoinKey : gmap string string
}.

Definition empty : t := {| users := ∅; listsByJoinKey := ∅ |}.

Definition getUser (d : t) (userId : string) : option User := users d !! userId.

Definition createUser (d : t) (u : User) : t * User :=
  ({| users := <[user_id u := u]> (users d);
      listsByJoinKey := listsByJoinKey d |}, u).

(** [if (!listId)] also turns an empty list id away. *)
Definition getListByJoinKey (st : Store.t) (d : t) (key : string)
  : option TodoList :=
  match listsByJoinKey d !! key with
  | Some listId =>
      if JsString.truthy listId then Store.lists st !! listId else None
  | None => None
  end.

(** [createList] writes to two maps: [Store.createList] is the statement on
    [lists], this is the one on [listsByJoinKey]. *)
Definition indexList (d : t) (list : TodoList) : t :=
  {| users := users d;
     listsByJoinKey := <[joinKey list := list_id list]> (listsByJoinKey d) |}.

Definition createList (st : Store.t) (d : t) (list : TodoList)
  : Store.t * t * TodoList :=
  ((Store.createList st list).1, indexList d list, list).

End Directory.

(** ** [packages/core/src/errors.ts] and the replies of the routes *)

Module Api.

Inductive ErrorCode : Type :=
| NOT_FOUND
| INVALID_TRANSITION
| VERSION_CONFLICT
| UNAUTHORIZED
| VALIDATION_ERROR
| ALREADY_MEMBER
| ALREADY_EXISTS.

(** [details] is only ever [{ currentTodo }]. *)
Record ApiError : Type := mkApiError {
  error : string;
  code : ErrorCode;
  details : option Todo
}.

Inductive Body : Type :=
| TodoBody (todo : Todo)
| CreateListResponse (listId joinKey : string)
| JoinListResponse (listId : string) (list : TodoList)
| BootstrapResponse (user : Stores.User)
| ErrorBody (e : ApiError).

(** What a handler ends with: a reply with its status; an open event
    stream; or an exception that leaves the handler (the [RangeError] of
    [toISOString]). *)
Inductive Outcome : Type :=
| Replied (status : Z) (body : Body)
| Streaming
| Threw.

Definition stateName (s : TodoState) : string :=
  match s with TODO => "TODO" | ONGOING => "ONGOING" | DONE => "DONE" end.

End Api.

(** ** The server and its routes

    The functions of the store resolve at once, so a handler runs from its
    first line to its reply with no other handler in between: a handler is a
    function of the state of the server when it starts. *)

Module Server.
Import Api.

(** The module variables of [store.ts], [utils/time.ts] and [sse.ts]. *)
Record t : Type := mk {
  store : Store.t;
  directory : Directory.t;
  lastMonotonicTimestampMs : Z;
  subscribers : Sse.t
}.

Definition initial : t :=
  {| store := Store.empty; directory := Directory.empty;
     lastMonotonicTimestampMs := Time.initial; subscribers := ∅ |}.

(** The state after a request, the answer, and what was written to the event
    streams meanwhile. *)
Record Result : Type := mkResult {
  server : t;
  outcome : Outcome;
  written : list (Sse.Connection * string)
}.

Definition reject (sv : t) (status : Z) (message : string)
    (c : ErrorCode) (d : option Todo) : Result :=
  {| server := sv;
     outcome := Replied status
                  (ErrorBody {| error := message; code := c; details := d |});
     written := [] |}.

Definition with_clock (sv : t) (last : Z) : t :=
  {| store := store sv; directory := directory sv;
     lastMonotonicTimestampMs := last; subscribers := subscribers sv |}.

Definition with_store (sv : t) (st : Store.t) : t :=
  {| store := st; directory := directory sv;
     lastMonotonicTimestampMs := lastMonotonicTimestampMs sv;
     subscribers := subscribers sv |}.

Definition with_subscribers (sv : t) (subs : Sse.t) : t :=
  {| store := store sv; directory := directory sv;
     lastMonotonicTimestampMs := lastMonotonicTimestampMs sv;
     subscribers := subs |}.

End Server.

(** *** [apps/server/src/routes/auth.ts] *)

Module AuthRoutes.
Import Api Server.

(** [POST /auth/bootstrap]; [uuid] and [now] are what [crypto.randomUUID()]
    and the clock give if they are asked. *)
Definition bootstrapRoute (uuid now : string) (sv : Server.t)
    (userId : option string) : Result :=
  let existingUser :=
    match userId with
    | Some i => if JsString.truthy i then Directory.getUser (directory sv) i else None
    | None => None
    end in
  match existingUser with
  | Some u =>
      {| server := sv; outcome := Replied 200 (BootstrapResponse u); written := [] |}
  | None =>
      let '(d, u) :=
        Directory.createUser (directory sv)
          {| Stores.user_id := uuid; Stores.user_name := None;
             Stores.user_createdAt := now |} in
      {| server := {| store := store sv; directory := d;
                      lastMonotonicTimestampMs := lastMonotonicTimestampMs sv;
                      subscribers := subscribers sv |};
         outcome := Replied 201 (BootstrapResponse u);
         written := [] |}
  end.

End AuthRoutes.

(** *** [apps/server/src/routes/lists.ts] *)

Module ListRoutes.
Import Api Server.

(** [POST /lists]; [uuid], [key] and [now] are what [crypto.randomUUID()],
    [nanoid(8)] and the clock give. *)
Definition createListRoute (uuid key now : string) (sv : Server.t)
    (userId : string) : Result :=
  match Directory.getUser (directory sv) userId with
  | None => reject sv 401 "User not found" UNAUTHORIZED None
  | Some _ =>
      let '(st, d, _) :=
        Directory.createList (store sv) (directory sv)
          {| list_id := uuid; joinKey := key; list_createdAt := now |} in
      {| server := {| store := st; directory := d;
                      lastMonotonicTimestampMs := lastMonotonicTimestampMs sv;
                      subscribers := subscribers sv |};
         outcome := Replied 201 (CreateListResponse uuid key);
         written := [] |}
  end.

(** [POST /lists/join]. *)
Definition joinListRoute (sv : Server.t) (userId key : string) : Result :=
  match Directory.getUser (directory sv) userId with
  | None => reject sv 401 "User not found" UNAUTHORIZED None
  | Some _ =>
      match Directory.getListByJoinKey (store sv) (directory sv) key with
      | None => reject sv 404 "List not found" NOT_FOUND None
      | Some list =>
          {| server := sv;
             outcome := Replied 200 (JoinListResponse (list_id list) list);
             written := [] |}
      end
  end.

End ListRoutes.

(** *** [apps/server/src/routes/events.ts] *)

Module EventRoutes.
Import Api Server.

Definition connectedMessage (l : string) : string :=
  "event: connected" ++ String "010"
    ("data: {" ++ String "034" ("listId" ++ String "034" (":" ++ String "034"
       (l ++ String "034" ("}" ++ String "010" (String "010" "")))))).

(** [GET /lists/:listId/events] on the connection [reply]: the stream is
    opened, greeted and registered; it stays open. *)
Definition eventsRoute (sv : Server.t) (l : string) (reply : Sse.Connection)
  : Result :=
  if negb (Store.listExists (store sv) l) then
    reject sv 404 "List not found" NOT_FOUND None
  else
    {| server := with_subscribers sv (Sse.subscribe (subscribers sv) l reply);
       outcome := Streaming;
       written := [(reply, connectedMessage l)] |}.

(** The handler of the [close] event of the request. *)
Definition onClose (sv : Server.t) (l : string) (reply : Sse.Connection)
  : Server.t :=
  with_subscribers sv (Sse.unsubscribe (subscribers sv) l reply).

End EventRoutes.

(** *** [apps/server/src/routes/todos.ts]: the create and update routes *)

Module TodoWriteRoutes.
Import Api Server.

(** [CreateTodoRequest]. *)
Record CreateTodoRequest : Type := mkCreate {
  ct_id : string;
  ct_title : string;
  ct_userId : string;
  ct_createdAt : string
}.

(** [UpdateTodoStateRequest]. *)
Record UpdateTodoStateRequest : Type := mkUpdateState {
  us_userId : string;
  us_nextState : TodoState;
  us_expectedVersion : Z
}.

Section WithEnvironment.

Variable parseDate : string -> option Z.

(** What [Date.now()] reads during the request. *)
Variable nowMs : Z.

Variable writeThrows : Sse.Connection -> bool.

(** [POST /lists/:listId/todos]. *)
Definition createTodoRoute (sv : Server.t) (l : string)
    (body : CreateTodoRequest) : Result :=
  if negb (Validation.isValidIdentifier (ct_id body)) then
    reject sv 400 "Invalid todo id" VALIDATION_ERROR None
  else if negb (Validation.isValidISOString parseDate (ct_createdAt body)) then
    reject sv 400 "Invalid createdAt timestamp" VALIDATION_ERROR None
  else if negb (Store.listExists (store sv) l) then
    reject sv 404 "List not found" NOT_FOUND None
  else
    match Store.getTodo (store sv) (ct_id body) with
    | Some _ => reject sv 409 "Todo already exists" ALREADY_EXISTS None
    | None =>
        let '(last, stamp) :=
          Time.getMonotonicISOString (lastMonotonicTimestampMs sv) nowMs in
        match stamp with
        | None =>
            {| server := with_clock sv last; outcome := Threw; written := [] |}
        | Some stamp =>
            let '(st, todo) :=
              Store.createTodo (store sv)
                {| id := ct_id body; listId := l; title := ct_title body;
                   state := TODO; createdBy := ct_userId body;
                   createdAt := ct_createdAt body; updatedAt := stamp;
                   version := 1; deletedAt := None |} in
            let '(subs, writes) :=
              Sse.notifyListChanged writeThrows (subscribers sv) l in
            {| server := {| store := st; directory := directory sv;
                            lastMonotonicTimestampMs := last;
                            subscribers := subs |};
               outcome := Replied 201 (TodoBody todo);
               written := writes |}
        end
    end.

(** [PATCH /todos/:todoId/state].  The timestamp is an argument of the call
    of [compareAndSwapTodo], so the counter moves before the versions are
    compared. *)
Definition updateTodoStateRoute (sv : Server.t) (k : string)
    (body : UpdateTodoStateRequest) : Result :=
  match Store.getTodo (store sv) k with
  | None => reject sv 404 "Todo not found" NOT_FOUND None
  | Some todo =>
      if match deletedAt todo with
         | Some d => JsString.truthy d
         | None => false
         end
      then reject sv 404 "Todo not found" NOT_FOUND None
      else if negb (StateMachine.isValidTransition (state todo) (us_nextState body))
      then
        reject sv 400
          ("Invalid transition from " ++ stateName (state todo) ++ " to "
           ++ stateName (us_nextState body))
          INVALID_TRANSITION None
      else
        let '(last, stamp) :=
          Time.getMonotonicISOString (lastMonotonicTimestampMs sv) nowMs in
        match stamp with
        | None =>
            {| server := with_clock sv last; outcome := Threw; written := [] |}
        | Some stamp =>
            let '(st, result) :=
              Store.compareAndSwapTodo (store sv) k (us_expectedVersion body)
                {| Store.u_title := None;
                   Store.u_state := Some (us_nextState body);
                   Store.u_updatedAt := Some stamp;
                   Store.u_version := None;
                   Store.u_deletedAt := None |} in
            let sv' := {| store := st; directory := directory sv;
                          lastMonotonicTimestampMs := last;
                          subscribers := subscribers sv |} in
            match result with
            | Store.NotFound => reject sv' 404 "Todo not found" NOT_FOUND None
            | Store.Conflict currentTodo =>
                reject sv' 409 "Version conflict" VERSION_CONFLICT
                  (Some currentTodo)
            | Store.Success todo =>
                let '(subs, writes) :=
                  Sse.notifyListChanged writeThrows (subscribers sv)
                    (listId todo) in
                {| server := {| store := st; directory := directory sv;
                                lastMonotonicTimestampMs := last;
                                subscribers := subs |};
                   outcome := Replied 200 (TodoBody todo);
                   written := writes |}
            end
        end
  end.

End WithEnvironment.
End TodoWriteRoutes.

(** *** [apps/server/src/index.ts]: the routes together *)

Module App.
Import Server TodoWriteRoutes.

(** What reaches the server, with what the environment gives while it is
    handled: the random identifiers, the readings of the clock, and whether
    a write to an event stream throws.  [CloseEvents] is the [close] event of
    an event-stream request. *)
Inductive Request : Type :=
| Bootstrap (uuid now : string) (userId : option string)
| CreateList (uuid key now : string) (userId : string)
| JoinList (userId key : string)
| GetTodos (l : string) (syncToken : option string)
| CreateTodo (nowMs : Z) (writeThrows : Sse.Connection -> bool) (l : string)
    (body : CreateTodoRequest)
| UpdateTodoState (nowMs : Z) (writeThrows : Sse.Connection -> bool)
    (k : string) (body : UpdateTodoStateRequest)
| OpenEvents (l : string) (reply : Sse.Connection)
| CloseEvents (l : string) (reply : Sse.Connection).

Section WithClock.
Variable parseDate : string -> option Z.

(** The state of the server after a request. *)
Definition handle (sv : Server.t) (r : Request) : Server.t :=
  match r with
  | Bootstrap uuid now userId => server (AuthRoutes.bootstrapRoute uuid now sv userId)
  | CreateList uuid key now userId =>
      server (ListRoutes.createListRoute uuid key now sv userId)
  | JoinList userId key => server (ListRoutes.joinListRoute sv userId key)
  | GetTodos _ _ => sv
  | CreateTodo nowMs writeThrows l body =>
      server (createTodoRoute parseDate nowMs writeThrows sv l body)
  | UpdateTodoState nowMs writeThrows k body =>
      server (updateTodoStateRoute nowMs writeThrows sv k body)
  | OpenEvents l reply => server (EventRoutes.eventsRoute sv l reply)
  | CloseEvents l reply => EventRoutes.onClose sv l reply
  end.

Definition run (sv : Server.t) (requests : list Request) : Server.t :=
  fold_left handle requests sv.

End WithClock.
End App.

(** ** [packages/core/src/utils/retry.ts]: [retry] *)

Module RetryTask.

(** An [Error] object, as far as [retry] looks at it. *)
Record ErrorObject : Type := mkError {
  name : string;
  message : string
}.

(** What is thrown: an [Error], or something else, of which only its
    [String(...)] is used. *)
Inductive Thrown : Type :=
| Err (e : ErrorObject)
| NonError (text : string).

Inductive TaskOutcome (T : Type) : Type :=
| Resolves (v : T)
| Rejects (e : Thrown).
Arguments Resolves {T} v.
Arguments Rejects {T} e.

(** The promise that [retry] returns, once settled. *)
Inductive Settled (T : Type) : Type :=
| Fulfilled (v : T)
| Rejected (e : Thrown).
Arguments Fulfilled {T} v.
Arguments Rejected {T} e.

(** The two places of an attempt at which the signal is looked at. *)
Inductive Phase : Type := BeforeTask | AfterTask.

(** An [AbortSignal], seen from [retry]: at a given look, the reason with
    which it is found aborted, if it is. *)
Definition Signal : Type := Z -> Phase -> option Thrown.

(** [RetryOptions].  The callbacks are taken at their declared types: they
    return and do not throw; [onFailedAttempt] only matters by being called;
    [backoff] is called and awaited, whatever timer it is. *)
Record RetryOptions : Type := mkOptions {
  retries : option Z;
  shouldRetry : option (ErrorObject -> bool);
  onFailedAttempt : bool;
  signal : option Signal
}.

(** The calls that [retry] makes, in order. *)
Inductive Call : Type :=
| TaskCall (attempt : Z)
| FailedAttemptCall (e : ErrorObject) (attempt : Z)
| ShouldRetryCall (e : ErrorObject)
| BackoffCall (attempt : Z).

Definition nonErrorMessage (text : string) : string :=
  "Non-error was thrown: " ++ String "034" (text ++ String "034"
    ". You should only throw errors.").

Definition exhausted : Thrown :=
  Err {| name := "Error";
         message := "Retry attempts exhausted without throwing an error." |}.

Section Retry.
Context {T : Type}.

(** What [task(attempt)] settles to. *)
Variable task : Z -> TaskOutcome T.
Variable options : option RetryOptions.

Definition maxRetries : Z := default Retry.DEFAULT_RETRIES (options ≫= retries).
Definition maxAttempts : Z := maxRetries + 1.

Definition shouldRetryOption : option (ErrorObject -> bool) :=
  options ≫= shouldRetry.

Definition look (attempt : Z) (phase : Phase) : option Thrown :=
  match options ≫= signal with
  | Some s => s attempt phase
  | None => None
  end.

(** The [try] block of one attempt: what it returns, or what is caught. *)
Definition tryBlock (attempt : Z) : TaskOutcome T * list Call :=
  match look attempt BeforeTask with
  | Some reason => (Rejects reason, [])
  | None =>
      match task attempt with
      | Resolves v =>
          match look attempt AfterTask with
          | Some reason => (Rejects reason, [TaskCall attempt])
          | None => (Resolves v, [TaskCall attempt])
          end
      | Rejects e => (Rejects e, [TaskCall attempt])
      end
  end.

(** The [while] loop from [attempt] on; [fuel] bounds the number of rounds
    and is not used up, since [attempt] grows by one in each round. *)
Fixpoint loop (fuel : nat) (attempt : Z) : Settled T * list Call :=
  if negb (attempt <=? maxAttempts)%Z then (Rejected exhausted, [])
  else
    match fuel with
    | O => (Rejected exhausted, [])
    | S fuel' =>
        match tryBlock attempt with
        | (Resolves v, calls) => (Fulfilled v, calls)
        | (Rejects (NonError text), calls) =>
            (Rejected (Err {| name := "TypeError";
                              message := nonErrorMessage text |}), calls)
        | (Rejects (Err e), calls) =>
            if bool_decide (name e = "AbortError") then (Rejected (Err e), calls)
            else
              let calls1 :=
                calls ++
                (if default false (onFailedAttempt <$> options)
                 then [FailedAttemptCall e attempt] else []) in
              if (maxAttempts <=? attempt)%Z then (Rejected (Err e), calls1)
              else
                match shouldRetryOption with
                | Some f =>
                    if f e then
                      let '(r, rest) := loop fuel' (attempt + 1) in
                      (r, calls1 ++ ShouldRetryCall e :: BackoffCall attempt :: rest)
                    else (Rejected (Err e), calls1 ++ [ShouldRetryCall e])
                | None =>
                    let '(r, rest) := loop fuel' (attempt + 1) in
                    (r, calls1 ++ BackoffCall attempt :: rest)
                end
        end
    end.

Definition retry : Settled T * list Call := loop (Z.to_nat maxAttempts) 1.

End Retry.
End RetryTask.

(** ** [apps/web/src/lib/sync/state.ts]: queues and runs, further *)

Module PendingQueue.
Import SyncState.

Definition hasPendingMutations (s : SyncState.t) (k : string) : bool :=
  match JsMap.get (pendingMutations s) k with
  | Some queue => (0 <? Z.of_nat (length queue))%Z
  | None => false
  end.

Definition deletePendingMutations (s : SyncState.t) (k : string) : SyncState.t :=
  set_pendingMutations s (JsMap.delete (pendingMutations s) k).

Definition getTodoIdsWithPendingMutations (s : SyncState.t) : list string :=
  JsMap.keys (pendingMutations s).

End PendingQueue.

Module ActiveRuns.
Import SyncState.

Definition set_activeRuns (s : SyncState.t) (runs : JsMap.t unit) : SyncState.t :=
  {| serverState := serverState s;
     pendingMutations := pendingMutations s;
     activeRuns := runs;
     runGeneration := runGeneration s |}.

Definition hasActiveRun (s : SyncState.t) (k : string) : bool :=
  JsMap.has (activeRuns s) k.

Definition setActiveRun (s : SyncState.t) (k : string) : SyncState.t :=
  set_activeRuns s (JsMap.set (activeRuns s) k tt).

Definition deleteActiveRun (s : SyncState.t) (k : string) : SyncState.t :=
  set_activeRuns s (JsMap.delete (activeRuns s) k).

End ActiveRuns.

(** ** [apps/web/src/lib/sync/processor.ts]: starting runs *)

Module MutationRuns.
Import SyncState Stores Processor ActiveRuns.

(** [startMutationRun]: the run is started, it runs to its first [await],
    and its promise is registered; [None] when a run is registered
    already. *)
Definition startMutationRun (w : World) (k : string)
  : World * option (Run * Pending) :=
  if hasActiveRun (syncState w) k then (w, None)
  else
    let runGeneration := getRunGeneration (syncState w) in
    let '(w1, run, p) := processMutations w k runGeneration in
    (with_syncState w1 (setActiveRun (syncState w1) k), Some (run, p)).

(** The callback given to [finally]: it runs once the run has exited, and
    after [setActiveRun], also when the run exits at once. *)
Definition onRunSettled (w : World) (run : Run) : World :=
  if bool_decide (getRunGeneration (syncState w) = run_generation run)
  then with_syncState w (deleteActiveRun (syncState w) (run_todoId run))
  else w.

(** [restartAllMutationRuns]: the runs started, each with the todo id. *)
Definition restartAllMutationRuns (w : World)
  : World * list (string * (Run * Pending)) :=
  fold_left
    (fun '(w, started) k =>
       match startMutationRun w k with
       | (w', Some r) => (w', started ++ [(k, r)])
       | (w', None) => (w', started)
       end)
    (PendingQueue.getTodoIdsWithPendingMutations (syncState w)) (w, []).

End MutationRuns.

(** ** [apps/web/src/lib/stores/sync.svelte.ts], further *)

Module SyncStoreOps.
Import Stores.

Definition initialState : SyncStore :=
  {| sync_status := Idle; sync_error := None; pendingSyncOps := 0 |}.

Definition clearSyncError (s : SyncStore) : SyncStore :=
  {| sync_status := sync_status s; sync_error := None;
     pendingSyncOps := pendingSyncOps s |}.

(** The three operations on the store. *)
Inductive Op : Type :=
| BeginSyncOp
| EndSyncOp (error : option string)
| ClearSyncError.

Definition apply (s : SyncStore) (op : Op) : SyncStore :=
  match op with
  | BeginSyncOp => beginSyncOp s
  | EndSyncOp error => endSyncOp s error
  | ClearSyncError => clearSyncError s
  end.

End SyncStoreOps.

(** ** [apps/web/src/lib/sync/operations.ts]: the sync token of a client *)

Module SyncSession.

(** [syncOnce] as far as the sync token goes.  The token of the todos store
    ([null] at first) is sent when there is one, and the token of the answer
    takes its place; when the list is not found the todos store is reset.
    (A request that fails otherwise leaves the token as it is.) *)
Definition syncOnce (sv : Server.t) (l : string) (held : option string)
  : option string :=
  match TodoRoutes.getTodos SyncToken.node (Server.store sv) l held with
  | TodoRoutes.Ok _ syncToken => syncToken
  | TodoRoutes.ListNotFound => None
  end.

Section WithClock.
Variable parseDate : string -> option Z.

(** A client in session with the server.  Each round is the requests, of
    whatever clients, that the server answers before the next [syncOnce] of
    this one. *)
Fixpoint session (sv : Server.t) (l : string) (held : option string)
    (rounds : list (list App.Request)) : Server.t * option string :=
  match rounds with
  | [] => (sv, held)
  | requests :: rounds' =>
      let sv' := App.run parseDate sv requests in
      session sv' l (syncOnce sv' l held) rounds'
  end.

End WithClock.
End SyncSession.

(** * Properties *)

(** ** The state machine *)

(** C4: [isValidTransition from to] is [true] exactly on the four edges
    TODO->ONGOING, ONGOING->TODO, ONGOING->DONE and DONE->ONGOING; it is
    [false] on every other pair, in particular on every self-transition and
    on both directions of the TODO<->DONE skip. *)
Theorem isValidTransition_four_edges :
  (forall from to,
      StateMachine.isValidTransition from to = true <->
      (from, to) = (TODO, ONGOING) \/ (from, to) = (ONGOING, TODO) \/
      (from, to) = (ONGOING, DONE) \/ (from, to) = (DONE, ONGOING)) /\
  (forall s, StateMachine.isValidTransition s s = false) /\
  StateMachine.isValidTransition TODO DONE = false /\
  StateMachine.isValidTransition DONE TODO = false.
Proof.
  repeat split; try reflexivity.
  - destruct from, to; simpl; intros H; try discriminate H; tauto.
  - intros H. destruct H as [H|[H|[H|H]]]; inversion H; reflexivity.
  - intros s. destruct s; reflexivity.
Qed.

(** ** The store: compare-and-swap *)

Module StoreFacts.
Import Store.

(** The composite key [(updatedAt, id)] and its lexicographic order. *)
Definition key (todo : Todo) : string * string := (updatedAt todo, id todo).

Definition key_lt (a b : string * string) : Prop :=
  JsString.lt a.1 b.1 \/ (a.1 = b.1 /\ JsString.lt a.2 b.2).

Definition key_le (a b : string * string) : Prop := key_lt a b \/ a = b.

Definition todo_le (a b : Todo) : Prop := key_le (key a) (key b).

Lemma key_lt_trans a b c : key_lt a b -> key_lt b c -> key_lt a c.
Proof.
  unfold key_lt. intros [H1|[E1 H1]] [H2|[E2 H2]].
  - left. eapply JsString.lt_trans; eassumption.
  - left. congruence.
  - left. congruence.
  - right. split; [congruence|]. eapply JsString.lt_trans; eassumption.
Qed.

Lemma key_le_trans a b c : key_le a b -> key_le b c -> key_le a c.
Proof.
  unfold key_le. intros [H1| ->] [H2| ->]; auto.
  left. eapply key_lt_trans; eassumption.
Qed.

Lemma key_lt_irrefl a : ~ key_lt a a.
Proof.
  intros [H|[_ H]]; exact (JsString.lt_irrefl _ H).
Qed.

Lemma key_total a b : key_lt a b \/ a = b \/ key_lt b a.
Proof.
  destruct a as [a1 a2], b as [b1 b2]. unfold key_lt. simpl.
  destruct (JsString.trichotomy a1 b1) as [H|[->|H]]; [tauto| |tauto].
  destruct (JsString.trichotomy a2 b2) as [H|[->|H]]; tauto.
Qed.

(** The comparator is positive exactly when its first argument has the
    larger key. *)
Lemma compareTodos_pos a b :
  (0 <? compareTodos a b)%Z = true <-> key_lt (key b) (key a).
Proof.
  unfold compareTodos, key_lt, key. simpl.
  destruct (decide (updatedAt a = updatedAt b)) as [Eu|Nu].
  - destruct (decide (id a = id b)) as [Ei|Ni].
    + simpl. split; [discriminate|]. rewrite Eu, Ei.
      intros [H|[_ H]]; exfalso; exact (JsString.lt_irrefl _ H).
    + destruct (JsString.ltb (id a) (id b)) eqn:Hlt; simpl.
      * apply JsString.ltb_lt in Hlt. split; [discriminate|].
        rewrite Eu. intros [H|[_ H]].
        -- exfalso; exact (JsString.lt_irrefl _ H).
        -- exfalso; exact (JsString.lt_asym _ _ Hlt H).
      * split; [intros _|reflexivity]. right. split; [congruence|].
        destruct (JsString.trichotomy (id a) (id b)) as [H|[H|H]];
          [|congruence|exact H].
        apply JsString.ltb_lt in H. congruence.
  - destruct (JsString.ltb (updatedAt a) (updatedAt b)) eqn:Hlt; simpl.
    + apply JsString.ltb_lt in Hlt. split; [discriminate|].
      intros [H|[E _]]; [|congruence].
      exfalso; exact (JsString.lt_asym _ _ Hlt H).
    + split; [intros _|reflexivity]. left.
      destruct (JsString.trichotomy (updatedAt a) (updatedAt b)) as [H|[H|H]];
        [|congruence|exact H].
      apply JsString.ltb_lt in H. congruence.
Qed.

Lemma isTodoAfterCursor_key todo u tid :
  isTodoAfterCursor todo u tid = true <-> key_lt (u, tid) (key todo).
Proof.
  unfold isTodoAfterCursor, key_lt, key. simpl.
  destruct (JsString.ltb u (updatedAt todo)) eqn:H1.
  - apply JsString.ltb_lt in H1. tauto.
  - assert (N1 : ~ JsString.lt u (updatedAt todo)).
    { intros H. apply JsString.ltb_lt in H. congruence. }
    destruct (bool_decide (updatedAt todo = u)) eqn:H2; simpl.
    + apply bool_decide_eq_true in H2.
      destruct (JsString.ltb tid (id todo)) eqn:H3.
      * apply JsString.ltb_lt in H3. split; [intros _|reflexivity].
        right. split; [congruence|exact H3].
      * split; [discriminate|]. intros [H|[_ H]]; [contradiction|].
        apply JsString.ltb_lt in H. congruence.
    + apply bool_decide_eq_false in H2. split; [discriminate|].
      intros [H|[E _]]; [contradiction|congruence].
Qed.

(** *** The stable insertion sort *)

Section Sorting.
Context {A : Type} (cmp : A -> A -> Z).

Lemma insert_by_perm x l : JsArray.insert_by cmp x l ≡ₚ x :: l.
Proof.
  induction l as [|y l IH]; simpl; [reflexivity|].
  destruct (0 <? cmp x y)%Z; [|reflexivity].
  rewrite IH. apply Permutation_swap.
Qed.

Lemma sort_by_perm l : JsArray.sort_by cmp l ≡ₚ l.
Proof.
  induction l as [|x l IH]; simpl; [reflexivity|].
  rewrite insert_by_perm. now rewrite IH.
Qed.

Context (le : A -> A -> Prop).
Hypothesis le_trans : forall a b c, le a b -> le b c -> le a c.
Hypothesis cmp_pos : forall a b, (0 <? cmp a b)%Z = true -> le b a.
Hypothesis cmp_nonpos : forall a b, (0 <? cmp a b)%Z = false -> le a b.

Lemma insert_by_sorted x l :
  StronglySorted le l -> StronglySorted le (JsArray.insert_by cmp x l).
Proof.
  induction 1 as [|y l Hs IH Hall]; simpl.
  - repeat constructor.
  - destruct (0 <? cmp x y)%Z eqn:E.
    + constructor; [exact IH|].
      rewrite insert_by_perm. constructor; [auto|exact Hall].
    + constructor; [constructor; assumption|].
      constructor; [auto|].
      eapply Forall_impl; [exact Hall|]. intros z Hz. eauto.
Qed.

Lemma sort_by_sorted l : StronglySorted le (JsArray.sort_by cmp l).
Proof.
  induction l as [|x l IH]; simpl; [constructor|].
  now apply insert_by_sorted.
Qed.

End Sorting.

Lemma sort_by_compareTodos_sorted l :
  StronglySorted todo_le (JsArray.sort_by compareTodos l).
Proof.
  apply sort_by_sorted.
  - intros a b c. apply key_le_trans.
  - intros a b H. left. now apply compareTodos_pos.
  - intros a b H. unfold todo_le.
    destruct (key_total (key a) (key b)) as [Hk|[Hk|Hk]].
    + now left.
    + now right.
    + apply compareTodos_pos in Hk. congruence.
Qed.

(** *** Well-formed stores

    What the routes maintain: a todo is stored under its own id, the per-list
    index lists exactly the stored todos of the list, once each, and every
    [updatedAt] is a timestamp (so never the empty string). *)
Record wf (st : t) : Prop := mk_wf {
  wf_id : forall k todo, todos st !! k = Some todo -> id todo = k;
  wf_index : forall l k,
    k ∈ default [] (todosByList st !! l) <->
    exists todo, todos st !! k = Some todo /\ listId todo = l;
  wf_nodup : forall l ids, todosByList st !! l = Some ids -> NoDup ids;
  wf_updatedAt : forall k todo, todos st !! k = Some todo -> updatedAt todo <> ""
}.

(** The position a cursor denotes; a cursor without [updatedAt] denotes none. *)
Definition cursorKey (cursor : option Cursor) : option (string * string) :=
  match cursor with
  | Some {| c_updatedAt := Some u; c_todoId := tid |} => Some (u, default "" tid)
  | _ => None
  end.

(** The todo's key strictly exceeds the cursor (any todo, without a cursor). *)
Definition afterCursor (cursor : option Cursor) (todo : Todo) : Prop :=
  match cursorKey cursor with
  | Some k => key_lt k (key todo)
  | None => True
  end.

Lemma wf_empty : wf Store.empty.
Proof.
  split; simpl.
  - intros k todo H. rewrite lookup_empty in H. discriminate.
  - intros l k. rewrite lookup_empty. simpl. split.
    + intros H. inversion H.
    + intros (todo & H & _). rewrite lookup_empty in H. discriminate.
  - intros l ids H. rewrite lookup_empty in H. discriminate.
  - intros k todo H. rewrite lookup_empty in H. discriminate.
Qed.

Lemma elem_of_set_add x y s : x ∈ set_add y s <-> x = y \/ x ∈ s.
Proof.
  unfold set_add. destruct (decide (y ∈ s)) as [Hin|Hin].
  - split; [tauto|]. intros [->|H]; assumption.
  - rewrite elem_of_app, list_elem_of_singleton. tauto.
Qed.

Lemma NoDup_set_add y s : NoDup s -> NoDup (set_add y s).
Proof.
  intros Hs. unfold set_add. destruct (decide (y ∈ s)) as [Hin|Hin]; [exact Hs|].
  apply NoDup_app. split; [exact Hs|]. split.
  - intros x Hx Hx'. apply list_elem_of_singleton in Hx'. congruence.
  - apply NoDup_singleton.
Qed.

(** The create route stores a todo only under a fresh id, with a fresh
    timestamp. *)
Lemma wf_createTodo st todo :
  wf st -> todos st !! id todo = None -> updatedAt todo <> "" ->
  wf (createTodo st todo).1.
Proof.
  intros [Hid Hidx Hnd Hup] Hfresh Hne. split; simpl.
  - intros k t H. apply lookup_insert_Some in H as [[<- <-]|[_ H]]; eauto.
  - intros l k. destruct (decide (listId todo = l)) as [<-|Hl].
    + rewrite lookup_insert_eq. simpl. rewrite elem_of_set_add, Hidx. split.
      * intros [->|(t & Ht & Hl)].
        -- exists todo. split; [apply lookup_insert_eq|reflexivity].
        -- exists t. split; [|exact Hl].
           rewrite lookup_insert_ne; [exact Ht|]. congruence.
      * intros (t & Ht & Hl).
        apply lookup_insert_Some in Ht as [[<- <-]|[Hk Ht]]; [now left|].
        right. eauto.
    + rewrite lookup_insert_ne by exact Hl. rewrite Hidx. split.
      * intros (t & Ht & Ht'). exists t. split; [|exact Ht'].
        rewrite lookup_insert_ne; [exact Ht|]. congruence.
      * intros (t & Ht & Ht').
        apply lookup_insert_Some in Ht as [[<- <-]|[Hk Ht]]; [contradiction|].
        eauto.
  - intros l ids H. apply lookup_insert_Some in H as [[<- <-]|[_ H]]; [|eauto].
    apply NoDup_set_add.
    destruct (todosByList st !! listId todo) as [ids|] eqn:E; simpl; [eauto|].
    apply NoDup_nil_2.
  - intros k t H. apply lookup_insert_Some in H as [[<- <-]|[_ H]]; eauto.
Qed.

(** The update route swaps in a new state and a fresh timestamp. *)
Lemma wf_compareAndSwapTodo st todoId expectedVersion updates :
  wf st -> u_updatedAt updates <> Some "" ->
  wf (compareAndSwapTodo st todoId expectedVersion updates).1.
Proof.
  intros Hwf Hne. unfold compareAndSwapTodo.
  destruct (todos st !! todoId) as [todo|] eqn:Hget; [|exact Hwf].
  destruct (decide (version todo = expectedVersion)) as [Hv|Hv]; [|exact Hwf].
  destruct Hwf as [Hid Hidx Hnd Hup]. split; simpl.
  - intros k t H. apply lookup_insert_Some in H as [[<- <-]|[_ H]]; simpl; eauto.
  - intros l k. rewrite Hidx. split.
    + intros (t & Ht & Hl). destruct (decide (todoId = k)) as [<-|Hk].
      * eexists. split; [apply lookup_insert_eq|]. simpl. congruence.
      * exists t. split; [|exact Hl]. now rewrite lookup_insert_ne.
    + intros (t & Ht & Hl).
      apply lookup_insert_Some in Ht as [[<- <-]|[Hk Ht]]; simpl in *; eauto.
  - exact Hnd.
  - intros k t H. apply lookup_insert_Some in H as [[<- <-]|[_ H]]; [|eauto].
    simpl. destruct (u_updatedAt updates) as [s|]; simpl; [congruence|eauto].
Qed.

Lemma selectTodo_Some st cursor k todo :
  (forall k' t, todos st !! k' = Some t -> updatedAt t <> "") ->
  selectTodo st cursor k = Some todo <->
  todos st !! k = Some todo /\ afterCursor cursor todo.
Proof.
  intros Hup. unfold selectTodo, afterCursor, cursorKey.
  destruct (todos st !! k) as [t|] eqn:Hget; [|split; [discriminate|intros [? _]; discriminate]].
  specialize (Hup _ _ Hget).
  destruct cursor as [[[u|] tid]|].
  - destruct (JsString.truthy u) eqn:Htr.
    + destruct (isTodoAfterCursor t u (default "" tid)) eqn:Haft.
      * apply isTodoAfterCursor_key in Haft. split.
        -- intros [= <-]. split; [reflexivity|exact Haft].
        -- intros [[= <-] _]. reflexivity.
      * split; [discriminate|]. intros [[= <-] H].
        apply isTodoAfterCursor_key in H. congruence.
    + destruct u; [|discriminate]. split.
      * intros [= <-]. split; [reflexivity|]. left. simpl.
        apply JsString.empty_lt_truthy. now apply JsString.truthy_nonempty.
      * intros [[= <-] _]. reflexivity.
  - split; [intros [= <-]; split; [reflexivity|exact I] | intros [[= <-] _]; reflexivity].
  - split; [intros [= <-]; split; [reflexivity|exact I] | intros [[= <-] _]; reflexivity].
Qed.

Lemma assign_fields todo u :
  id (assign todo u) = id todo /\
  listId (assign todo u) = listId todo /\
  createdBy (assign todo u) = createdBy todo /\
  createdAt (assign todo u) = createdAt todo.
Proof. repeat split. Qed.

End StoreFacts.

(** C1: [compareAndSwapTodo] answers not-found when no todo is stored under
    the id; on a version mismatch it answers with a conflict that carries the
    stored todo and leaves the whole store as it was; on a match it stores and
    returns the todo with exactly the given fields replaced and version
    [expectedVersion + 1]. *)
Theorem compareAndSwapTodo_outcomes
    (st : Store.t) (todoId : string) (expectedVersion : Z)
    (updates : Store.TodoUpdates) :
  let '(st', r) := Store.compareAndSwapTodo st todoId expectedVersion updates in
  match Store.todos st !! todoId with
  | None => r = Store.NotFound /\ st' = st
  | Some todo =>
      if decide (version todo = expectedVersion) then
        exists todo',
          r = Store.Success todo' /\
          Store.todos st' !! todoId = Some todo' /\
          (forall k, k <> todoId -> Store.todos st' !! k = Store.todos st !! k) /\
          Store.todosByList st' = Store.todosByList st /\
          Store.lists st' = Store.lists st /\
          version todo' = expectedVersion + 1 /\
          title todo' = default (title todo) (Store.u_title updates) /\
          state todo' = default (state todo) (Store.u_state updates) /\
          updatedAt todo' = default (updatedAt todo) (Store.u_updatedAt updates) /\
          deletedAt todo' = default (deletedAt todo) (Store.u_deletedAt updates) /\
          id todo' = id todo /\ listId todo' = listId todo /\
          createdBy todo' = createdBy todo /\ createdAt todo' = createdAt todo
      else
        r = Store.Conflict todo /\ st' = st /\
        Store.todos st' !! todoId = Some todo /\
        version todo <> expectedVersion
  end.
Proof.
  unfold Store.compareAndSwapTodo.
  destruct (Store.todos st !! todoId) as [todo|] eqn:Hget; [|split; reflexivity].
  destruct (decide (version todo = expectedVersion)) as [Hv|Hv].
  - eexists. split; [reflexivity|]. simpl.
    split; [apply lookup_insert_eq|].
    split; [intros k Hk; apply lookup_insert_ne; congruence|].
    repeat split.
  - repeat split; assumption.
Qed.

(** ** The store: cursor-filtered listing *)

(** C3: on a store as the routes keep it, [getTodosForList] returns exactly
    the stored todos of the list whose key [(updatedAt, id)] strictly exceeds
    the cursor (every todo of the list without a cursor), each once, sorted
    ascending by [(updatedAt, id)]; a soft-deleted todo that qualifies is in
    the result like any other. *)
Theorem getTodosForList_after_cursor_sorted
    (st : Store.t) (l : string) (cursor : option Store.Cursor) :
  StoreFacts.wf st ->
  let r := Store.getTodosForList st l cursor in
  (forall todo,
      todo ∈ r <->
      Store.todos st !! id todo = Some todo /\ listId todo = l /\
      StoreFacts.afterCursor cursor todo) /\
  NoDup r /\
  StronglySorted StoreFacts.todo_le r /\
  (forall todo,
      is_Some (deletedAt todo) ->
      Store.todos st !! id todo = Some todo -> listId todo = l ->
      StoreFacts.afterCursor cursor todo -> todo ∈ r).
Proof.
  intros Hwf r.
  assert (Hmem : forall todo,
      todo ∈ r <->
      Store.todos st !! id todo = Some todo /\ listId todo = l /\
      StoreFacts.afterCursor cursor todo).
  { intros todo. subst r. unfold Store.getTodosForList.
    pose proof (StoreFacts.wf_index st Hwf l) as Hidx.
    destruct (Store.todosByList st !! l) as [ids|] eqn:E; simpl in Hidx.
    - rewrite StoreFacts.sort_by_perm, list_elem_of_omap. split.
      + intros (k & Hk & Hsel).
        apply StoreFacts.selectTodo_Some in Hsel as [Hget Haft];
          [|exact (StoreFacts.wf_updatedAt st Hwf)].
        pose proof (StoreFacts.wf_id st Hwf _ _ Hget) as Hid.
        apply Hidx in Hk as (t & Ht & Hl).
        rewrite Hid. split; [exact Hget|]. split; [congruence|exact Haft].
      + intros (Hget & Hl & Haft). exists (id todo). split.
        * apply Hidx. eauto.
        * apply StoreFacts.selectTodo_Some;
            [exact (StoreFacts.wf_updatedAt st Hwf)|]. tauto.
    - split; [intros H; inversion H|].
      intros (Hget & Hl & _).
      assert (H : id todo ∈ @nil string) by (apply Hidx; eauto).
      inversion H. }
  split; [exact Hmem|]. split; [|split].
  - subst r. unfold Store.getTodosForList.
    destruct (Store.todosByList st !! l) as [ids|] eqn:E; [|apply NoDup_nil_2].
    rewrite StoreFacts.sort_by_perm.
    pose proof (StoreFacts.wf_nodup st Hwf _ _ E) as Hnd.
    clear E Hmem. induction Hnd as [|k ids Hk Hnd IH]; simpl; [apply NoDup_nil_2|].
    destruct (Store.selectTodo st cursor k) as [t|] eqn:Hsel; [|exact IH].
    apply NoDup_cons. split; [|exact IH].
    intros Hin. apply list_elem_of_omap in Hin as (k' & Hk' & Hsel').
    apply StoreFacts.selectTodo_Some in Hsel as [Hget _];
      [|exact (StoreFacts.wf_updatedAt st Hwf)].
    apply StoreFacts.selectTodo_Some in Hsel' as [Hget' _];
      [|exact (StoreFacts.wf_updatedAt st Hwf)].
    apply (StoreFacts.wf_id st Hwf) in Hget, Hget'. congruence.
  - subst r. unfold Store.getTodosForList.
    destruct (Store.todosByList st !! l); [|constructor].
    apply StoreFacts.sort_by_compareTodos_sorted.
  - intros todo _ Hget Hl Haft. apply Hmem. tauto.
Qed.

(** *** The scenarios of [store.test.ts] *)

Module StoreExamples.
Import Store.

Definition t1 : string := "2025-01-01T00:00:00.000Z".
Definition t2 : string := "2025-01-01T00:00:00.001Z".

Definition todo (i : string) (u : string) (d : option string) : Todo :=
  {| id := i; listId := "list-1"; title := i; state := TODO;
     createdBy := "user-1"; createdAt := t1; updatedAt := u;
     version := 1; deletedAt := d |}.

(** Three todos created in the order b, a, c; c is soft-deleted. *)
Definition st0 : Store.t :=
  (createTodo (createTodo (createTodo Store.empty (todo "b" t1 None)).1
                 (todo "a" t1 None)).1 (todo "c" t2 (Some t2))).1.

Definition cursor_a : option Cursor :=
  Some {| c_updatedAt := Some t1; c_todoId := Some "a" |}.

Lemma wf_st0 : StoreFacts.wf st0.
Proof.
  unfold st0.
  repeat (apply StoreFacts.wf_createTodo;
          [| vm_compute; reflexivity | discriminate]).
  apply StoreFacts.wf_empty.
Qed.

Example sorts_by_updatedAt_then_id :
  map id (getTodosForList st0 "list-1" None) = ["a"; "b"; "c"].
Proof. vm_compute. reflexivity. Qed.

Example filters_by_cursor :
  map id (getTodosForList st0 "list-1" cursor_a) = ["b"; "c"].
Proof. vm_compute. reflexivity. Qed.

Example cursor_without_todoId :
  map id (getTodosForList st0 "list-1"
            (Some {| c_updatedAt := Some t1; c_todoId := None |}))
  = ["a"; "b"; "c"].
Proof. vm_compute. reflexivity. Qed.

Example cas_success :
  (compareAndSwapTodo st0 "a" 1
     {| u_title := None; u_state := Some ONGOING; u_updatedAt := Some t2;
        u_version := None; u_deletedAt := None |}).2
  = Success {| id := "a"; listId := "list-1"; title := "a"; state := ONGOING;
               createdBy := "user-1"; createdAt := t1; updatedAt := t2;
               version := 2; deletedAt := None |}.
Proof. vm_compute. reflexivity. Qed.

Example cas_conflict :
  compareAndSwapTodo st0 "a" 7
     {| u_title := None; u_state := Some ONGOING; u_updatedAt := Some t2;
        u_version := None; u_deletedAt := None |}
  = (st0, Conflict (todo "a" t1 None)).
Proof. vm_compute. reflexivity. Qed.

Example cas_not_found :
  compareAndSwapTodo st0 "nonexistent" 1
     {| u_title := None; u_state := Some ONGOING; u_updatedAt := Some t2;
        u_version := None; u_deletedAt := None |}
  = (st0, NotFound).
Proof. vm_compute. reflexivity. Qed.

End StoreExamples.

Lemma getTodosForList_after_cursor_sorted_witness :
  StoreFacts.wf StoreExamples.st0 /\
  let r := Store.getTodosForList StoreExamples.st0 "list-1"
             StoreExamples.cursor_a in
  (forall todo,
      todo ∈ r <->
      Store.todos StoreExamples.st0 !! id todo = Some todo /\
      listId todo = "list-1" /\
      StoreFacts.afterCursor StoreExamples.cursor_a todo) /\
  NoDup r /\
  StronglySorted StoreFacts.todo_le r /\
  (forall todo,
      is_Some (deletedAt todo) ->
      Store.todos StoreExamples.st0 !! id todo = Some todo ->
      listId todo = "list-1" ->
      StoreFacts.afterCursor StoreExamples.cursor_a todo -> todo ∈ r).
Proof.
  split; [exact StoreExamples.wf_st0|].
  exact (getTodosForList_after_cursor_sorted StoreExamples.st0 "list-1"
           StoreExamples.cursor_a StoreExamples.wf_st0).
Defined.

(** ** Timestamps *)

Module JsDateFacts.
Import JsDate.

(** *** Comparing strings that start with fields of equal width *)

Lemma compare_app_same a r r' :
  String.compare (a ++ r) (a ++ r') = String.compare r r'.
Proof.
  induction a as [|c a IH]; simpl; [reflexivity|].
  unfold Ascii.compare. rewrite N.compare_refl. exact IH.
Qed.

Lemma compare_app_diff a b r r' :
  String.length a = String.length b -> String.compare a b <> Eq ->
  String.compare (a ++ r) (b ++ r') = String.compare a b.
Proof.
  revert b. induction a as [|c a IH]; intros [|c' b] Hlen Hne; simpl in *;
    try discriminate; try congruence.
  destruct (Ascii.compare c c'); try reflexivity.
  apply IH; [congruence|exact Hne].
Qed.

Lemma length_app a b :
  String.length (a ++ b) = (String.length a + String.length b)%nat.
Proof. induction a as [|c a IH]; simpl; [reflexivity|]. now rewrite IH. Qed.

Lemma length_pad w n : String.length (pad w n) = w.
Proof.
  revert n. induction w as [|w IH]; intros n; simpl; [reflexivity|].
  rewrite length_app, IH. simpl. lia.
Qed.

Lemma N_of_digit n : N_of_ascii (digit n) = (48 + Z.to_N (n mod 10))%N.
Proof.
  unfold digit. apply N_ascii_embedding.
  pose proof (Z.mod_pos_bound n 10 ltac:(lia)). lia.
Qed.

(** On fields of the same width the order of the strings is the order of
    the numbers. *)
Lemma pad_compare w x y :
  0 <= x < 10 ^ Z.of_nat w -> 0 <= y < 10 ^ Z.of_nat w ->
  String.compare (pad w x) (pad w y) = Z.compare x y.
Proof.
  revert x y. induction w as [|w IH]; intros x y Hx Hy.
  - simpl in *. assert (x = 0) by lia. assert (y = 0) by lia. now subst.
  - rewrite Nat2Z.inj_succ, Z.pow_succ_r in Hx, Hy by lia.
    cbn [pad].
    assert (Hqx : 0 <= x / 10 < 10 ^ Z.of_nat w)
      by (split; [apply Z.div_pos; lia | apply Z.div_lt_upper_bound; lia]).
    assert (Hqy : 0 <= y / 10 < 10 ^ Z.of_nat w)
      by (split; [apply Z.div_pos; lia | apply Z.div_lt_upper_bound; lia]).
    pose proof (Z.div_mod x 10 ltac:(lia)) as Ex.
    pose proof (Z.div_mod y 10 ltac:(lia)) as Ey.
    pose proof (Z.mod_pos_bound x 10 ltac:(lia)) as Bx.
    pose proof (Z.mod_pos_bound y 10 ltac:(lia)) as By.
    destruct (Z.eq_dec (x / 10) (y / 10)) as [E|N].
    + rewrite E, compare_app_same. simpl. unfold Ascii.compare.
      rewrite !N_of_digit.
      destruct (N.compare_spec (48 + Z.to_N (x mod 10)) (48 + Z.to_N (y mod 10)));
        symmetry; [apply Z.compare_eq_iff|apply Z.compare_lt_iff|apply Z.compare_gt_iff];
        lia.
    + specialize (IH _ _ Hqx Hqy).
      rewrite compare_app_diff.
      * rewrite IH.
        destruct (Z.compare_spec (x / 10) (y / 10));
          symmetry; [lia|apply Z.compare_lt_iff|apply Z.compare_gt_iff]; lia.
      * now rewrite !length_pad.
      * rewrite IH. intros Hc. apply Z.compare_eq_iff in Hc. contradiction.
Qed.

(** A field, a separator, and the rest: the field decides, then the rest. *)
Lemma field_lt w x y sep r r' :
  0 <= x < 10 ^ Z.of_nat w -> 0 <= y < 10 ^ Z.of_nat w ->
  x < y \/ (x = y /\ JsString.lt r r') ->
  JsString.lt (pad w x ++ sep ++ r) (pad w y ++ sep ++ r').
Proof.
  intros Hx Hy [Hlt|[-> Hr]]; unfold JsString.lt.
  - rewrite compare_app_diff.
    + rewrite pad_compare by assumption. now apply Z.compare_lt_iff.
    + now rewrite !length_pad.
    + rewrite pad_compare by assumption. intros Hc.
      apply Z.compare_eq_iff in Hc. lia.
  - now rewrite !compare_app_same.
Qed.

(** *** Years *)

Lemma DayFromYear_mono y1 y2 : y1 <= y2 -> DayFromYear y1 <= DayFromYear y2.
Proof. unfold DayFromYear. intros H. Z.div_mod_to_equations. lia. Qed.

Lemma DaysInYear_range y : 365 <= DaysInYear y <= 366.
Proof. unfold DaysInYear, DayFromYear. Z.div_mod_to_equations. lia. Qed.

(** [YearFromDay] is the year ECMA-262 asks for: the one whose first day is
    the last first-day-of-a-year not after [d]. *)
Lemma YearFromDay_spec d :
  DayFromYear (YearFromDay d) <= d < DayFromYear (YearFromDay d + 1).
Proof.
  unfold YearFromDay.
  set (y := 1970 + 400 * d / 146097).
  destruct (Z.leb_spec (DayFromYear (y + 1)) d) as [H1|H1].
  - split; [exact H1|]. subst y. unfold DayFromYear in *.
    Z.div_mod_to_equations. lia.
  - destruct (Z.leb_spec (DayFromYear y) d) as [H2|H2].
    + split; assumption.
    + replace (y - 1 + 1) with y by lia. split; [|exact H2].
      subst y. unfold DayFromYear in *. Z.div_mod_to_equations. lia.
Qed.

Lemma YearFromDay_unique d y :
  DayFromYear y <= d < DayFromYear (y + 1) -> YearFromDay d = y.
Proof.
  intros Hy. pose proof (YearFromDay_spec d) as Hs.
  destruct (Z.lt_trichotomy (YearFromDay d) y) as [H|[H|H]]; [|exact H|].
  - pose proof (DayFromYear_mono (YearFromDay d + 1) y ltac:(lia)). lia.
  - pose proof (DayFromYear_mono (y + 1) (YearFromDay d) ltac:(lia)). lia.
Qed.

Lemma YearFromDay_mono d1 d2 : d1 <= d2 -> YearFromDay d1 <= YearFromDay d2.
Proof.
  intros H. pose proof (YearFromDay_spec d1). pose proof (YearFromDay_spec d2).
  destruct (Z.le_gt_cases (YearFromDay d1) (YearFromDay d2)) as [|Hgt]; [assumption|].
  pose proof (DayFromYear_mono (YearFromDay d2 + 1) (YearFromDay d1) ltac:(lia)).
  lia.
Qed.

(** *** Months and days *)

Lemma monthOfDay_range leap dy :
  0 <= leap <= 1 -> 0 <= dy < 365 + leap ->
  0 <= monthOfDay leap dy <= 11 /\
  1 <= dy - monthStart leap (monthOfDay leap dy) + 1 <= 31.
Proof.
  intros Hl Hd. unfold monthOfDay.
  repeat (match goal with
          | |- context [(?a <? ?b)%Z] => destruct (Z.ltb_spec a b)
          end; [cbn; lia|]).
  cbn; lia.
Qed.

Lemma monthOfDay_lex leap dy1 dy2 :
  0 <= leap <= 1 -> 0 <= dy1 -> dy1 < dy2 -> dy2 < 365 + leap ->
  monthOfDay leap dy1 < monthOfDay leap dy2 \/
  (monthOfDay leap dy1 = monthOfDay leap dy2 /\
   dy1 - monthStart leap (monthOfDay leap dy1)
   < dy2 - monthStart leap (monthOfDay leap dy2)).
Proof.
  intros Hl H0 H12 H2.
  pose proof (monthOfDay_range leap dy1 Hl ltac:(lia)) as [R1 D1].
  pose proof (monthOfDay_range leap dy2 Hl ltac:(lia)) as [R2 D2].
  destruct (Z.lt_trichotomy (monthOfDay leap dy1) (monthOfDay leap dy2))
    as [H|[H|H]]; [now left| right; split; [exact H|rewrite H; lia] |].
  exfalso. revert D1 D2 H. unfold monthOfDay.
  repeat (match goal with
          | |- context [(?a <? ?b)%Z] => destruct (Z.ltb_spec a b)
          end); cbn; lia.
Qed.

(** *** The fields of a time value *)

Record Fields : Type := mkFields {
  f_year : Z; f_month : Z; f_date : Z;
  f_hour : Z; f_min : Z; f_sec : Z; f_ms : Z
}.

Definition fields (t : Z) : Fields :=
  {| f_year := YearFromTime t; f_month := MonthFromTime t + 1;
     f_date := DateFromTime t; f_hour := HourFromTime t;
     f_min := MinFromTime t; f_sec := SecFromTime t; f_ms := msFromTime t |}.

Definition fields_in_range (f : Fields) : Prop :=
  1 <= f_month f <= 12 /\ 1 <= f_date f <= 31 /\ 0 <= f_hour f <= 23 /\
  0 <= f_min f <= 59 /\ 0 <= f_sec f <= 59 /\ 0 <= f_ms f <= 999.

Definition fields_lt (a b : Fields) : Prop :=
  f_year a < f_year b \/ (f_year a = f_year b /\
  (f_month a < f_month b \/ (f_month a = f_month b /\
  (f_date a < f_date b \/ (f_date a = f_date b /\
  (f_hour a < f_hour b \/ (f_hour a = f_hour b /\
  (f_min a < f_min b \/ (f_min a = f_min b /\
  (f_sec a < f_sec b \/ (f_sec a = f_sec b /\ f_ms a < f_ms b))))))))))).

Lemma DayWithinYear_range t :
  0 <= InLeapYear t <= 1 /\ 0 <= DayWithinYear t < 365 + InLeapYear t.
Proof.
  unfold InLeapYear, DayWithinYear, YearFromTime.
  pose proof (DaysInYear_range (YearFromDay (Day t))) as Hr.
  pose proof (YearFromDay_spec (Day t)) as Hs.
  unfold DaysInYear in *. lia.
Qed.

Lemma fields_range t : fields_in_range (fields t).
Proof.
  destruct (DayWithinYear_range t) as [Hl Hd].
  pose proof (monthOfDay_range _ _ Hl Hd) as [Hm Hdate].
  unfold fields_in_range, fields. cbn.
  unfold MonthFromTime, DateFromTime, MonthFromTime.
  repeat split; try lia;
    unfold HourFromTime, MinFromTime, SecFromTime, msFromTime, msPerSecond;
    Z.div_mod_to_equations; lia.
Qed.

Lemma time_lex t1 t2 :
  t1 < t2 -> Day t1 = Day t2 ->
  HourFromTime t1 < HourFromTime t2 \/ (HourFromTime t1 = HourFromTime t2 /\
  (MinFromTime t1 < MinFromTime t2 \/ (MinFromTime t1 = MinFromTime t2 /\
  (SecFromTime t1 < SecFromTime t2 \/ (SecFromTime t1 = SecFromTime t2 /\
   msFromTime t1 < msFromTime t2))))).
Proof.
  unfold Day, HourFromTime, MinFromTime, SecFromTime, msFromTime,
    msPerDay, msPerHour, msPerMinute, msPerSecond.
  intros Hlt Hday. Z.div_mod_to_equations. lia.
Qed.

Lemma fields_lex t1 t2 : t1 < t2 -> fields_lt (fields t1) (fields t2).
Proof.
  intros Hlt. unfold fields_lt, fields. cbn.
  assert (Hd : Day t1 <= Day t2)
    by (unfold Day, msPerDay; Z.div_mod_to_equations; lia).
  destruct (Z.eq_dec (Day t1) (Day t2)) as [E|N].
  - pose proof (time_lex t1 t2 Hlt E) as Ht.
    unfold YearFromTime, MonthFromTime, DateFromTime, MonthFromTime,
      InLeapYear, DayWithinYear, YearFromTime. rewrite E.
    right. split; [reflexivity|]. right. split; [reflexivity|].
    right. split; [reflexivity|]. exact Ht.
  - pose proof (YearFromDay_mono _ _ Hd) as Hy.
    destruct (Z.eq_dec (YearFromDay (Day t1)) (YearFromDay (Day t2))) as [Ey|Ny];
      [|left; unfold YearFromTime; lia].
    right. split; [exact Ey|].
    destruct (DayWithinYear_range t1) as [Hl1 Hd1].
    destruct (DayWithinYear_range t2) as [Hl2 Hd2].
    assert (El : InLeapYear t1 = InLeapYear t2)
      by (unfold InLeapYear, YearFromTime; now rewrite Ey).
    assert (Hdy : DayWithinYear t1 < DayWithinYear t2)
      by (unfold DayWithinYear, YearFromTime; rewrite Ey; lia).
    unfold MonthFromTime, DateFromTime, MonthFromTime. rewrite El in *.
    destruct (monthOfDay_lex (InLeapYear t2) _ _ Hl2 (proj1 Hd1) Hdy (proj2 Hd2))
      as [Hm|[Em Hm]].
    + left. lia.
    + right. split; [lia|]. left. lia.
Qed.

(** *** The ISO string *)

Definition isoOfFields (f : Fields) : string :=
  (pad 4 (f_year f) ++ "-" ++ pad 2 (f_month f) ++ "-" ++ pad 2 (f_date f)
   ++ "T" ++ pad 2 (f_hour f) ++ ":" ++ pad 2 (f_min f) ++ ":"
   ++ pad 2 (f_sec f) ++ "." ++ pad 3 (f_ms f) ++ "Z")%string.

Lemma isoOfFields_lt a b :
  0 <= f_year a <= 9999 -> 0 <= f_year b <= 9999 ->
  fields_in_range a -> fields_in_range b -> fields_lt a b ->
  JsString.lt (isoOfFields a) (isoOfFields b).
Proof.
  intros Hya Hyb Ra Rb Hlt. unfold fields_in_range in *. unfold isoOfFields.
  change 10000 with (10 ^ Z.of_nat 4) in *.
  destruct Hlt as [H|[E1 Hlt]]; (apply field_lt; [simpl; lia|simpl; lia|]);
    [now left|right; split; [exact E1|]].
  destruct Hlt as [H|[E2 Hlt]]; (apply field_lt; [simpl; lia|simpl; lia|]);
    [now left|right; split; [exact E2|]].
  destruct Hlt as [H|[E3 Hlt]]; (apply field_lt; [simpl; lia|simpl; lia|]);
    [now left|right; split; [exact E3|]].
  destruct Hlt as [H|[E4 Hlt]]; (apply field_lt; [simpl; lia|simpl; lia|]);
    [now left|right; split; [exact E4|]].
  destruct Hlt as [H|[E5 Hlt]]; (apply field_lt; [simpl; lia|simpl; lia|]);
    [now left|right; split; [exact E5|]].
  destruct Hlt as [H|[E6 Hlt]]; (apply field_lt; [simpl; lia|simpl; lia|]);
    [now left|right; split; [exact E6|]].
  unfold JsString.lt. rewrite compare_app_diff.
  - rewrite pad_compare by (simpl; lia). now apply Z.compare_lt_iff.
  - now rewrite !length_pad.
  - rewrite pad_compare by (simpl; lia). intros Hc.
    apply Z.compare_eq_iff in Hc. lia.
Qed.

Definition minFourDigitYearTime : Z := -62167219200000.

Lemma YearFromTime_four_digits t :
  minFourDigitYearTime <= t <= maxFourDigitYearTime ->
  0 <= YearFromTime t <= 9999.
Proof.
  unfold minFourDigitYearTime, maxFourDigitYearTime. intros Ht.
  unfold YearFromTime. pose proof (YearFromDay_spec (Day t)) as Hs.
  assert (Hd : -719528 <= Day t <= 2932896)
    by (unfold Day, msPerDay; Z.div_mod_to_equations; lia).
  split.
  - destruct (Z.le_gt_cases 0 (YearFromDay (Day t))) as [|Hneg]; [assumption|].
    pose proof (DayFromYear_mono (YearFromDay (Day t) + 1) 0 ltac:(lia)) as Hm.
    change (DayFromYear 0) with (-719528) in Hm. lia.
  - destruct (Z.le_gt_cases (YearFromDay (Day t)) 9999) as [|Hbig]; [assumption|].
    pose proof (DayFromYear_mono 10000 (YearFromDay (Day t)) ltac:(lia)) as Hm.
    change (DayFromYear 10000) with 2932897 in Hm. lia.
Qed.

Lemma toISOString_four_digits t :
  minFourDigitYearTime <= t <= maxFourDigitYearTime ->
  toISOString t = Some (isoOfFields (fields t)).
Proof.
  intros Ht. pose proof (YearFromTime_four_digits t Ht) as Hy.
  unfold minFourDigitYearTime, maxFourDigitYearTime in Ht.
  unfold toISOString, maxTimeValue.
  destruct (Z.leb_spec (Z.abs t) 8640000000000000) as [_|Habs]; [|lia].
  unfold yearString.
  destruct (Z.leb_spec 0 (YearFromTime t)); [|lia].
  destruct (Z.leb_spec (YearFromTime t) 9999); [|lia].
  reflexivity.
Qed.

(** [toISOString] preserves the order of instants while the year has four
    digits: the later instant has the larger string. *)
Lemma toISOString_lt t1 t2 :
  minFourDigitYearTime <= t1 -> t1 < t2 -> t2 <= maxFourDigitYearTime ->
  exists s1 s2,
    toISOString t1 = Some s1 /\ toISOString t2 = Some s2 /\ JsString.lt s1 s2.
Proof.
  intros H1 H12 H2.
  assert (R1 : minFourDigitYearTime <= t1 <= maxFourDigitYearTime) by lia.
  assert (R2 : minFourDigitYearTime <= t2 <= maxFourDigitYearTime) by lia.
  exists (isoOfFields (fields t1)), (isoOfFields (fields t2)).
  split; [now apply toISOString_four_digits|].
  split; [now apply toISOString_four_digits|].
  apply isoOfFields_lt.
  - exact (YearFromTime_four_digits t1 R1).
  - exact (YearFromTime_four_digits t2 R2).
  - apply fields_range.
  - apply fields_range.
  - now apply fields_lex.
Qed.

End JsDateFacts.

Module TimeFacts.
Import Time.

(** Every call moves the counter strictly forward, whatever the clock reads. *)
Lemma counter_advances last nowMs : last < (getMonotonicISOString last nowMs).1.
Proof.
  unfold getMonotonicISOString. cbn.
  destruct (Z.leb_spec nowMs last); lia.
Qed.

Lemma calls_cons last nowMs clock :
  calls last (nowMs :: clock) =
  ((calls (getMonotonicISOString last nowMs).1 clock).1,
   (getMonotonicISOString last nowMs).2
     :: (calls (getMonotonicISOString last nowMs).1 clock).2).
Proof.
  cbn [calls]. destruct (getMonotonicISOString last nowMs) as [last' s]. cbn.
  destruct (calls last' clock) as [final rest]. reflexivity.
Qed.

Lemma calls_final_ge clock : forall last, last <= (calls last clock).1.
Proof.
  induction clock as [|nowMs clock IH]; intros last; [cbn; lia|].
  rewrite calls_cons. cbn [fst].
  pose proof (counter_advances last nowMs).
  specialize (IH (getMonotonicISOString last nowMs).1). lia.
Qed.

(** The strings returned from a state [last]: each is the ISO string of an
    instant after [last], and each is below all the later ones. *)
Lemma calls_sorted clock : forall last,
  JsDateFacts.minFourDigitYearTime <= last ->
  (calls last clock).1 <= JsDate.maxFourDigitYearTime ->
  exists stamps,
    (calls last clock).2 = map Some stamps /\
    StronglySorted JsString.lt stamps /\
    Forall (fun s => exists c, last < c <= JsDate.maxFourDigitYearTime /\
                               JsDate.toISOString c = Some s) stamps.
Proof.
  induction clock as [|nowMs clock IH]; intros last Hlo Hhi.
  - exists []. repeat split; constructor.
  - rewrite calls_cons in Hhi |- *. cbn [fst snd] in Hhi |- *.
    pose proof (counter_advances last nowMs) as Hadv.
    set (last' := (getMonotonicISOString last nowMs).1) in *.
    pose proof (calls_final_ge clock last') as Hge.
    destruct (IH last' ltac:(lia) Hhi) as (stamps & Hout & Hsorted & Hall).
    assert (Hiso : (getMonotonicISOString last nowMs).2 =
                   Some (JsDateFacts.isoOfFields (JsDateFacts.fields last'))).
    { unfold getMonotonicISOString. cbn [snd].
      apply JsDateFacts.toISOString_four_digits. subst last'.
      unfold getMonotonicISOString in *. cbn [fst] in *. lia. }
    exists (JsDateFacts.isoOfFields (JsDateFacts.fields last') :: stamps).
    split; [cbn [map]; now rewrite Hiso, Hout|]. split.
    + constructor; [exact Hsorted|].
      eapply Forall_impl; [exact Hall|]. cbn beta.
      intros s (c & Hc & Hs).
      destruct (JsDateFacts.toISOString_lt last' c ltac:(lia) ltac:(lia) ltac:(lia))
        as (s1 & s2 & E1 & E2 & Hlt).
      rewrite JsDateFacts.toISOString_four_digits in E1 by lia.
      congruence.
    + constructor.
      * exists last'. split; [lia|].
        apply JsDateFacts.toISOString_four_digits. lia.
      * eapply Forall_impl; [exact Hall|]. cbn beta.
        intros s (c & Hc & Hs). exists c. split; [lia|exact Hs].
Qed.

End TimeFacts.

(** C2: from the start of the process, the timestamps returned by any number
    of successive calls of [getMonotonicISOString] are strictly increasing
    strings, each one above every one returned before, whatever the clock
    does in between (standing still, going backwards).  The strings are
    compared the way the store compares them; the calls stay within the
    years written with four digits. *)
Theorem getMonotonicISOString_strictly_increasing (clock : list Z) :
  (Time.calls Time.initial clock).1 <= JsDate.maxFourDigitYearTime ->
  exists stamps,
    (Time.calls Time.initial clock).2 = map Some stamps /\
    StronglySorted JsString.lt stamps.
Proof.
  intros Hhi.
  destruct (TimeFacts.calls_sorted clock Time.initial) as (stamps & Hout & Hs & _).
  - unfold JsDateFacts.minFourDigitYearTime, Time.initial. lia.
  - exact Hhi.
  - exists stamps. split; assumption.
Qed.

(** Three calls while the clock stands still and then steps back a second. *)
Lemma getMonotonicISOString_strictly_increasing_witness :
  exists stamps,
    (Time.calls Time.initial [1735689600000; 1735689600000; 1735689599000]).2
    = map Some stamps /\
    StronglySorted JsString.lt stamps.
Proof.
  apply (getMonotonicISOString_strictly_increasing
           [1735689600000; 1735689600000; 1735689599000]).
  vm_compute. discriminate.
Defined.

Example same_millisecond_calls :
  (Time.calls Time.initial [1735689600000; 1735689600000; 1735689599000]).2
  = [Some "2025-01-01T00:00:00.000Z"; Some "2025-01-01T00:00:00.001Z";
     Some "2025-01-01T00:00:00.002Z"].
Proof. vm_compute. reflexivity. Qed.

(** Past year 9999 the year is written with a sign and six digits, and the
    order of the strings no longer follows the instants. *)
Example year_10000_string :
  JsDate.toISOString (JsDate.maxFourDigitYearTime + 1)
  = Some "+010000-01-01T00:00:00.000Z".
Proof. vm_compute. reflexivity. Qed.

(** ** The merge algorithm *)

Module MergeFacts.
Import SyncState Merge.

Lemma getServerTodo_set_eq s todo :
  getServerTodo (setServerTodo s todo) (id todo) = Some todo.
Proof. apply JsMap.get_set_eq. Qed.

Lemma getServerTodo_set_ne s todo k :
  k <> id todo -> getServerTodo (setServerTodo s todo) k = getServerTodo s k.
Proof. intros H. apply JsMap.get_set_ne. congruence. Qed.

Lemma with_createdAt_same todo : with_createdAt todo (createdAt todo) = todo.
Proof. now destruct todo. Qed.

Lemma todoToStore_shape todo preserve :
  exists c, todoToStore todo preserve = with_createdAt todo c.
Proof.
  unfold todoToStore. destruct preserve as [c|].
  - destruct (JsString.truthy c && negb (bool_decide (createdAt todo = c))).
    + now exists c.
    + exists (createdAt todo). now rewrite with_createdAt_same.
  - exists (createdAt todo). now rewrite with_createdAt_same.
Qed.

Lemma todoToStore_preserved todo c :
  c <> "" -> todoToStore todo (Some c) = with_createdAt todo c.
Proof.
  intros Hc. unfold todoToStore.
  apply JsString.truthy_nonempty in Hc. rewrite Hc. cbn.
  destruct (bool_decide (createdAt todo = c)) eqn:E; cbn; [|reflexivity].
  apply bool_decide_eq_true in E. subst c. now rewrite with_createdAt_same.
Qed.

Section WithClock.
Variable parseDate : string -> option Z.

(** The incoming todo supersedes the cached copy: there is none, or the
    incoming version is strictly greater, or the versions tie and the
    incoming update time is not before the cached one. *)
Definition supersedes (incoming : Todo) (cached : option Todo) : Prop :=
  match cached with
  | None => True
  | Some c =>
      version c < version incoming \/
      (version incoming = version c /\
       exists x y, parseDate (updatedAt incoming) = Some x /\
                   parseDate (updatedAt c) = Some y /\ y <= x)
  end.

Lemma isNewerThan_supersedes incoming cached :
  isNewerThan parseDate incoming cached = true <-> supersedes incoming cached.
Proof.
  unfold isNewerThan, supersedes. destruct cached as [c|]; [|tauto].
  destruct (Z.ltb_spec (version c) (version incoming)) as [Hlt|Hge]; [tauto|].
  destruct (bool_decide (version incoming = version c)) eqn:E.
  - apply bool_decide_eq_true in E. unfold dateGe.
    destruct (parseDate (updatedAt incoming)) as [x|],
             (parseDate (updatedAt c)) as [y|].
    + rewrite Z.leb_le. split.
      * intros H. right. split; [exact E|]. exists x, y. auto.
      * intros [H|(_ & x' & y' & Hx & Hy & Hle)]; [lia|]. congruence.
    + split; [discriminate|].
      intros [H|(_ & x' & y' & Hx & Hy & Hle)]; [lia|discriminate].
    + split; [discriminate|].
      intros [H|(_ & x' & y' & Hx & Hy & Hle)]; [lia|discriminate].
    + split; [discriminate|].
      intros [H|(_ & x' & y' & Hx & Hy & Hle)]; [lia|discriminate].
  - apply bool_decide_eq_false in E. split; [discriminate|].
    intros [H|[H _]]; [lia|contradiction].
Qed.

Lemma supersedes_with_createdAt incoming c cached :
  supersedes (with_createdAt incoming c) cached <-> supersedes incoming cached.
Proof. destruct cached; reflexivity. Qed.

(** What one round of the merge loop leaves under the incoming id. *)
Lemma mergeIncoming_cases optimistic s incoming :
  let s' := mergeIncoming parseDate optimistic s incoming in
  let preserve :=
    match getServerTodo s (id incoming) with
    | Some e => Some (createdAt e)
    | None => JsMap.get optimistic (id incoming)
    end in
  (supersedes incoming (getServerTodo s (id incoming)) /\
   s' = setServerTodo s (todoToStore incoming preserve)) \/
  (~ supersedes incoming (getServerTodo s (id incoming)) /\ s' = s).
Proof.
  cbn zeta. unfold mergeIncoming, updateServerStateEntry.
  set (preserve := match getServerTodo s (id incoming) with
                   | Some e => Some (createdAt e)
                   | None => JsMap.get optimistic (id incoming)
                   end).
  destruct (todoToStore_shape incoming preserve) as [c Hc].
  rewrite Hc. change (id (with_createdAt incoming c)) with (id incoming).
  destruct (isNewerThan parseDate (with_createdAt incoming c)
              (getServerTodo s (id incoming))) eqn:E.
  - left. split; [|reflexivity].
    apply isNewerThan_supersedes in E. now apply supersedes_with_createdAt in E.
  - right. split; [|reflexivity]. intros H.
    apply (supersedes_with_createdAt incoming c) in H.
    apply isNewerThan_supersedes in H. congruence.
Qed.

Lemma mergeIncoming_other optimistic s incoming k :
  k <> id incoming ->
  getServerTodo (mergeIncoming parseDate optimistic s incoming) k
  = getServerTodo s k.
Proof.
  intros Hk.
  destruct (mergeIncoming_cases optimistic s incoming) as [[_ ->]|[_ ->]];
    [|reflexivity].
  apply getServerTodo_set_ne.
  destruct (todoToStore_shape incoming
              match getServerTodo s (id incoming) with
              | Some e => Some (createdAt e)
              | None => JsMap.get optimistic (id incoming)
              end) as [c ->].
  exact Hk.
Qed.

Lemma mergeIncoming_pending optimistic s incoming :
  pendingMutations (mergeIncoming parseDate optimistic s incoming)
  = pendingMutations s /\
  runGeneration (mergeIncoming parseDate optimistic s incoming)
  = runGeneration s.
Proof.
  destruct (mergeIncoming_cases optimistic s incoming) as [[_ ->]|[_ ->]];
    split; reflexivity.
Qed.

(** *** The creation time of optimistic todos *)

Lemma optimistic_fold_get (local : list Todo) i c : forall m : JsMap.t string,
  (forall o, o ∈ local -> version o = 0 -> id o = i -> createdAt o = c) ->
  (exists o, o ∈ local /\ version o = 0 /\ id o = i) \/ JsMap.get m i = Some c ->
  JsMap.get
    (fold_left
       (fun m todo =>
          if isOptimisticTodo todo
          then JsMap.set m (id todo) (createdAt todo) else m)
       local m) i = Some c.
Proof.
  induction local as [|o local IH]; intros m Hall Hex; cbn [fold_left].
  - destruct Hex as [(o & Ho & _)|H]; [inversion Ho|exact H].
  - apply IH.
    + intros o' Ho'. apply Hall. now right.
    + unfold isOptimisticTodo.
      destruct (bool_decide (version o = 0)) eqn:Ev.
      * apply bool_decide_eq_true in Ev.
        destruct (decide (id o = i)) as [Ei|Ni].
        -- right. rewrite Ei, JsMap.get_set_eq. f_equal.
           apply Hall; [now left|exact Ev|exact Ei].
        -- rewrite JsMap.get_set_ne by exact Ni.
           destruct Hex as [(o' & Ho' & Hv & Hi)|H]; [|now right].
           apply elem_of_cons in Ho' as [->|Ho']; [contradiction|].
           left. eauto.
      * apply bool_decide_eq_false in Ev.
        destruct Hex as [(o' & Ho' & Hv & Hi)|H]; [|now right].
        apply elem_of_cons in Ho' as [->|Ho']; [contradiction|].
        left. eauto.
Qed.

Lemma optimisticCreatedAtById_get (local : list Todo) o :
  o ∈ local -> version o = 0 ->
  (forall o', o' ∈ local -> version o' = 0 -> id o' = id o ->
              createdAt o' = createdAt o) ->
  JsMap.get (optimisticCreatedAtById local) (id o) = Some (createdAt o).
Proof.
  intros Ho Hv Hall. unfold optimisticCreatedAtById.
  apply optimistic_fold_get; [exact Hall|]. left. eauto.
Qed.

(** While the merge loop runs, the cache holds nothing under the id of the
    optimistic todo, or an incoming todo carrying the local creation time. *)
Definition confirmed_with (all : list Todo) (i c : string) (s : SyncState.t)
  : Prop :=
  exists t, t ∈ all /\ id t = i /\
            getServerTodo s i = Some (with_createdAt t c).

Lemma mergeIncoming_keeps_createdAt optimistic all i c s t :
  c <> "" -> JsMap.get optimistic i = Some c -> t ∈ all ->
  getServerTodo s i = None \/ confirmed_with all i c s ->
  let s' := mergeIncoming parseDate optimistic s t in
  (getServerTodo s' i = None /\ id t <> i /\ getServerTodo s i = None) \/
  confirmed_with all i c s'.
Proof.
  intros Hc Hopt Ht Hinv s'. subst s'.
  destruct (decide (id t = i)) as [Ei|Ni].
  - right. subst i.
    destruct (mergeIncoming_cases optimistic s t) as [[Hsup ->]|[Hn ->]].
    + exists t. split; [exact Ht|]. split; [reflexivity|].
      assert (Hp : match getServerTodo s (id t) with
                   | Some e => Some (createdAt e)
                   | None => JsMap.get optimistic (id t)
                   end = Some c).
      { destruct Hinv as [->|(t0 & _ & _ & ->)]; [exact Hopt|reflexivity]. }
      rewrite Hp, todoToStore_preserved by exact Hc.
      apply (getServerTodo_set_eq s (with_createdAt t c)).
    + destruct Hinv as [Hnone|Hconf]; [|exact Hconf].
      rewrite Hnone in Hn. exfalso. apply Hn. exact I.
  - rewrite mergeIncoming_other by congruence.
    destruct Hinv as [Hnone|(t0 & Ht0 & Hi & Hget)].
    + left. auto.
    + right. exists t0. rewrite mergeIncoming_other by congruence. auto.
Qed.

Lemma merge_loop_keeps_createdAt optimistic all i c :
  c <> "" -> JsMap.get optimistic i = Some c ->
  forall incoming s,
    (forall t, t ∈ incoming -> t ∈ all) ->
    getServerTodo s i = None \/ confirmed_with all i c s ->
    let s' := fold_left (mergeIncoming parseDate optimistic) incoming s in
    (getServerTodo s i = None /\ forall t, t ∈ incoming -> id t <> i) \/
    confirmed_with all i c s'.
Proof.
  intros Hc Hopt incoming.
  induction incoming as [|t incoming IH]; intros s Hsub Hinv; cbn [fold_left].
  - destruct Hinv as [H|H]; [left|now right].
    split; [exact H|]. intros t Ht. inversion Ht.
  - assert (Ht : t ∈ all) by (apply Hsub; now left).
    assert (Hsub' : forall t', t' ∈ incoming -> t' ∈ all)
      by (intros t' Ht'; apply Hsub; now right).
    destruct (mergeIncoming_keeps_createdAt optimistic all i c s t Hc Hopt Ht Hinv)
      as [(Hnone & Hid & Hs)|Hconf].
    + destruct (IH _ Hsub' (or_introl Hnone)) as [[_ Hall]|Hconf]; [|now right].
      left. split; [exact Hs|]. intros t' Ht'.
      apply elem_of_cons in Ht' as [->|Ht']; auto.
    + destruct (IH _ Hsub' (or_intror Hconf)) as [[Hn _]|Hconf']; [|now right].
      destruct Hconf as (t0 & _ & _ & Hget). congruence.
Qed.

End WithClock.
End MergeFacts.

(** C5: in the merge loop an incoming todo replaces the cached copy exactly
    when there is no cached copy under its id, or its version is strictly
    greater, or the versions are equal and its update time is not before the
    cached one; otherwise it is dropped and the state is left as it was.  The
    copy that goes into the cache is the incoming todo, up to its creation
    time; no other id is touched. *)
Theorem mergeIncoming_newer_wins
    (parseDate : string -> option Z) (optimistic : JsMap.t string)
    (s : SyncState.t) (incoming : Todo) :
  let s' := Merge.mergeIncoming parseDate optimistic s incoming in
  let cached := SyncState.getServerTodo s (id incoming) in
  (MergeFacts.supersedes parseDate incoming cached ->
   exists c, SyncState.getServerTodo s' (id incoming)
             = Some (Merge.with_createdAt incoming c)) /\
  (~ MergeFacts.supersedes parseDate incoming cached -> s' = s) /\
  (forall k, k <> id incoming ->
             SyncState.getServerTodo s' k = SyncState.getServerTodo s k).
Proof.
  intros s' cached. subst s' cached. split; [|split].
  - intros Hsup.
    destruct (MergeFacts.mergeIncoming_cases parseDate optimistic s incoming)
      as [[_ ->]|[Hn _]]; [|contradiction].
    match goal with
    | |- context [Merge.todoToStore incoming ?p] =>
        destruct (MergeFacts.todoToStore_shape incoming p) as [c ->]
    end.
    exists c. apply (MergeFacts.getServerTodo_set_eq s (Merge.with_createdAt incoming c)).
  - intros Hn.
    destruct (MergeFacts.mergeIncoming_cases parseDate optimistic s incoming)
      as [[Hsup _]|[_ ->]]; [contradiction|reflexivity].
  - intros k Hk. now apply MergeFacts.mergeIncoming_other.
Qed.

(** C6: a todo created locally (version 0, not yet in the cache) and then
    confirmed by an incoming todo with its id: after the merge the cache holds
    an incoming todo under that id whose creation time is the local one, not
    the one echoed by the server; every other field is the incoming one. *)
Theorem mergeTodos_keeps_local_createdAt
    (parseDate : string -> option Z) (s : SyncState.t)
    (local incoming : list Todo) (o : Todo) :
  o ∈ local -> version o = 0 ->
  (forall o', o' ∈ local -> version o' = 0 -> id o' = id o ->
              createdAt o' = createdAt o) ->
  createdAt o <> "" ->
  SyncState.getServerTodo s (id o) = None ->
  (exists t, t ∈ incoming /\ id t = id o) ->
  exists t stored,
    t ∈ incoming /\
    SyncState.getServerTodo (Merge.mergeTodos parseDate s local incoming).1 (id o)
    = Some stored /\
    createdAt stored = createdAt o /\
    id stored = id t /\ id t = id o /\ listId stored = listId t /\
    title stored = title t /\ state stored = state t /\
    createdBy stored = createdBy t /\ updatedAt stored = updatedAt t /\
    version stored = version t /\ deletedAt stored = deletedAt t.
Proof.
  intros Ho Hv Hall Hc Hnone (t0 & Ht0 & Hid0).
  pose proof (MergeFacts.optimisticCreatedAtById_get local o Ho Hv Hall) as Hopt.
  destruct (MergeFacts.merge_loop_keeps_createdAt parseDate
              (Merge.optimisticCreatedAtById local) incoming (id o) (createdAt o)
              Hc Hopt incoming s (fun _ H => H) (or_introl Hnone))
    as [[_ Hno]|(t & Ht & Hi & Hget)].
  - exfalso. exact (Hno t0 Ht0 Hid0).
  - exists t, (Merge.with_createdAt t (createdAt o)).
    split; [exact Ht|]. split; [exact Hget|]. cbn. repeat split. exact Hi.
Qed.

(** *** The scenarios of [merge.test.ts] *)

Module MergeExamples.
Import SyncState Merge.

Definition createTodo (i : string) (v : Z) (ttl : string) (st : TodoState)
    (created updated : string) : Todo :=
  {| id := i; listId := "list-1"; title := ttl; state := st;
     createdBy := "user-1"; createdAt := created; updatedAt := updated;
     version := v; deletedAt := None |}.

Definition jan1 : string := "2024-01-01T00:00:00.000Z".
Definition jan1_1s : string := "2024-01-01T00:00:01.000Z".
Definition jan1_1h : string := "2024-01-01T01:00:00.000Z".

Definition optimistic : Todo := createTodo "todo-1" 0 "Test todo" TODO jan1 jan1.
Definition confirmed : Todo := createTodo "todo-1" 1 "Test todo" TODO jan1_1s jan1.

Definition merge := mergeTodos JsDate.parseISO.

Example preserves_optimistic_createdAt :
  getServerTodo (merge SyncState.initial [optimistic] [confirmed]).1 "todo-1"
  = Some (createTodo "todo-1" 1 "Test todo" TODO jan1 jan1).
Proof. vm_compute. reflexivity. Qed.

Example removes_optimistic_when_confirmed :
  (merge SyncState.initial [optimistic] [confirmed]).2
  = [createTodo "todo-1" 1 "Test todo" TODO jan1 jan1].
Proof. vm_compute. reflexivity. Qed.

Definition cached (t : Todo) : SyncState.t := setServerTodo SyncState.initial t.

Example newer_version_wins :
  getServerTodo
    (merge (cached (createTodo "todo-1" 1 "Old" TODO jan1 jan1)) []
       [createTodo "todo-1" 2 "New" TODO jan1 jan1]).1 "todo-1"
  = Some (createTodo "todo-1" 2 "New" TODO jan1 jan1).
Proof. vm_compute. reflexivity. Qed.

Example older_version_does_not_overwrite :
  getServerTodo
    (merge (cached (createTodo "todo-1" 2 "New" TODO jan1 jan1)) []
       [createTodo "todo-1" 1 "Old" TODO jan1 jan1]).1 "todo-1"
  = Some (createTodo "todo-1" 2 "New" TODO jan1 jan1).
Proof. vm_compute. reflexivity. Qed.

Example same_version_later_update_wins :
  getServerTodo
    (merge (cached (createTodo "todo-1" 1 "Earlier" TODO jan1 jan1)) []
       [createTodo "todo-1" 1 "Later" TODO jan1 jan1_1h]).1 "todo-1"
  = Some (createTodo "todo-1" 1 "Later" TODO jan1 jan1_1h).
Proof. vm_compute. reflexivity. Qed.

Example same_version_earlier_update_is_dropped :
  getServerTodo
    (merge (cached (createTodo "todo-1" 1 "Later" TODO jan1 jan1_1h)) []
       [createTodo "todo-1" 1 "Earlier" TODO jan1 jan1]).1 "todo-1"
  = Some (createTodo "todo-1" 1 "Later" TODO jan1 jan1_1h).
Proof. vm_compute. reflexivity. Qed.

Example sorts_by_createdAt :
  map id (merge SyncState.initial []
            [createTodo "todo-1" 1 "" TODO "2024-01-03T00:00:00.000Z" jan1;
             createTodo "todo-2" 1 "" TODO "2024-01-01T00:00:00.000Z" jan1;
             createTodo "todo-3" 1 "" TODO "2024-01-02T00:00:00.000Z" jan1]).2
  = ["todo-2"; "todo-3"; "todo-1"].
Proof. vm_compute. reflexivity. Qed.

End MergeExamples.

Lemma mergeTodos_keeps_local_createdAt_witness :
  exists t stored,
    t ∈ [MergeExamples.confirmed] /\
    SyncState.getServerTodo
      (Merge.mergeTodos JsDate.parseISO SyncState.initial
         [MergeExamples.optimistic] [MergeExamples.confirmed]).1
      (id MergeExamples.optimistic)
    = Some stored /\
    createdAt stored = createdAt MergeExamples.optimistic /\
    id stored = id t /\ id t = id MergeExamples.optimistic /\
    listId stored = listId t /\
    title stored = title t /\ state stored = state t /\
    createdBy stored = createdBy t /\ updatedAt stored = updatedAt t /\
    version stored = version t /\ deletedAt stored = deletedAt t.
Proof.
  apply (mergeTodos_keeps_local_createdAt JsDate.parseISO SyncState.initial
           [MergeExamples.optimistic] [MergeExamples.confirmed]
           MergeExamples.optimistic).
  - constructor.
  - reflexivity.
  - intros o' Ho' _ _. apply list_elem_of_singleton in Ho'. now subst.
  - discriminate.
  - reflexivity.
  - exists MergeExamples.confirmed. split; [constructor|reflexivity].
Defined.

(** ** The sync token *)

Module Base64Facts.
Import CodeUnit Base64.

(** Reading back a character of the alphabet gives its group, and no
    character of the alphabet is the padding character. *)
Lemma sextet_of_char_of_sextet n :
  0 <= n < 64 ->
  sextet_of_char (char_of_sextet n) = Some n /\
  (code (char_of_sextet n) =? 61)%Z = false.
Proof.
  intros Hn. unfold char_of_sextet.
  destruct (Z.ltb_spec n 26); [|destruct (Z.ltb_spec n 52);
    [|destruct (Z.ltb_spec n 62); [|destruct (Z.eqb_spec n 62)]]].
  - unfold sextet_of_char. rewrite code_unit_of by lia.
    replace ((65 <=? 65 + n)%Z && (65 + n <=? 90)%Z) with true
      by (symmetry; apply andb_true_iff; split; apply Z.leb_le; lia).
    split; [f_equal; lia|apply Z.eqb_neq; lia].
  - unfold sextet_of_char. rewrite code_unit_of by lia.
    replace ((65 <=? 71 + n)%Z && (71 + n <=? 90)%Z) with false
      by (symmetry; apply andb_false_iff; right; apply Z.leb_gt; lia).
    replace ((97 <=? 71 + n)%Z && (71 + n <=? 122)%Z) with true
      by (symmetry; apply andb_true_iff; split; apply Z.leb_le; lia).
    split; [f_equal; lia|apply Z.eqb_neq; lia].
  - unfold sextet_of_char. rewrite code_unit_of by lia.
    replace ((65 <=? n - 4)%Z && (n - 4 <=? 90)%Z) with false
      by (symmetry; apply andb_false_iff; left; apply Z.leb_gt; lia).
    replace ((97 <=? n - 4)%Z && (n - 4 <=? 122)%Z) with false
      by (symmetry; apply andb_false_iff; left; apply Z.leb_gt; lia).
    replace ((48 <=? n - 4)%Z && (n - 4 <=? 57)%Z) with true
      by (symmetry; apply andb_true_iff; split; apply Z.leb_le; lia).
    split; [f_equal; lia|apply Z.eqb_neq; lia].
  - subst n. split; reflexivity.
  - assert (n = 63) by lia. subst n. split; reflexivity.
Qed.

Lemma sextets_char n cs :
  0 <= n < 64 -> sextets (char_of_sextet n :: cs) = n :: sextets cs.
Proof.
  intros Hn. destruct (sextet_of_char_of_sextet n Hn) as [Hs Hp].
  cbn [sextets]. now rewrite Hp, Hs.
Qed.

(** Lists three elements at a time. *)
Lemma list_ind3 {A} (P : list A -> Prop) :
  P [] -> (forall a, P [a]) -> (forall a b, P [a; b]) ->
  (forall a b c rest, P rest -> P (a :: b :: c :: rest)) ->
  forall l, P l.
Proof.
  intros H0 H1 H2 H3.
  assert (H : forall l, P l /\ (forall a, P (a :: l)) /\ (forall a b, P (a :: b :: l))).
  { induction l as [|x l (IH0 & IH1 & IH2)]; [now repeat split|].
    split; [apply IH1|]. split; [intros a; apply IH2|]. intros a b. now apply H3. }
  intros l. apply H.
Qed.

Lemma decode_encode_bytes bs :
  bytes_of_sextets (sextets (encode_bytes bs)) = bs.
Proof.
  induction bs as [|a|a b|a b c rest IH] using list_ind3.
  - reflexivity.
  - pose proof (code_range a) as Ha. cbn [encode_bytes].
    rewrite !sextets_char by (Z.div_mod_to_equations; lia).
    cbn [sextets bytes_of_sextets]. change (code "=" =? 61)%Z with true. cbn iota.
    f_equal. rewrite <- (unit_of_code a) at 3. f_equal.
    Z.div_mod_to_equations; lia.
  - pose proof (code_range a) as Ha. pose proof (code_range b) as Hb.
    cbn [encode_bytes].
    rewrite !sextets_char by (Z.div_mod_to_equations; lia).
    cbn [sextets bytes_of_sextets]. change (code "=" =? 61)%Z with true. cbn iota.
    f_equal; [|f_equal].
    + rewrite <- (unit_of_code a) at 3. f_equal. Z.div_mod_to_equations; lia.
    + rewrite <- (unit_of_code b) at 3. f_equal. Z.div_mod_to_equations; lia.
  - pose proof (code_range a) as Ha. pose proof (code_range b) as Hb.
    pose proof (code_range c) as Hc. cbn [encode_bytes].
    rewrite !sextets_char by (Z.div_mod_to_equations; lia).
    cbn [bytes_of_sextets]. rewrite IH.
    f_equal; [|f_equal; [|f_equal]].
    + rewrite <- (unit_of_code a) at 3. f_equal. Z.div_mod_to_equations; lia.
    + rewrite <- (unit_of_code b) at 3. f_equal. Z.div_mod_to_equations; lia.
    + rewrite <- (unit_of_code c) at 3. f_equal. Z.div_mod_to_equations; lia.
Qed.

(** A text of characters below U+0080 is read character by character. *)
Lemma characters_ascii cs :
  Forall (fun c => code c < 128) cs -> map lowByte (codeUnits cs) = cs.
Proof.
  induction 1 as [|c cs Hc _ IH]; [reflexivity|].
  cbn [codeUnits]. cbv zeta.
  destruct (Z.ltb_spec (code c) 128) as [_|Hge]; [|lia].
  cbn [map]. rewrite IH. f_equal. unfold lowByte.
  pose proof (code_range c). rewrite Z.mod_small by lia. apply unit_of_code.
Qed.

Lemma char_of_sextet_ascii n : 0 <= n < 64 -> code (char_of_sextet n) < 128.
Proof.
  intros Hn. unfold char_of_sextet.
  destruct (Z.ltb_spec n 26); [rewrite code_unit_of; lia|].
  destruct (Z.ltb_spec n 52); [rewrite code_unit_of; lia|].
  destruct (Z.ltb_spec n 62); [rewrite code_unit_of; lia|].
  destruct (Z.eqb_spec n 62); vm_compute; reflexivity.
Qed.

(** What [Buffer] encodes is made of such characters. *)
Lemma encode_bytes_ascii bs : Forall (fun c => code c < 128) (encode_bytes bs).
Proof.
  induction bs as [|a|a b|a b c rest IH] using list_ind3; cbn [encode_bytes].
  - constructor.
  - pose proof (code_range a).
    repeat (constructor;
            [first [vm_compute; reflexivity
                   |apply char_of_sextet_ascii; Z.div_mod_to_equations; lia]|]).
    constructor.
  - pose proof (code_range a). pose proof (code_range b).
    repeat (constructor;
            [first [vm_compute; reflexivity
                   |apply char_of_sextet_ascii; Z.div_mod_to_equations; lia]|]).
    constructor.
  - pose proof (code_range a). pose proof (code_range b). pose proof (code_range c).
    repeat (constructor;
            [apply char_of_sextet_ascii; Z.div_mod_to_equations; lia|]).
    exact IH.
Qed.

(** Decoding what [Buffer] encoded gives the text back. *)
Lemma decode_encode text : decode (encode text) = text.
Proof.
  unfold decode, encode, characters.
  rewrite list_ascii_of_string_of_list_ascii.
  rewrite characters_ascii by apply encode_bytes_ascii.
  rewrite decode_encode_bytes.
  apply string_of_list_ascii_of_string.
Qed.

End Base64Facts.

Module JsonFacts.
Import CodeUnit Json.

Lemma hexValue_hexDigit d : 0 <= d < 16 -> hexValue (hexDigit d) = Some d.
Proof.
  intros Hd.
  assert (H : d = 0 \/ d = 1 \/ d = 2 \/ d = 3 \/ d = 4 \/ d = 5 \/ d = 6 \/
              d = 7 \/ d = 8 \/ d = 9 \/ d = 10 \/ d = 11 \/ d = 12 \/
              d = 13 \/ d = 14 \/ d = 15) by lia.
  repeat (destruct H as [->|H]; [reflexivity|]). subst d. reflexivity.
Qed.

(** The string parser reads an escaped unit back as the unit. *)
Lemma parse_chars_escapeUnit c cs s rest :
  parse_chars cs = Some (s, rest) ->
  parse_chars (escapeUnit c ++ cs) = Some (c :: s, rest).
Proof.
  intros Hcs. pose proof (code_range c) as Hc. unfold escapeUnit.
  destruct (Z.eqb_spec (code c) 34) as [E|N34].
  { rewrite <- (unit_of_code c), E. cbn. rewrite Hcs. reflexivity. }
  destruct (Z.eqb_spec (code c) 92) as [E|N92].
  { rewrite <- (unit_of_code c), E. cbn. rewrite Hcs. reflexivity. }
  destruct (Z.eqb_spec (code c) 8) as [E|N8].
  { rewrite <- (unit_of_code c), E. cbn. rewrite Hcs. reflexivity. }
  destruct (Z.eqb_spec (code c) 12) as [E|N12].
  { rewrite <- (unit_of_code c), E. cbn. rewrite Hcs. reflexivity. }
  destruct (Z.eqb_spec (code c) 10) as [E|N10].
  { rewrite <- (unit_of_code c), E. cbn. rewrite Hcs. reflexivity. }
  destruct (Z.eqb_spec (code c) 13) as [E|N13].
  { rewrite <- (unit_of_code c), E. cbn. rewrite Hcs. reflexivity. }
  destruct (Z.eqb_spec (code c) 9) as [E|N9].
  { rewrite <- (unit_of_code c), E. cbn. rewrite Hcs. reflexivity. }
  destruct (Z.ltb_spec (code c) 32) as [Hlt|Hge].
  - cbn [app parse_chars].
    change (code "\" =? 34)%Z with false. change (code "\" =? 92)%Z with true.
    cbn iota.
    change (code "u" =? 34)%Z with false. change (code "u" =? 92)%Z with false.
    change (code "u" =? 47)%Z with false. change (code "u" =? 98)%Z with false.
    change (code "u" =? 102)%Z with false. change (code "u" =? 110)%Z with false.
    change (code "u" =? 114)%Z with false. change (code "u" =? 116)%Z with false.
    change (code "u" =? 117)%Z with true. cbn iota.
    change (hexValue "0") with (Some 0). cbn [mbind option_bind].
    rewrite !hexValue_hexDigit by (Z.div_mod_to_equations; lia).
    cbn [mbind option_bind]. rewrite Hcs. cbn [mbind option_bind].
    replace (((0 * 16 + 0) * 16 + code c / 16) * 16 + code c mod 16)
      with (code c) by (Z.div_mod_to_equations; lia).
    unfold utf8. replace (code c <? 128)%Z with true
      by (symmetry; apply Z.ltb_lt; lia).
    cbn [app]. now rewrite unit_of_code.
  - cbn [app parse_chars].
    replace (code c =? 34)%Z with false by (symmetry; now apply Z.eqb_neq).
    replace (code c =? 92)%Z with false by (symmetry; now apply Z.eqb_neq).
    replace (code c <? 32)%Z with false by (symmetry; now apply Z.ltb_ge).
    rewrite Hcs. reflexivity.
Qed.

Lemma parse_chars_escape s rest :
  parse_chars (escape s ++ "034"%char :: rest) = Some (s, rest).
Proof.
  induction s as [|c s IH]; [reflexivity|].
  unfold escape in *. cbn [map concat]. rewrite <- app_assoc.
  now apply parse_chars_escapeUnit.
Qed.

(** A quoted string is read back as the string, whatever follows. *)
Lemma parse_chars_quote s rest :
  exists tail,
    quote s ++ rest = "034"%char :: tail /\
    parse_chars tail = Some (list_ascii_of_string s, rest).
Proof.
  exists (escape (list_ascii_of_string s) ++ "034"%char :: rest). split.
  - unfold quote. cbn [app]. now rewrite <- app_assoc.
  - apply parse_chars_escape.
Qed.

(** A string value is read back, given fuel for one call. *)
Lemma parse_value_string fuel s rest :
  parse_value (S fuel) (quote s ++ rest) = Some (JString s, rest).
Proof.
  destruct (parse_chars_quote s rest) as (tail & -> & Htail).
  cbn [parse_value skip_ws]. change (isSpace "034") with false. cbn iota.
  change (code "034" =? 123)%Z with false. change (code "034" =? 91)%Z with false.
  change (code "034" =? 34)%Z with true. cbn iota.
  rewrite Htail. cbn [mbind option_bind].
  now rewrite string_of_list_ascii_of_string.
Qed.

(** A member [name:string] followed by a closing brace or by a comma. *)
Lemma parse_member_string fuel k s rest :
  exists tail,
    quote k ++ ":"%char :: quote s ++ rest = "034"%char :: tail /\
    parse_chars tail = Some (list_ascii_of_string k, ":"%char :: quote s ++ rest) /\
    parse_value (S fuel) (quote s ++ rest) = Some (JString s, rest).
Proof.
  destruct (parse_chars_quote k (":"%char :: quote s ++ rest)) as (tail & E & H).
  exists tail. split; [exact E|]. split; [exact H|]. apply parse_value_string.
Qed.

(** *** Fuel

    Every parser returns less than it was given, so the recursive calls are
    on ever shorter texts and any fuel above the length of the text gives the
    same result: [None] from [parse] is a text that is not JSON, never a text
    that was too long. *)

Lemma skip_ws_length cs : (length (skip_ws cs) <= length cs)%nat.
Proof.
  induction cs as [|c cs IH]; cbn [skip_ws]; [lia|].
  destruct (isSpace c); cbn [length] in *; lia.
Qed.

Lemma parse_chars_length cs : forall s rest,
  parse_chars cs = Some (s, rest) -> (length rest < length cs)%nat.
Proof.
  induction cs as [cs IH] using (induction_ltof1 _ (@length ascii)).
  unfold ltof in IH. intros s rest H.
  destruct cs as [|c cs]; [discriminate|]. cbn [parse_chars] in H.
  destruct (code c =? 34)%Z; [injection H as <- <-; cbn; lia|].
  destruct (code c =? 92)%Z.
  - destruct cs as [|e r]; [discriminate|]. cbv zeta in H.
    assert (Hsimple : forall x,
      parse_chars r ≫= (fun '(s0, rest0) => Some (unit_of x :: s0, rest0))
      = Some (s, rest) -> (length rest < length (c :: e :: r))%nat).
    { intros x Hx. destruct (parse_chars r) as [[s0 rest0]|] eqn:E; [|discriminate].
      cbn in Hx. injection Hx as <- <-.
      specialize (IH r ltac:(cbn; lia) _ _ E). cbn. lia. }
    repeat (match type of H with
            | (if ?b then _ else _) = _ => destruct b; [exact (Hsimple _ H)|]
            end).
    destruct (code e =? 117)%Z; [|discriminate].
    destruct r as [|h1 [|h2 [|h3 [|h4 r']]]]; try discriminate.
    destruct (hexValue h1); [|discriminate]. destruct (hexValue h2); [|discriminate].
    destruct (hexValue h3); [|discriminate]. destruct (hexValue h4); [|discriminate].
    cbn [mbind option_bind] in H.
    destruct (parse_chars r') as [[s0 rest0]|] eqn:E; [|discriminate].
    cbn in H. injection H as <- <-.
    specialize (IH r' ltac:(cbn; lia) _ _ E). cbn. lia.
  - destruct (code c <? 32)%Z; [discriminate|].
    destruct (parse_chars cs) as [[s0 rest0]|] eqn:E; [|discriminate].
    cbn in H. injection H as <- <-.
    specialize (IH cs ltac:(cbn; lia) _ _ E). cbn. lia.
Qed.

Lemma digits_length cs : (length (digits cs).2 <= length cs)%nat.
Proof.
  induction cs as [|c cs IH]; cbn [digits]; [cbn; lia|].
  destruct (isDigit c); [|cbn; lia].
  destruct (digits cs) as [ds rest]. cbn in *. lia.
Qed.

Lemma parse_number_length cs n rest :
  parse_number cs = Some (n, rest) -> (length rest < length cs)%nat.
Proof.
  unfold parse_number. intros H.
  set (p1 := match cs with
             | c :: r => if (code c =? 45)%Z then ([c], r) else ([], cs)
             | [] => ([], cs)
             end) in H.
  assert (H1 : (length p1.2 <= length cs)%nat).
  { subst p1. destruct cs as [|c r]; [cbn; lia|].
    destruct (code c =? 45)%Z; cbn; lia. }
  destruct p1 as [sign cs1]. cbn [snd] in H1.
  set (o2 := match cs1 with
             | c :: r =>
                 if (code c =? 48)%Z then Some ([c], r)
                 else if isDigit c
                      then let '(ds, rest0) := digits r in Some (c :: ds, rest0)
                      else None
             | [] => None
             end) in H.
  assert (H2 : forall int cs2, o2 = Some (int, cs2) ->
                               (length cs2 < length cs1)%nat).
  { subst o2. intros int cs2 E. destruct cs1 as [|c r]; [discriminate|].
    destruct (code c =? 48)%Z; [injection E as <- <-; cbn; lia|].
    destruct (isDigit c); [|discriminate].
    pose proof (digits_length r) as Hd. destruct (digits r) as [ds rest0].
    injection E as <- <-. cbn in *. lia. }
  destruct o2 as [[int cs2]|]; [|discriminate]. specialize (H2 _ _ eq_refl).
  cbn [mbind option_bind] in H.
  set (o3 := match cs2 with
             | c :: r =>
                 if (code c =? 46)%Z
                 then match digits r with
                      | ([], _) => None
                      | (ds, rest0) => Some (c :: ds, rest0)
                      end
                 else Some ([], cs2)
             | [] => Some ([], cs2)
             end) in H.
  assert (H3 : forall frac cs3, o3 = Some (frac, cs3) ->
                                (length cs3 <= length cs2)%nat).
  { subst o3. intros frac cs3 E. destruct cs2 as [|c r]; [injection E as <- <-; lia|].
    destruct (code c =? 46)%Z; [|injection E as <- <-; lia].
    pose proof (digits_length r) as Hd. destruct (digits r) as [[|d ds] rest0];
      [discriminate|]. injection E as <- <-. cbn in *. lia. }
  destruct o3 as [[frac cs3]|]; [|discriminate]. specialize (H3 _ _ eq_refl).
  cbn [mbind option_bind] in H.
  match type of H with
  | ?o ≫= _ = _ => set (o4 := o) in H
  end.
  assert (H4 : forall e cs4, o4 = Some (e, cs4) -> (length cs4 <= length cs3)%nat).
  { subst o4. intros e cs4 E. destruct cs3 as [|c r]; [injection E as <- <-; lia|].
    destruct ((code c =? 101)%Z || (code c =? 69)%Z); [|injection E as <- <-; lia].
    set (p := match r with
              | s0 :: r' =>
                  if (code s0 =? 43)%Z || (code s0 =? 45)%Z then ([s0], r') else ([], r)
              | [] => ([], r)
              end) in E.
    assert (Hp : (length p.2 <= length r)%nat).
    { subst p. destruct r as [|s0 r']; [cbn; lia|].
      destruct ((code s0 =? 43)%Z || (code s0 =? 45)%Z); cbn; lia. }
    destruct p as [sgn r']. cbn [snd] in Hp.
    pose proof (digits_length r') as Hd. destruct (digits r') as [[|d ds] rest0];
      [discriminate|]. injection E as <- <-. cbn in *. lia. }
  destruct o4 as [[e cs4]|]; [|discriminate]. specialize (H4 _ _ eq_refl).
  cbn [mbind option_bind] in H. injection H as <- <-. lia.
Qed.

Lemma strip_prefix_length word : forall cs r,
  strip_prefix word cs = Some r -> length cs = (length word + length r)%nat.
Proof.
  induction word as [|w word IH]; intros cs r H; cbn [strip_prefix] in H.
  - injection H as <-. reflexivity.
  - destruct cs as [|c cs]; [discriminate|].
    destruct (code w =? code c)%Z; [|discriminate].
    cbn [length]. now rewrite (IH _ _ H).
Qed.

Lemma parse_literal_length cs v r :
  parse_literal cs = Some (v, r) -> (length r < length cs)%nat.
Proof.
  unfold parse_literal. intros H.
  destruct (strip_prefix (list_ascii_of_string "true") cs) eqn:E1.
  { injection H as <- <-. apply strip_prefix_length in E1. cbn in E1. lia. }
  destruct (strip_prefix (list_ascii_of_string "false") cs) eqn:E2.
  { injection H as <- <-. apply strip_prefix_length in E2. cbn in E2. lia. }
  destruct (strip_prefix (list_ascii_of_string "null") cs) eqn:E3; [|discriminate].
  injection H as <- <-. apply strip_prefix_length in E3. cbn in E3. lia.
Qed.

(** The three parsers at once, by induction on a bound of the length. *)
Lemma parse_fuel_independent : forall n cs, (length cs <= n)%nat ->
  forall f f', (length cs < f)%nat -> (length cs < f')%nat ->
  (parse_value f cs = parse_value f' cs /\
   forall v r, parse_value f cs = Some (v, r) -> (length r < length cs)%nat) /\
  (parse_elements f cs = parse_elements f' cs /\
   forall vs r, parse_elements f cs = Some (vs, r) -> (length r < length cs)%nat) /\
  (parse_members f cs = parse_members f' cs /\
   forall ms r, parse_members f cs = Some (ms, r) -> (length r < length cs)%nat).
Proof.
  induction n as [|n IH]; intros cs Hn f f' Hf Hf'.
  - destruct cs; [|cbn in Hn; lia].
    destruct f as [|f]; [cbn in Hf; lia|]. destruct f' as [|f']; [cbn in Hf'; lia|].
    cbn. repeat split; intros; discriminate.
  - destruct f as [|f]; [lia|]. destruct f' as [|f']; [lia|].
    assert (IHr : forall r, (length r < length cs)%nat ->
      (parse_value f r = parse_value f' r /\
       forall v r', parse_value f r = Some (v, r') -> (length r' < length r)%nat) /\
      (parse_elements f r = parse_elements f' r /\
       forall vs r', parse_elements f r = Some (vs, r') -> (length r' < length r)%nat) /\
      (parse_members f r = parse_members f' r /\
       forall ms r', parse_members f r = Some (ms, r') -> (length r' < length r)%nat))
      by (intros r Hr; apply IH; lia).
    clear IH. pose proof (skip_ws_length cs) as Hws.
    split; [|split].
    + cbn [parse_value].
      destruct (skip_ws cs) as [|c rest]; [split; [reflexivity|discriminate]|].
      cbn [length] in Hws.
      destruct (code c =? 123)%Z.
      { pose proof (skip_ws_length rest) as Hws'.
        destruct (skip_ws rest) as [|c' rest']; [split; [reflexivity|discriminate]|].
        cbn [length] in Hws'. destruct (code c' =? 125)%Z.
        - split; [reflexivity|]. intros v r [= <- <-]. lia.
        - destruct (IHr rest ltac:(lia)) as (_ & _ & (EqM & LenM)). rewrite <- EqM.
          split; [reflexivity|]. intros v r H.
          destruct (parse_members f rest) as [[ms r0]|]; [|discriminate].
          cbn in H. injection H as <- <-. specialize (LenM _ _ eq_refl). lia. }
      destruct (code c =? 91)%Z.
      { pose proof (skip_ws_length rest) as Hws'.
        destruct (skip_ws rest) as [|c' rest']; [split; [reflexivity|discriminate]|].
        cbn [length] in Hws'. destruct (code c' =? 93)%Z.
        - split; [reflexivity|]. intros v r [= <- <-]. lia.
        - destruct (IHr rest ltac:(lia)) as ((EqV & LenV) & _). rewrite <- EqV.
          destruct (parse_value f rest) as [[v1 r1]|];
            [|split; [reflexivity|discriminate]].
          specialize (LenV _ _ eq_refl). cbn [mbind option_bind].
          destruct (IHr r1 ltac:(lia)) as (_ & (EqE & LenE) & _). rewrite <- EqE.
          split; [reflexivity|]. intros v r H.
          destruct (parse_elements f r1) as [[vs r2]|]; [|discriminate].
          cbn in H. injection H as <- <-. specialize (LenE _ _ eq_refl). lia. }
      destruct (code c =? 34)%Z.
      { split; [reflexivity|]. intros v r H.
        destruct (parse_chars rest) as [[s0 r0]|] eqn:E; [|discriminate].
        cbn in H. injection H as <- <-. apply parse_chars_length in E. lia. }
      destruct ((code c =? 45)%Z || isDigit c).
      { split; [reflexivity|]. intros v r H.
        destruct (parse_number (c :: rest)) as [[n0 r0]|] eqn:E; [|discriminate].
        cbn in H. injection H as <- <-. apply parse_number_length in E.
        cbn [length] in E. lia. }
      split; [reflexivity|]. intros v r H. apply parse_literal_length in H.
      cbn [length] in H. lia.
    + cbn [parse_elements].
      destruct (skip_ws cs) as [|c rest]; [split; [reflexivity|discriminate]|].
      cbn [length] in Hws.
      destruct (code c =? 44)%Z.
      { destruct (IHr rest ltac:(lia)) as ((EqV & LenV) & _). rewrite <- EqV.
        destruct (parse_value f rest) as [[v1 r1]|];
          [|split; [reflexivity|discriminate]].
        specialize (LenV _ _ eq_refl). cbn [mbind option_bind].
        destruct (IHr r1 ltac:(lia)) as (_ & (EqE & LenE) & _). rewrite <- EqE.
        split; [reflexivity|]. intros vs r H.
        destruct (parse_elements f r1) as [[vs0 r2]|]; [|discriminate].
        cbn in H. injection H as <- <-. specialize (LenE _ _ eq_refl). lia. }
      destruct (code c =? 93)%Z; [|split; [reflexivity|discriminate]].
      split; [reflexivity|]. intros vs r [= <- <-]. lia.
    + cbn [parse_members].
      destruct (skip_ws cs) as [|q rest]; [split; [reflexivity|discriminate]|].
      cbn [length] in Hws.
      destruct (code q =? 34)%Z; [|split; [reflexivity|discriminate]].
      destruct (parse_chars rest) as [[k rest1]|] eqn:Ek;
        [|split; [reflexivity|discriminate]].
      apply parse_chars_length in Ek. cbn [mbind option_bind].
      pose proof (skip_ws_length rest1) as Hws1.
      destruct (skip_ws rest1) as [|colon rest2]; [split; [reflexivity|discriminate]|].
      cbn [length] in Hws1.
      destruct (code colon =? 58)%Z; [|split; [reflexivity|discriminate]].
      destruct (IHr rest2 ltac:(lia)) as ((EqV & LenV) & _). rewrite <- EqV.
      destruct (parse_value f rest2) as [[v1 rest3]|];
        [|split; [reflexivity|discriminate]].
      specialize (LenV _ _ eq_refl). cbn [mbind option_bind].
      pose proof (skip_ws_length rest3) as Hws3.
      destruct (skip_ws rest3) as [|c rest4]; [split; [reflexivity|discriminate]|].
      cbn [length] in Hws3.
      destruct (code c =? 44)%Z.
      { destruct (IHr rest4 ltac:(lia)) as (_ & _ & (EqM & LenM)). rewrite <- EqM.
        split; [reflexivity|]. intros ms r H.
        destruct (parse_members f rest4) as [[ms0 r0]|]; [|discriminate].
        cbn in H. injection H as <- <-. specialize (LenM _ _ eq_refl). lia. }
      destruct (code c =? 125)%Z; [|split; [reflexivity|discriminate]].
      split; [reflexivity|]. intros ms r [= <- <-]. lia.
Qed.

(** [parse] with any fuel above the length of the text. *)
Lemma parse_enough_fuel text fuel :
  (String.length text < fuel)%nat ->
  parse text =
  '(v, rest) ← parse_value fuel (list_ascii_of_string text);
  match skip_ws rest with [] => Some v | _ => None end.
Proof.
  intros Hf. unfold parse.
  assert (Hlen : length (list_ascii_of_string text) = String.length text).
  { clear. induction text as [|c text IH]; cbn; [reflexivity|]. now rewrite IH. }
  destruct (parse_fuel_independent _ (list_ascii_of_string text) (le_n _)
              (S (length (list_ascii_of_string text))) fuel
              ltac:(lia) ltac:(lia)) as ((-> & _) & _).
  reflexivity.
Qed.

(** Tests on the characters the printer itself writes are settled by
    evaluation. *)
Ltac eval_tests :=
  repeat (progress (
    repeat match goal with
      | |- context [isSpace ?c] =>
          let b := eval vm_compute in (isSpace c) in
          match b with true => idtac | false => idtac end;
          change (isSpace c) with b
      | |- context [(code ?c =? ?n)%Z] =>
          let b := eval vm_compute in (code c =? n)%Z in
          match b with true => idtac | false => idtac end;
          change (code c =? n)%Z with b
      end;
    cbn iota)).

(** The members of an object whose values are strings: the last one ... *)
Lemma parse_members_last fuel k s rest :
  parse_members (S (S fuel)) (quote k ++ ":"%char :: quote s ++ "}"%char :: rest)
  = Some ([(k, JString s)], rest).
Proof.
  destruct (parse_member_string fuel k s ("}"%char :: rest)) as (tail & E & Hk & Hv).
  rewrite E. remember (S fuel) as f eqn:Ef.
  cbn [parse_members skip_ws]. eval_tests.
  rewrite Hk. cbn [mbind option_bind skip_ws]. eval_tests.
  rewrite Hv. cbn [mbind option_bind skip_ws]. eval_tests.
  now rewrite string_of_list_ascii_of_string.
Qed.

(** ... and one that is followed by more. *)
Lemma parse_members_more fuel k s rest ms rest' :
  parse_members (S fuel) rest = Some (ms, rest') ->
  parse_members (S (S fuel)) (quote k ++ ":"%char :: quote s ++ ","%char :: rest)
  = Some ((k, JString s) :: ms, rest').
Proof.
  intros Hrest.
  destruct (parse_member_string fuel k s (","%char :: rest)) as (tail & E & Hk & Hv).
  rewrite E. remember (S fuel) as f eqn:Ef.
  cbn [parse_members skip_ws]. eval_tests.
  rewrite Hk. cbn [mbind option_bind skip_ws]. eval_tests.
  rewrite Hv. cbn [mbind option_bind skip_ws]. eval_tests.
  rewrite Hrest. cbn [mbind option_bind].
  now rewrite string_of_list_ascii_of_string.
Qed.

(** An object is read through its members. *)
Lemma parse_value_object fuel k tail ms rest :
  parse_members fuel (quote k ++ tail) = Some (ms, rest) ->
  parse_value (S fuel) ("{"%char :: quote k ++ tail) = Some (JObject ms, rest).
Proof.
  intros Hms. destruct (parse_chars_quote k tail) as (t & E & _).
  rewrite E in Hms |- *.
  cbn [parse_value skip_ws]. eval_tests. rewrite Hms. reflexivity.
Qed.

End JsonFacts.

Module SyncTokenFacts.
Import SyncToken.

(** [JSON.parse] reads back the object that [JSON.stringify] printed for a
    payload. *)
Lemma parse_stringify_payload payload :
  Json.parse (Json.stringify (payloadObject payload)) = Some (payloadObject payload).
Proof.
  unfold Json.parse, Json.stringify.
  rewrite list_ascii_of_string_of_list_ascii.
  destruct payload as [u [i|]]; unfold payloadObject; cbn [lastUpdatedAt lastId];
    cbn [Json.stringify_units].
  - set (k1 := "lastUpdatedAt"). set (k2 := "lastId").
    replace ((Json.quote k1 ++ ":"%char :: Json.quote u ++
              ","%char :: Json.quote k2 ++ ":"%char :: Json.quote i) ++ ["}"%char])
      with (Json.quote k1 ++ ":"%char :: Json.quote u ++
            ","%char :: Json.quote k2 ++ ":"%char :: Json.quote i ++ ["}"%char])
      by (repeat (rewrite <- ?app_assoc; cbn [app]); reflexivity).
    match goal with
    | |- context [Json.parse_value ?f ?cs] =>
        assert (Hf : exists n, f = S (S (S (S n))))
          by (exists (length cs - 3)%nat; cbn [length Json.quote app];
              rewrite ?length_app; cbn [length]; lia);
        destruct Hf as [n ->]
    end.
    rewrite (JsonFacts.parse_value_object _ k1 _
               [(k1, Json.JString u); (k2, Json.JString i)] []).
    + reflexivity.
    + apply JsonFacts.parse_members_more. apply JsonFacts.parse_members_last.
  - set (k1 := "lastUpdatedAt").
    replace ((Json.quote k1 ++ ":"%char :: Json.quote u) ++ ["}"%char])
      with (Json.quote k1 ++ ":"%char :: Json.quote u ++ ["}"%char])
      by (repeat (rewrite <- ?app_assoc; cbn [app]); reflexivity).
    match goal with
    | |- context [Json.parse_value ?f ?cs] =>
        assert (Hf : exists n, f = S (S (S (S n))))
          by (exists (length cs - 3)%nat; cbn [length Json.quote app];
              rewrite ?length_app; cbn [length]; lia);
        destruct Hf as [n ->]
    end.
    rewrite (JsonFacts.parse_value_object _ k1 _ [(k1, Json.JString u)] []).
    + reflexivity.
    + apply JsonFacts.parse_members_last.
Qed.

Lemma checkPayload_payloadObject payload :
  checkPayload (payloadObject payload) = Some payload.
Proof. destruct payload as [u [i|]]; reflexivity. Qed.

(** *** Tokens that do not decode *)

(** The ways the text read out of a token fails to give a payload: it is not
    JSON, the value is not an object with a string [lastUpdatedAt], or it
    has a [lastId] that is not a string. *)
Inductive notPayload (json : string) : Prop :=
| invalid_json :
    Json.parse json = None -> notPayload json
| no_string_lastUpdatedAt v :
    Json.parse json = Some v ->
    (forall members u, v = Json.JObject members ->
                       Json.lookup members "lastUpdatedAt" <> Some (Json.JString u)) ->
    notPayload json
| non_string_lastId members x :
    Json.parse json = Some (Json.JObject members) ->
    Json.lookup members "lastId" = Some x -> (forall i, x <> Json.JString i) ->
    notPayload json.

Lemma notPayload_null json :
  notPayload json <-> Json.parse json ≫= checkPayload = None.
Proof.
  split.
  - intros [H2|v H2 H3|members x H2 H3 H4].
    + now rewrite H2.
    + rewrite H2. cbn [mbind option_bind]. unfold checkPayload.
      destruct v as [| | | |items|members]; try reflexivity.
      destruct (Json.lookup members "lastUpdatedAt") as [[]|] eqn:E; try reflexivity.
      exfalso. eapply H3; [reflexivity|exact E].
    + rewrite H2. cbn [mbind option_bind]. unfold checkPayload. rewrite H3.
      destruct (Json.lookup members "lastUpdatedAt") as [[]|]; try reflexivity.
      destruct x; try reflexivity. exfalso. eapply H4. reflexivity.
  - intros H.
    destruct (Json.parse json) as [v|] eqn:H2; [|exact (invalid_json json H2)].
    cbn [mbind option_bind] in H. unfold checkPayload in H.
    destruct v as [| | | |items|members];
      try (eapply no_string_lastUpdatedAt; [exact H2|]; congruence).
    destruct (Json.lookup members "lastUpdatedAt") as [w|] eqn:E.
    + destruct w;
        try (eapply no_string_lastUpdatedAt; [exact H2|];
             intros ms u' [= <-]; congruence).
      destruct (Json.lookup members "lastId") as [x|] eqn:E2; [|discriminate].
      eapply non_string_lastId; [exact H2|exact E2|].
      intros i ->. discriminate.
    + eapply no_string_lastUpdatedAt; [exact H2|].
      intros ms u' [= <-]. congruence.
Qed.

(** On the server the base64 step always yields a text, so a token gives no
    payload exactly when that text is no payload. *)
Lemma decodes_to_null token :
  decodeSyncToken node token = None <-> notPayload (Base64.decode token).
Proof.
  unfold decodeSyncToken. cbn [decodedText node mbind option_bind].
  symmetry. apply notPayload_null.
Qed.

(** *** Base64 as such *)

(** The characters of the base64 alphabet and the padding character. *)
Definition isAlphabet (c : ascii) : bool :=
  let n := CodeUnit.code c in
  (65 <=? n)%Z && (n <=? 90)%Z || (97 <=? n)%Z && (n <=? 122)%Z
  || (48 <=? n)%Z && (n <=? 57)%Z || (n =? 43)%Z || (n =? 47)%Z.

Definition isPadding (c : ascii) : bool := (CodeUnit.code c =? 61)%Z.

(** A text in groups of four characters of the alphabet, of which the last
    group may end in one or two padding characters. *)
Fixpoint validGroups (cs : list ascii) : bool :=
  match cs with
  | [] => true
  | a :: b :: c :: d :: rest =>
      isAlphabet a && isAlphabet b &&
      match rest with
      | [] =>
          isAlphabet c && (isAlphabet d || isPadding d)
          || isPadding c && isPadding d
      | _ => isAlphabet c && isAlphabet d && validGroups rest
      end
  | _ => false
  end.

(** Valid base64 in the sense of RFC 4648, which is not the test that
    [Buffer] applies: [Buffer] applies none. *)
Definition validBase64 (token : string) : bool :=
  validGroups (list_ascii_of_string token).

End SyncTokenFacts.

(** C10: on the server ([Buffer]), for every payload (a [lastUpdatedAt]
    string with or without a [lastId] string) the token that
    [encodeSyncToken] makes is decoded by [decodeSyncToken] to that very
    payload. *)
Theorem decodeSyncToken_encodeSyncToken (payload : SyncToken.SyncTokenPayload) :
  exists token,
    SyncToken.encodeSyncToken SyncToken.node payload = Some token /\
    SyncToken.decodeSyncToken SyncToken.node token = Some payload.
Proof.
  eexists. split; [reflexivity|].
  unfold SyncToken.decodeSyncToken. cbn [SyncToken.decodedText SyncToken.node].
  rewrite Base64Facts.decode_encode. cbn [mbind option_bind].
  rewrite SyncTokenFacts.parse_stringify_payload. cbn [mbind option_bind].
  apply SyncTokenFacts.checkPayload_payloadObject.
Qed.

(** C9, as amended: on the server a sync token out of which [Buffer] reads a
    text that is no payload (the text is not JSON, there is no string
    [lastUpdatedAt], or [lastId] is not a string) makes [decodeSyncToken]
    return null, and the route answers the request exactly as it answers
    one without a token: with the whole list and a fresh token when the list
    exists, never with an error of its own.  Being invalid as base64 is not
    among the causes: [Buffer] reads every token. *)
Theorem malformed_token_means_full_resync
    (st : Store.t) (l : string) (token : string) :
  SyncTokenFacts.notPayload (Base64.decode token) ->
  SyncToken.decodeSyncToken SyncToken.node token = None /\
  TodoRoutes.getTodos SyncToken.node st l (Some token)
  = TodoRoutes.getTodos SyncToken.node st l None /\
  (Store.listExists st l = true ->
   exists newToken,
     TodoRoutes.getTodos SyncToken.node st l (Some token)
     = TodoRoutes.Ok (Store.getTodosForList st l None) newToken).
Proof.
  intros Hmal. apply SyncTokenFacts.decodes_to_null in Hmal.
  split; [exact Hmal|].
  assert (Hsame : TodoRoutes.getTodos SyncToken.node st l (Some token)
                  = TodoRoutes.getTodos SyncToken.node st l None).
  { unfold TodoRoutes.getTodos. rewrite Hmal.
    destruct (JsString.truthy token); reflexivity. }
  split; [exact Hsame|].
  intros Hex. rewrite Hsame. unfold TodoRoutes.getTodos. rewrite Hex.
  cbn [negb]. eexists. reflexivity.
Qed.

(** *** Tokens at work *)

Module SyncTokenExamples.
Import SyncToken.

Definition payload : SyncTokenPayload :=
  {| lastUpdatedAt := "2025-01-01T00:00:00.000Z"; lastId := Some "a" |}.

Definition token : string :=
  "eyJsYXN0VXBkYXRlZEF0IjoiMjAyNS0wMS0wMVQwMDowMDowMC4wMDBaIiwibGFzdElkIjoiYSJ9".

Example encodes : encodeSyncToken node payload = Some token.
Proof. vm_compute. reflexivity. Qed.

Example decodes : decodeSyncToken node token = Some payload.
Proof. vm_compute. reflexivity. Qed.

(** JSON texts are written here with ['] where JSON has the double quote. *)
Definition json (text : string) : string :=
  string_of_list_ascii
    (map (fun c => if Ascii.eqb c "'" then "034"%char else c)
       (list_ascii_of_string text)).

Example nested_json :
  Json.parse (json "[[[[1, {'a': [true, null]}]]], 'A\n']")
  = Some (Json.JArray
            [Json.JArray
               [Json.JArray
                  [Json.JArray
                     [Json.JNumber "1";
                      Json.JObject
                        [("a", Json.JArray [Json.JBool true; Json.JNull])]]]];
             Json.JString (String "A" (String (ascii_of_nat 10) ""))]).
Proof. vm_compute. reflexivity. Qed.

(** The tokens of some texts that are no payload. *)
Definition tokenOf (text : string) : string := Base64.encode (json text).

Example not_json : decodeSyncToken node "not-a-token" = None.
Proof. vm_compute. reflexivity. Qed.

Example json_but_no_object : decodeSyncToken node (tokenOf "[1,2]") = None.
Proof. vm_compute. reflexivity. Qed.

Example json_null : decodeSyncToken node (tokenOf "null") = None.
Proof. vm_compute. reflexivity. Qed.

Example no_lastUpdatedAt : decodeSyncToken node (tokenOf "{'lastId':'a'}") = None.
Proof. vm_compute. reflexivity. Qed.

Example number_lastUpdatedAt :
  decodeSyncToken node (tokenOf "{'lastUpdatedAt':5}") = None.
Proof. vm_compute. reflexivity. Qed.

Example null_lastId :
  decodeSyncToken node (tokenOf "{'lastUpdatedAt':'x','lastId':null}") = None.
Proof. vm_compute. reflexivity. Qed.

Example without_lastId :
  decodeSyncToken node (tokenOf "{'lastUpdatedAt':'x'}")
  = Some {| lastUpdatedAt := "x"; lastId := None |}.
Proof. vm_compute. reflexivity. Qed.

(** [Buffer] does not throw on characters outside the alphabet, it skips
    them: such a token is not undecodable, it still carries its payload. *)
Example foreign_characters_are_skipped :
  decodeSyncToken node ("!" ++ token) = Some payload.
Proof. vm_compute. reflexivity. Qed.

(** A character above U+00FF is read as its low byte: U+0165, in UTF-8 the
    bytes 197 and 165, is read as the letter e (U+0065). *)
Definition u0165 : string :=
  String (ascii_of_nat 197) (String (ascii_of_nat 165) "").

Example low_byte_is_read :
  decodeSyncToken node
    (u0165 ++ "yJsYXN0VXBkYXRlZEF0IjoiMjAyNS0wMS0wMVQwMDowMDowMC4wMDBaIiwibGFzdElkIjoiYSJ9")
  = Some payload.
Proof. vm_compute. reflexivity. Qed.

Example token_is_base64 : SyncTokenFacts.validBase64 token = true.
Proof. vm_compute. reflexivity. Qed.

Example padded_is_base64 : SyncTokenFacts.validBase64 (tokenOf "[1,2]") = true.
Proof. vm_compute. reflexivity. Qed.

(** A store with the list of [store.test.ts] registered. *)
Definition st : Store.t :=
  (Store.createList StoreExamples.st0
     {| list_id := "list-1"; joinKey := "KEY"; list_createdAt := StoreExamples.t1 |}).1.

Example delta_sync :
  TodoRoutes.getTodos node st "list-1" (Some token)
  = TodoRoutes.Ok
      [StoreExamples.todo "b" StoreExamples.t1 None;
       StoreExamples.todo "c" StoreExamples.t2 (Some StoreExamples.t2)]
      (encodeSyncToken node
         {| lastUpdatedAt := StoreExamples.t2; lastId := Some "c" |}).
Proof. vm_compute. reflexivity. Qed.

Example full_sync_on_bad_token :
  TodoRoutes.getTodos node st "list-1" (Some "not-a-token")
  = TodoRoutes.Ok
      [StoreExamples.todo "a" StoreExamples.t1 None;
       StoreExamples.todo "b" StoreExamples.t1 None;
       StoreExamples.todo "c" StoreExamples.t2 (Some StoreExamples.t2)]
      (encodeSyncToken node
         {| lastUpdatedAt := StoreExamples.t2; lastId := Some "c" |}).
Proof. vm_compute. reflexivity. Qed.

End SyncTokenExamples.

Lemma malformed_token_means_full_resync_witness :
  SyncToken.decodeSyncToken SyncToken.node "not-a-token" = None /\
  TodoRoutes.getTodos SyncToken.node SyncTokenExamples.st "list-1"
    (Some "not-a-token")
  = TodoRoutes.getTodos SyncToken.node SyncTokenExamples.st "list-1" None /\
  (Store.listExists SyncTokenExamples.st "list-1" = true ->
   exists newToken,
     TodoRoutes.getTodos SyncToken.node SyncTokenExamples.st "list-1"
       (Some "not-a-token")
     = TodoRoutes.Ok
         (Store.getTodosForList SyncTokenExamples.st "list-1" None) newToken).
Proof.
  apply (malformed_token_means_full_resync SyncTokenExamples.st
           "list-1" "not-a-token").
  apply SyncTokenFacts.invalid_json. vm_compute. reflexivity.
Defined.

(** C9, as the claim has it, fails for a token that is invalid base64: with
    a character outside the alphabet in front of a token of the server, the
    token is not valid base64, yet [decodeSyncToken] returns its payload and
    the route answers with the todos after that cursor, not with the whole
    list. *)
Lemma invalid_base64_token_is_used_as_cursor :
  SyncTokenFacts.validBase64 ("!" ++ SyncTokenExamples.token)%string = false /\
  SyncToken.decodeSyncToken SyncToken.node ("!" ++ SyncTokenExamples.token)%string
  = Some SyncTokenExamples.payload /\
  TodoRoutes.getTodos SyncToken.node SyncTokenExamples.st "list-1"
    (Some ("!" ++ SyncTokenExamples.token)%string)
  = TodoRoutes.Ok
      [StoreExamples.todo "b" StoreExamples.t1 None;
       StoreExamples.todo "c" StoreExamples.t2 (Some StoreExamples.t2)]
      (SyncToken.encodeSyncToken SyncToken.node
         {| SyncToken.lastUpdatedAt := StoreExamples.t2;
            SyncToken.lastId := Some "c" |}) /\
  TodoRoutes.getTodos SyncToken.node SyncTokenExamples.st "list-1" None
  = TodoRoutes.Ok
      [StoreExamples.todo "a" StoreExamples.t1 None;
       StoreExamples.todo "b" StoreExamples.t1 None;
       StoreExamples.todo "c" StoreExamples.t2 (Some StoreExamples.t2)]
      (SyncToken.encodeSyncToken SyncToken.node
         {| SyncToken.lastUpdatedAt := StoreExamples.t2;
            SyncToken.lastId := Some "c" |}) /\
  TodoRoutes.getTodos SyncToken.node SyncTokenExamples.st "list-1"
    (Some ("!" ++ SyncTokenExamples.token)%string)
  <> TodoRoutes.getTodos SyncToken.node SyncTokenExamples.st "list-1" None.
Proof.
  split; [vm_compute; reflexivity|].
  split; [vm_compute; reflexivity|].
  split; [vm_compute; reflexivity|].
  split; [vm_compute; reflexivity|].
  vm_compute. discriminate.
Qed.

(** ** The mutation processor *)

Module ProcessorFacts.
Import SyncState Stores Processor.

Section WithClock.
Variable parseDate : string -> option Z.

(** *** What merging leaves alone *)

Lemma merge_loop_frame optimistic incoming : forall s,
  pendingMutations (fold_left (Merge.mergeIncoming parseDate optimistic) incoming s)
  = pendingMutations s /\
  runGeneration (fold_left (Merge.mergeIncoming parseDate optimistic) incoming s)
  = runGeneration s.
Proof.
  induction incoming as [|t incoming IH]; intros s; cbn [fold_left]; [now split|].
  destruct (IH (Merge.mergeIncoming parseDate optimistic s t)) as [-> ->].
  apply MergeFacts.mergeIncoming_pending.
Qed.

Lemma updateDisplayTodos_syncState w serverTodos :
  syncState (updateDisplayTodos parseDate w serverTodos)
  = (Merge.mergeTodos parseDate (syncState w) (todos (todosStore w)) serverTodos).1.
Proof. reflexivity. Qed.

Lemma updateDisplayTodos_frame w serverTodos :
  let w' := updateDisplayTodos parseDate w serverTodos in
  authStore w' = authStore w /\ listStore w' = listStore w /\
  syncStore w' = syncStore w /\
  pendingMutations (syncState w') = pendingMutations (syncState w) /\
  runGeneration (syncState w') = runGeneration (syncState w).
Proof.
  cbn zeta. repeat split; try reflexivity;
    rewrite updateDisplayTodos_syncState; unfold Merge.mergeTodos; cbn [fst];
    apply merge_loop_frame.
Qed.




(** The loop head goes on to validation as long as the run is current, the
    session stands and the queue is not empty. *)
Lemma loopHead_continues run w head :
  isRunValid w (run_generation run) = true -> canProcess w = true ->
  getNextMutation (syncState w) (run_todoId run) = Some head ->
  loopHead run w = (w, run, AwaitValidate head (validateMutation w head)).
Proof. unfold loopHead. now intros -> -> ->. Qed.

Lemma validate_proceed_cached w m :
  validateMutation w m = VProceed ->
  is_Some (getServerTodo (syncState w) (todoId m)).
Proof.
  unfold validateMutation.
  destruct (getServerTodo (syncState w) (todoId m)); [eauto|discriminate].
Qed.

(** *** Network failures *)

(** The outcomes [executeMutation] files under ['network-error']: a thrown
    error that is neither a 401 nor an invalid transition, or a response that
    is neither a success nor a conflict. *)
Definition networkFailure (o : ApiOutcome) : bool :=
  match o with
  | Throws (OtherError _) => true
  | Throws (UnauthorizedError statusCode) => negb (bool_decide (statusCode = 401))
  | RespOther => true
  | _ => false
  end.

(** The events of a run whose requests all fail: per request the validation
    tick, the failure, and the timer of the backoff. *)
Fixpoint failureEvents (outcomes : list ApiOutcome) : list Event :=
  match outcomes with
  | [] => []
  | o :: outcomes' => Tick :: ApiSettled o :: TimerFired :: failureEvents outcomes'
  end.

(** The run is at the loop head with a mutation to send. *)
Definition ready (w : World) (run : Run) (m : PendingMutation) : Prop :=
  isRunValid w (run_generation run) = true /\ canProcess w = true /\
  getNextMutation (syncState w) (run_todoId run) = Some m /\
  validateMutation w m = VProceed.

(** Two worlds that differ at most in the sync-status store. *)
Definition same_session (w w' : World) : Prop :=
  syncState w' = syncState w /\ authStore w' = authStore w /\
  listStore w' = listStore w /\ todosStore w' = todosStore w.

Lemma same_session_refl w : same_session w w.
Proof. repeat split. Qed.

Lemma same_session_trans w1 w2 w3 :
  same_session w1 w2 -> same_session w2 w3 -> same_session w1 w3.
Proof. unfold same_session. intuition congruence. Qed.

Lemma same_session_syncStore w x : same_session w (with_syncStore w x).
Proof. repeat split. Qed.

Lemma ready_same_session w w' run a m :
  same_session w w' -> ready w run m -> ready w' (with_attempt run a) m.
Proof.
  intros (Hs & Ha & Hl & _) (Hv & Hc & Hn & Hp). unfold ready. cbn.
  unfold isRunValid, canProcess, validateMutation in *.
  rewrite Hs, Ha, Hl. auto.
Qed.

Lemma send_same_session w w' m :
  same_session w w' ->
  (executeMutation_send w' m).2 = (executeMutation_send w m).2.
Proof.
  intros (Hs & Ha & _). unfold executeMutation_send. rewrite Hs, Ha.
  destruct (user (authStore w)), (getServerTodo (syncState w) (todoId m));
    reflexivity.
Qed.

Lemma ready_sends w run m :
  ready w run m ->
  exists request,
    executeMutation_send w m
    = (with_syncStore w (beginSyncOp (syncStore w)), Some request).
Proof.
  intros (_ & Hc & _ & Hp). apply validate_proceed_cached in Hp as [t Ht].
  unfold canProcess in Hc. apply andb_true_iff in Hc as [Hc _].
  apply andb_true_iff in Hc as [Hc _]. apply bool_decide_eq_true in Hc as [u Hu].
  unfold executeMutation_send. rewrite Hu, Ht. eauto.
Qed.

Lemma settle_networkFailure w g o :
  isRunValid w g = true -> networkFailure o = true ->
  exists message,
    executeMutation_settle w g o
    = (with_syncStore w (endSyncOp (syncStore w) None), ExNetworkError message).
Proof.
  intros Hv Ho. unfold executeMutation_settle. rewrite Hv. cbn.
  destruct o as [t|t| |[c| |msg]]; try discriminate; cbn in *; eauto.
  destruct (bool_decide (c = 401)); [discriminate|eauto].
Qed.

(** A network error below the ceiling sets the timer to
    [1000 * 2 ^ (attempt - 1)] milliseconds; at the ceiling the run exits.
    Either way the world is left as it is. *)
Lemma handleResult_networkError run w m message :
  handleResult parseDate run w m (ExNetworkError message)
  = if (10 <=? run_attempt run)%Z then (w, run, Exited)
    else (w, run, AwaitBackoff (1000 * 2 ^ (run_attempt run - 1))).
Proof. reflexivity. Qed.

Lemma runAlone_exited events w run trace :
  runAlone parseDate events (w, run, Exited) trace = (w, run, Exited, trace).
Proof. destruct events as [|[] ?]; reflexivity. Qed.

(** What the run does from attempt [a] on when every request fails: [n]
    rounds of request and sleep, then the last request. *)
Fixpoint failureTrace (request : Request) (a : Z) (n : nat) : list Effect :=
  match n with
  | O => [Sent request]
  | S n' =>
      Sent request :: Slept (1000 * 2 ^ (a - 1)) :: failureTrace request (a + 1) n'
  end.

Lemma failing_rounds m request : forall n outcomes w run trace,
  ready w run m ->
  (executeMutation_send w m).2 = Some request ->
  run_attempt run = 10 - Z.of_nat n ->
  length outcomes = S n ->
  Forall (fun o => networkFailure o = true) outcomes ->
  exists w',
    same_session w w' /\
    runAlone parseDate (failureEvents outcomes)
      (w, run, AwaitValidate m VProceed) trace
    = (w', with_attempt run 10, Exited,
       trace ++ failureTrace request (run_attempt run) n).
Proof.
  induction n as [|n IH]; intros outcomes w run trace Hready Hreq Ha Hlen Hall.
  - destruct outcomes as [|o [|]]; try discriminate.
    apply Forall_cons in Hall as [Ho _].
    destruct (ready_sends w run m Hready) as [request' Hsend].
    rewrite Hsend in Hreq. cbn in Hreq. injection Hreq as ->.
    set (w1 := with_syncStore w (beginSyncOp (syncStore w))) in *.
    assert (Hv1 : isRunValid w1 (run_generation run) = true) by apply Hready.
    destruct (settle_networkFailure w1 _ o Hv1 Ho) as [message Hsettle].
    exists (with_syncStore w1 (endSyncOp (syncStore w1) None)).
    split; [repeat split|].
    cbn [failureEvents runAlone resume]. rewrite Hsend.
    cbn [runAlone resume snd effectOf]. rewrite Hsettle.
    rewrite handleResult_networkError.
    replace (10 <=? run_attempt run)%Z with true
      by (symmetry; apply Z.leb_le; cbn in Ha; lia).
    cbn [snd effectOf]. rewrite app_nil_r.
    replace (with_attempt run 10) with run
      by (destruct run; cbn in *; f_equal; lia).
    reflexivity.
  - destruct outcomes as [|o outcomes]; [discriminate|].
    apply Forall_cons in Hall as [Ho Hall]. injection Hlen as Hlen.
    destruct (ready_sends w run m Hready) as [request' Hsend].
    rewrite Hsend in Hreq. cbn in Hreq. injection Hreq as ->.
    set (w1 := with_syncStore w (beginSyncOp (syncStore w))) in *.
    assert (Hv1 : isRunValid w1 (run_generation run) = true) by apply Hready.
    destruct (settle_networkFailure w1 _ o Hv1 Ho) as [message Hsettle].
    set (w2 := with_syncStore w1 (endSyncOp (syncStore w1) None)) in *.
    assert (Hss : same_session w w2) by repeat split.
    pose proof (ready_same_session w w2 run (run_attempt run + 1) m Hss Hready)
      as Hready2.
    destruct (IH outcomes w2 (with_attempt run (run_attempt run + 1))
                ((trace ++ [Sent request])
                   ++ [Slept (1000 * 2 ^ (run_attempt run - 1))])
                Hready2) as (w' & Hss' & Hrun).
    + rewrite (send_same_session w w2 m Hss), Hsend. reflexivity.
    + cbn. lia.
    + exact Hlen.
    + exact Hall.
    + exists w'. split; [exact (same_session_trans _ _ _ Hss Hss')|].
      cbn [failureEvents runAlone resume]. rewrite Hsend.
      cbn [runAlone resume snd effectOf]. rewrite Hsettle.
      rewrite handleResult_networkError.
      replace (10 <=? run_attempt run)%Z with false
        by (symmetry; apply Z.leb_gt; lia).
      cbn [snd effectOf runAlone resume].
      destruct Hready2 as (Hv2 & Hc2 & Hn2 & Hp2).
      rewrite (loopHead_continues _ w2 m Hv2 Hc2 Hn2), Hp2.
      cbn [snd effectOf]. rewrite app_nil_r.
      rewrite Hrun. cbn [with_attempt run_attempt run_todoId run_generation].
      f_equal. cbn [failureTrace]. rewrite <- !app_assoc. reflexivity.
Qed.

End WithClock.
End ProcessorFacts.


(** C8: a run whose requests for the head mutation keep failing with network
    errors sends the request ten times, sleeping between two requests for a
    delay that doubles each time, from one second up to 256 seconds; after
    the tenth failure it exits.  The sync state is then what it was at the
    start: nothing was dequeued, the mutation is still at the head of the
    queue of its todo. *)
Theorem network_failures_back_off_then_keep_mutation
    (parseDate : string -> option Z) (w : Processor.World) (k : string)
    (gen : Z) (m : SyncState.PendingMutation)
    (outcomes : list Processor.ApiOutcome) :
  Processor.isRunValid w gen = true ->
  Processor.canProcess w = true ->
  SyncState.getNextMutation (Processor.syncState w) k = Some m ->
  Processor.validateMutation w m = Processor.VProceed ->
  length outcomes = 10%nat ->
  Forall (fun o => ProcessorFacts.networkFailure o = true) outcomes ->
  exists w' run' request,
    (Processor.executeMutation_send w m).2 = Some request /\
    Processor.runAlone parseDate (ProcessorFacts.failureEvents outcomes)
      (Processor.processMutations w k gen) []
    = (w', run', Processor.Exited,
       [Processor.Sent request; Processor.Slept 1000;
        Processor.Sent request; Processor.Slept 2000;
        Processor.Sent request; Processor.Slept 4000;
        Processor.Sent request; Processor.Slept 8000;
        Processor.Sent request; Processor.Slept 16000;
        Processor.Sent request; Processor.Slept 32000;
        Processor.Sent request; Processor.Slept 64000;
        Processor.Sent request; Processor.Slept 128000;
        Processor.Sent request; Processor.Slept 256000;
        Processor.Sent request]) /\
    Processor.syncState w' = Processor.syncState w /\
    SyncState.getNextMutation (Processor.syncState w') k = Some m.
Proof.
  intros Hv Hc Hn Hp Hlen Hall.
  set (run := {| Processor.run_todoId := k; Processor.run_generation := gen;
                 Processor.run_attempt := 1 |}).
  assert (Hready : ProcessorFacts.ready w run m) by (repeat split; assumption).
  destruct (ProcessorFacts.ready_sends w run m Hready) as [request Hsend].
  destruct (ProcessorFacts.failing_rounds parseDate m request 9 outcomes w run [])
    as (w' & (Hs & _) & Hrun); try assumption.
  - now rewrite Hsend.
  - reflexivity.
  - exists w', (Processor.with_attempt run 10), request.
    split; [now rewrite Hsend|]. split; [|split].
    + unfold Processor.processMutations. fold run.
      rewrite (ProcessorFacts.loopHead_continues run w m Hv Hc Hn), Hp.
      exact Hrun.
    + exact Hs.
    + now rewrite Hs.
Qed.

(** *** A session with one queued mutation *)

Module ProcessorExamples.
Import SyncState Stores Processor.

Definition t0 : string := "2025-01-01T00:00:00.000Z".
Definition t1 : string := "2025-01-01T00:00:05.000Z".

Definition todo1 (v : Z) (st : TodoState) (updated : string) : Todo :=
  {| id := "todo-1"; listId := "list-1"; title := "Test"; state := st;
     createdBy := "user-1"; createdAt := t0; updatedAt := updated;
     version := v; deletedAt := None |}.

Definition toOngoing : PendingMutation :=
  {| m_id := "m-1"; todoId := "todo-1"; appliedAt := t1; nextState := ONGOING |}.

(** User and list are set, the cache holds the todo at version 3 in state
    TODO, and one mutation to ONGOING is queued. *)
Definition world : World :=
  {| syncState :=
       {| serverState := [("todo-1", todo1 3 TODO t0)];
          pendingMutations := [("todo-1", [toOngoing])];
          activeRuns := [("todo-1", tt)];
          runGeneration := 0 |};
     authStore := {| user := Some {| user_id := "user-1"; user_name := None;
                                     user_createdAt := t0 |};
                     auth_status := Ready; auth_error := None |};
     listStore := {| ls_listId := Some "list-1"; list_joinKey := Some "KEY";
                     list_error := false |};
     todosStore := {| todos := [todo1 3 ONGOING t1]; syncToken := None |};
     syncStore := {| sync_status := Idle; sync_error := None;
                     pendingSyncOps := 0 |} |}.

Definition run0 : Run :=
  {| run_todoId := "todo-1"; run_generation := 0; run_attempt := 1 |}.

Definition request (v : Z) : Request :=
  {| req_todoId := "todo-1"; req_userId := "user-1";
     req_nextState := ONGOING; req_expectedVersion := v |}.

Definition run := runAlone JsDate.parseISO.

Example starts_with_validation :
  processMutations world "todo-1" 0 = (world, run0, AwaitValidate toOngoing VProceed).
Proof. vm_compute. reflexivity. Qed.

(** Another client moved the todo to ONGOING and back: the server holds
    version 5.  The conflict is merged and the mutation is sent again with
    expected version 5, then succeeds and leaves the queue. *)
Example conflict_then_retry :
  let '(w, r, p, trace) :=
    run [Tick; ApiSettled (RespConflict (todo1 5 TODO t1));
         Tick; ApiSettled (RespOk (todo1 6 ONGOING t1))]
      (processMutations world "todo-1" 0) [] in
  trace = [Sent (request 3); Sent (request 5)] /\
  p = Exited /\
  getServerTodo (syncState w) "todo-1" = Some (todo1 6 ONGOING t1) /\
  pendingMutations (syncState w) = [] /\
  todos (todosStore w) = [todo1 6 ONGOING t1].
Proof. vm_compute. repeat split. Qed.

(** The conflict shows the todo already ONGOING: the mutation is moot and is
    dropped by the validation that follows. *)
Example conflict_then_moot :
  let '(w, r, p, trace) :=
    run [Tick; ApiSettled (RespConflict (todo1 4 ONGOING t1)); Tick]
      (processMutations world "todo-1" 0) [] in
  trace = [Sent (request 3)] /\ p = Exited /\
  pendingMutations (syncState w) = [] /\
  getServerTodo (syncState w) "todo-1" = Some (todo1 4 ONGOING t1).
Proof. vm_compute. repeat split. Qed.

Definition offline : ApiOutcome := Throws (OtherError "Failed to fetch").

Example ten_failures :
  let '(w, r, p, trace) :=
    run (ProcessorFacts.failureEvents (replicate 10 offline))
      (processMutations world "todo-1" 0) [] in
  p = Exited /\ run_attempt r = 10 /\
  getNextMutation (syncState w) "todo-1" = Some toOngoing /\
  length trace = 19%nat.
Proof. vm_compute. repeat split. Qed.

End ProcessorExamples.


Lemma network_failures_back_off_then_keep_mutation_witness :
  exists w' run' request,
    (Processor.executeMutation_send ProcessorExamples.world
       ProcessorExamples.toOngoing).2 = Some request /\
    Processor.runAlone JsDate.parseISO
      (ProcessorFacts.failureEvents (replicate 10 ProcessorExamples.offline))
      (Processor.processMutations ProcessorExamples.world "todo-1" 0) []
    = (w', run', Processor.Exited,
       [Processor.Sent request; Processor.Slept 1000;
        Processor.Sent request; Processor.Slept 2000;
        Processor.Sent request; Processor.Slept 4000;
        Processor.Sent request; Processor.Slept 8000;
        Processor.Sent request; Processor.Slept 16000;
        Processor.Sent request; Processor.Slept 32000;
        Processor.Sent request; Processor.Slept 64000;
        Processor.Sent request; Processor.Slept 128000;
        Processor.Sent request; Processor.Slept 256000;
        Processor.Sent request]) /\
    Processor.syncState w' = Processor.syncState ProcessorExamples.world /\
    SyncState.getNextMutation (Processor.syncState w') "todo-1"
    = Some ProcessorExamples.toOngoing.
Proof.
  apply (network_failures_back_off_then_keep_mutation JsDate.parseISO
           ProcessorExamples.world "todo-1" 0 ProcessorExamples.toOngoing
           (replicate 10 ProcessorExamples.offline)).
  - reflexivity.
  - reflexivity.
  - reflexivity.
  - reflexivity.
  - reflexivity.
  - repeat constructor.
Defined.

(** ** The server: routes, tokens and notifications *)

Module ServerFacts.
Import Store StoreFacts SyncToken.

(** On the server a token that [encodeSyncToken] made is read back. *)
Lemma decode_encode_node payload :
  decodeSyncToken node
    (Base64.encode (Json.stringify (payloadObject payload))) = Some payload.
Proof.
  unfold decodeSyncToken. cbn [decodedText node].
  rewrite Base64Facts.decode_encode. cbn [mbind option_bind].
  rewrite SyncTokenFacts.parse_stringify_payload. cbn [mbind option_bind].
  apply SyncTokenFacts.checkPayload_payloadObject.
Qed.

Lemma encode_bytes_nonempty b bs : Base64.encode_bytes (b :: bs) <> [].
Proof. destruct bs as [|b2 [|b3 bs]]; discriminate. Qed.

(** A token is never the empty string. *)
Lemma encode_truthy payload :
  JsString.truthy (Base64.encode (Json.stringify (payloadObject payload))) = true.
Proof.
  unfold Base64.encode, Json.stringify.
  rewrite list_ascii_of_string_of_list_ascii.
  unfold payloadObject. cbn [Json.stringify_units].
  match goal with
  | |- context [Base64.encode_bytes (?b :: ?bs)] =>
      pose proof (encode_bytes_nonempty b bs) as H;
      destruct (Base64.encode_bytes (b :: bs)); [congruence|reflexivity]
  end.
Qed.

(** What [getTodosForList] returns, on a store as the routes keep it. *)
Lemma getTodosForList_elem st l cursor todo :
  wf st ->
  todo ∈ getTodosForList st l cursor <->
  todos st !! id todo = Some todo /\ listId todo = l /\ afterCursor cursor todo.
Proof.
  intros Hwf. unfold getTodosForList.
  pose proof (wf_index st Hwf l) as Hidx.
  destruct (todosByList st !! l) as [ids|] eqn:E; simpl in Hidx.
  - rewrite sort_by_perm, list_elem_of_omap. split.
    + intros (k & Hk & Hsel).
      apply selectTodo_Some in Hsel as [Hget Haft]; [|exact (wf_updatedAt st Hwf)].
      pose proof (wf_id st Hwf _ _ Hget) as Hid.
      apply Hidx in Hk as (t & Ht & Hl).
      rewrite Hid. split; [exact Hget|]. split; [congruence|exact Haft].
    + intros (Hget & Hl & Haft). exists (id todo). split.
      * apply Hidx. eauto.
      * apply selectTodo_Some; [exact (wf_updatedAt st Hwf)|]. tauto.
  - split; [intros H; inversion H|].
    intros (Hget & Hl & _).
    assert (H : id todo ∈ @nil string) by (apply Hidx; eauto).
    inversion H.
Qed.

Lemma getTodosForList_sorted st l cursor :
  StronglySorted todo_le (getTodosForList st l cursor).
Proof.
  unfold getTodosForList. destruct (todosByList st !! l); [|constructor].
  apply sort_by_compareTodos_sorted.
Qed.

(** The last element of a sorted list is above all the others. *)
Lemma last_sorted_max (l : list Todo) x :
  StronglySorted todo_le l -> last l = Some x ->
  forall y, y ∈ l -> todo_le y x.
Proof.
  induction 1 as [|a l Hs IH Hall]; intros Hlast y Hy; [inversion Hy|].
  destruct l as [|b l].
  - simpl in Hlast. injection Hlast as <-.
    apply list_elem_of_singleton in Hy as ->. now right.
  - change (last (a :: b :: l)) with (last (b :: l)) in Hlast.
    apply elem_of_cons in Hy as [->|Hy]; [|now apply IH].
    rewrite Forall_forall in Hall.
    apply Hall. apply last_Some_elem_of. exact Hlast.
Qed.

Lemma key_le_not_lt a b : key_le a b -> ~ key_lt b a.
Proof.
  intros [H| ->] H'; [|exact (key_lt_irrefl _ H')].
  exact (key_lt_irrefl _ (key_lt_trans _ _ _ H H')).
Qed.

(** The cursor that the route makes of the query parameter. *)
Definition requestCursor (syncToken : option string)
  : option SyncTokenPayload :=
  match syncToken with
  | Some token =>
      if JsString.truthy token then decodeSyncToken node token else None
  | None => None
  end.

Definition cursorOf (p : SyncTokenPayload) : Cursor :=
  {| c_updatedAt := Some (lastUpdatedAt p); c_todoId := lastId p |}.

(** The payload of the token in the reply. *)
Definition replyPayload (todoList : list Todo) (asked : option SyncTokenPayload)
  : SyncTokenPayload :=
  match last todoList with
  | Some todo => {| lastUpdatedAt := updatedAt todo; lastId := Some (id todo) |}
  | None =>
      match asked with
      | Some p => p
      | None => {| lastUpdatedAt := "1970-01-01T00:00:00.000Z"; lastId := None |}
      end
  end.

(** The route, unfolded once and for all. *)
Lemma getTodos_unfold st l syncToken :
  listExists st l = true ->
  let asked := requestCursor syncToken in
  let todoList := getTodosForList st l (cursorOf <$> asked) in
  TodoRoutes.getTodos node st l syncToken
  = TodoRoutes.Ok todoList
      (Some (Base64.encode
               (Json.stringify (payloadObject (replyPayload todoList asked))))).
Proof.
  intros Hex. unfold TodoRoutes.getTodos. rewrite Hex. cbn [negb].
  unfold requestCursor, replyPayload, cursorOf.
  destruct syncToken as [token|]; cbn [fmap option_fmap option_map].
  - destruct (JsString.truthy token).
    + destruct (decodeSyncToken node token) as [[u i]|];
        cbn [option_map lastUpdatedAt lastId mbind option_bind c_updatedAt c_todoId].
      * destruct (last _); reflexivity.
      * destruct (last _); reflexivity.
    + cbn [option_map mbind option_bind]. destruct (last _); reflexivity.
  - destruct (last _); reflexivity.
Qed.

Lemma getTodos_not_found st l syncToken :
  listExists st l = false ->
  TodoRoutes.getTodos node st l syncToken = TodoRoutes.ListNotFound.
Proof. intros H. unfold TodoRoutes.getTodos. rewrite H. reflexivity. Qed.

Lemma list_empty_no_elem {A} (l : list A) : (forall x, x ∉ l) -> l = [].
Proof.
  destruct l as [|a l]; [reflexivity|]. intros H.
  exfalso. apply (H a). apply elem_of_cons. now left.
Qed.

(** Nothing lies beyond the cursor that a reply hands out. *)
Lemma nothing_after_reply st l asked :
  wf st ->
  getTodosForList st l
    (Some (cursorOf (replyPayload (getTodosForList st l (cursorOf <$> asked)) asked)))
  = [].
Proof.
  intros Hwf. set (todoList := getTodosForList st l (cursorOf <$> asked)).
  unfold replyPayload. destruct (last todoList) as [x|] eqn:Hlast.
  - apply list_empty_no_elem. intros t Ht.
    apply getTodosForList_elem in Ht as (Hget & Hl & Haft); [|exact Hwf].
    unfold afterCursor, cursorKey, cursorOf in Haft. simpl in Haft.
    pose proof (last_Some_elem_of _ _ Hlast) as Hx.
    pose proof Hx as Hx'.
    apply getTodosForList_elem in Hx' as (_ & _ & Hxaft); [|exact Hwf].
    assert (Hin : t ∈ todoList).
    { apply getTodosForList_elem; [exact Hwf|].
      split; [exact Hget|]. split; [exact Hl|].
      unfold afterCursor in *. destruct (cursorKey (cursorOf <$> asked)); [|exact I].
      eapply key_lt_trans; eassumption. }
    pose proof (last_sorted_max _ _ (getTodosForList_sorted _ _ _) Hlast _ Hin) as Hle.
    exact (key_le_not_lt _ _ Hle Haft).
  - apply last_None in Hlast. destruct asked as [p|].
    + exact Hlast.
    + apply list_empty_no_elem. intros t Ht.
      apply getTodosForList_elem in Ht as (Hget & Hl & _); [|exact Hwf].
      assert (Hin : t ∈ todoList).
      { apply getTodosForList_elem; [exact Hwf|]. repeat split; assumption. }
      rewrite Hlast in Hin. inversion Hin.
Qed.

Lemma requestCursor_token payload :
  requestCursor
    (Some (Base64.encode (Json.stringify (payloadObject payload)))) = Some payload.
Proof.
  unfold requestCursor. rewrite encode_truthy. apply decode_encode_node.
Qed.

Lemma wf_createList st list : wf st -> wf (createList st list).1.
Proof. intros [H1 H2 H3 H4]. split; assumption. Qed.

End ServerFacts.

(** X1: on an existing list the delta-sync route answers with a token that
    decodes to the new cursor: the [(updatedAt, id)] of the last todo it
    returns; when it returns no todo, the cursor that was asked for; and the
    epoch without an id when none was asked for. *)
Theorem getTodos_token_is_the_new_cursor
    (st : Store.t) (l : string) (syncToken : option string) :
  Store.listExists st l = true ->
  exists todoList token payload,
    TodoRoutes.getTodos SyncToken.node st l syncToken
    = TodoRoutes.Ok todoList (Some token) /\
    SyncToken.decodeSyncToken SyncToken.node token = Some payload /\
    match last todoList, ServerFacts.requestCursor syncToken with
    | Some todo, _ =>
        payload = {| SyncToken.lastUpdatedAt := updatedAt todo;
                     SyncToken.lastId := Some (id todo) |}
    | None, Some asked => payload = asked
    | None, None =>
        payload = {| SyncToken.lastUpdatedAt := "1970-01-01T00:00:00.000Z";
                     SyncToken.lastId := None |}
    end.
Proof.
  intros Hex. do 3 eexists. split; [|split].
  - apply (ServerFacts.getTodos_unfold _ _ _ Hex).
  - apply ServerFacts.decode_encode_node.
  - unfold ServerFacts.replyPayload.
    destruct (last _); [reflexivity|].
    destruct (ServerFacts.requestCursor syncToken); reflexivity.
Qed.

(** X2: a client that syncs again with the token it was just given, with no
    write in between, is sent no todo and the same token. *)
Theorem delta_sync_again_returns_nothing
    (st : Store.t) (l : string) (syncToken : option string)
    (todoList : list Todo) (token : string) :
  StoreFacts.wf st ->
  TodoRoutes.getTodos SyncToken.node st l syncToken
  = TodoRoutes.Ok todoList (Some token) ->
  TodoRoutes.getTodos SyncToken.node st l (Some token)
  = TodoRoutes.Ok [] (Some token).
Proof.
  intros Hwf H.
  destruct (Store.listExists st l) eqn:Hex;
    [|rewrite ServerFacts.getTodos_not_found in H by exact Hex; discriminate].
  rewrite (ServerFacts.getTodos_unfold _ _ _ Hex) in H. cbv zeta in H.
  injection H as <- <-.
  rewrite (ServerFacts.getTodos_unfold _ _ _ Hex). cbv zeta.
  rewrite ServerFacts.requestCursor_token.
  cbn [fmap option_fmap option_map].
  rewrite ServerFacts.nothing_after_reply by exact Hwf.
  reflexivity.
Qed.

(** *** The subscribers of a list *)

Module SseFacts.
Import Sse.

(** The connections registered for a list. *)
Definition subscribersOf (subscribers : Sse.t) (l : string) : list Connection :=
  default [] (subscribers !! l).

(** Every stored set is a set: no connection twice. *)
Definition sets (subscribers : Sse.t) : Prop :=
  forall l, NoDup (subscribersOf subscribers l).

Lemma sets_empty : sets ∅.
Proof. intros l. unfold subscribersOf. rewrite lookup_empty. apply NoDup_nil_2. Qed.

Lemma elem_of_connection_add r r' s : r' ∈ set_add r s <-> r' ∈ s \/ r' = r.
Proof.
  unfold set_add. destruct (decide (r ∈ s)) as [Hin|Hin].
  - split; [tauto|]. intros [H| ->]; assumption.
  - rewrite elem_of_app, list_elem_of_singleton. tauto.
Qed.

Lemma NoDup_connection_add r s : NoDup s -> NoDup (set_add r s).
Proof.
  intros Hs. unfold set_add. destruct (decide (r ∈ s)) as [Hin|Hin]; [exact Hs|].
  apply NoDup_app. split; [exact Hs|]. split.
  - intros x Hx Hx'. apply list_elem_of_singleton in Hx'. congruence.
  - apply NoDup_singleton.
Qed.

Lemma subscribersOf_subscribe subscribers l r l' r' :
  r' ∈ subscribersOf (subscribe subscribers l r) l' <->
  r' ∈ subscribersOf subscribers l' \/ (l' = l /\ r' = r).
Proof.
  unfold subscribersOf, subscribe. destruct (decide (l = l')) as [<-|Hne].
  - rewrite lookup_insert_eq. simpl. rewrite elem_of_connection_add. tauto.
  - rewrite lookup_insert_ne by exact Hne. split; [tauto|].
    intros [H|[E _]]; [exact H|congruence].
Qed.

Lemma subscribersOf_unsubscribe subscribers l r l' r' :
  r' ∈ subscribersOf (unsubscribe subscribers l r) l' <->
  r' ∈ subscribersOf subscribers l' /\ ~ (l' = l /\ r' = r).
Proof.
  unfold subscribersOf, unsubscribe.
  destruct (subscribers !! l) as [s|] eqn:E.
  - destruct (decide (length (set_delete r s) = 0%nat)) as [Hlen|Hlen].
    + destruct (decide (l = l')) as [<-|Hne].
      * rewrite lookup_delete_eq, E. simpl.
        apply nil_length_inv in Hlen. split; [intros H; inversion H|].
        intros [H Hn]. exfalso.
        assert (Hin : r' ∈ set_delete r s).
        { apply list_elem_of_filter. split; [|exact H]. intros ->. tauto. }
        rewrite Hlen in Hin. inversion Hin.
      * rewrite lookup_delete_ne by exact Hne. split; [|tauto].
        intros H. split; [exact H|]. intros [E' _]. congruence.
    + destruct (decide (l = l')) as [<-|Hne].
      * rewrite lookup_insert_eq, E. simpl. unfold set_delete.
        rewrite list_elem_of_filter. split.
        -- intros [Hr H]. split; [exact H|]. intros [_ E']. congruence.
        -- intros [H Hn]. split; [|exact H]. intros ->. tauto.
      * rewrite lookup_insert_ne by exact Hne. split; [|tauto].
        intros H. split; [exact H|]. intros [E' _]. congruence.
  - split; [|tauto]. intros H. split; [exact H|].
    intros [-> _]. rewrite E in H. inversion H.
Qed.

Lemma subscribersOf_notifyListChanged writeThrows subscribers l l' r' :
  r' ∈ subscribersOf (notifyListChanged writeThrows subscribers l).1 l' <->
  r' ∈ subscribersOf subscribers l' /\ (l' = l -> writeThrows r' = false).
Proof.
  unfold subscribersOf, notifyListChanged.
  destruct (subscribers !! l) as [s|] eqn:E; cbn [fst].
  - destruct (decide (l = l')) as [<-|Hne].
    + rewrite lookup_insert_eq, E. simpl. rewrite list_elem_of_filter. tauto.
    + rewrite lookup_insert_ne by exact Hne. split; [|tauto].
      intros H. split; [exact H|]. congruence.
  - split; [|tauto]. intros H. split; [exact H|].
    intros ->. rewrite E in H. inversion H.
Qed.

Lemma written_notifyListChanged writeThrows subscribers l r' m :
  (r', m) ∈ (notifyListChanged writeThrows subscribers l).2 <->
  m = message /\ r' ∈ subscribersOf subscribers l /\ writeThrows r' = false.
Proof.
  unfold subscribersOf, notifyListChanged.
  destruct (subscribers !! l) as [s|] eqn:E; cbn [snd].
  - rewrite list_elem_of_fmap. simpl. split.
    + intros (r & [= -> ->] & Hr). apply list_elem_of_filter in Hr. tauto.
    + intros (-> & Hr & Ht). exists r'. split; [reflexivity|].
      apply list_elem_of_filter. tauto.
  - simpl. split; [intros H; inversion H|]. intros (_ & H & _). inversion H.
Qed.

Lemma sets_subscribe subscribers l r : sets subscribers -> sets (subscribe subscribers l r).
Proof.
  intros H l'. unfold subscribersOf, subscribe. destruct (decide (l = l')) as [<-|Hne].
  - rewrite lookup_insert_eq. simpl. apply NoDup_connection_add. apply H.
  - rewrite lookup_insert_ne by exact Hne. apply H.
Qed.

Lemma sets_unsubscribe subscribers l r :
  sets subscribers -> sets (unsubscribe subscribers l r).
Proof.
  intros H l'. unfold subscribersOf, unsubscribe.
  destruct (subscribers !! l) as [s|] eqn:E; [|apply H].
  destruct (decide (length (set_delete r s) = 0%nat)) as [Hlen|Hlen].
  - destruct (decide (l = l')) as [<-|Hne].
    + rewrite lookup_delete_eq. apply NoDup_nil_2.
    + rewrite lookup_delete_ne by exact Hne. apply H.
  - destruct (decide (l = l')) as [<-|Hne].
    + rewrite lookup_insert_eq. simpl. apply NoDup_filter.
      specialize (H l). unfold subscribersOf in H. rewrite E in H. exact H.
    + rewrite lookup_insert_ne by exact Hne. apply H.
Qed.

Lemma sets_notifyListChanged writeThrows subscribers l :
  sets subscribers -> sets (notifyListChanged writeThrows subscribers l).1.
Proof.
  intros H l'. unfold subscribersOf, notifyListChanged.
  destruct (subscribers !! l) as [s|] eqn:E; cbn [fst]; [|apply H].
  destruct (decide (l = l')) as [<-|Hne].
  - rewrite lookup_insert_eq. simpl. apply NoDup_filter.
    specialize (H l). unfold subscribersOf in H. rewrite E in H. exact H.
  - rewrite lookup_insert_ne by exact Hne. apply H.
Qed.

Lemma NoDup_written writeThrows subscribers l :
  sets subscribers -> NoDup (notifyListChanged writeThrows subscribers l).2.*1.
Proof.
  intros H. unfold notifyListChanged.
  destruct (subscribers !! l) as [s|] eqn:E; cbn [snd]; [|apply NoDup_nil_2].
  rewrite <- list_fmap_compose.
  rewrite (list_fmap_ext _ Datatypes.id (filter (fun r => writeThrows r = false) s))
    by reflexivity.
  rewrite list_fmap_id. apply NoDup_filter.
  specialize (H l). unfold subscribersOf in H. rewrite E in H. exact H.
Qed.

End SseFacts.

(** X4: the registry of event streams works as a map of sets.  After
    [subscribe] the connection is registered for the list, after
    [unsubscribe] it no longer is; every other registration is as before.
    [notifyListChanged] writes the message once to each connection
    registered for the list on which the write does not throw, to no other
    connection, and drops from the list those on which it threw. *)
Theorem subscribers_are_a_map_of_sets
    (writeThrows : Sse.Connection -> bool) (subscribers : Sse.t) (l : string)
    (r : Sse.Connection) :
  (forall l' r',
      r' ∈ SseFacts.subscribersOf (Sse.subscribe subscribers l r) l' <->
      r' ∈ SseFacts.subscribersOf subscribers l' \/ (l' = l /\ r' = r)) /\
  (forall l' r',
      r' ∈ SseFacts.subscribersOf (Sse.unsubscribe subscribers l r) l' <->
      r' ∈ SseFacts.subscribersOf subscribers l' /\ ~ (l' = l /\ r' = r)) /\
  (forall r' m,
      (r', m) ∈ (Sse.notifyListChanged writeThrows subscribers l).2 <->
      m = Sse.message /\ r' ∈ SseFacts.subscribersOf subscribers l /\
      writeThrows r' = false) /\
  (forall l' r',
      r' ∈ SseFacts.subscribersOf
             (Sse.notifyListChanged writeThrows subscribers l).1 l' <->
      r' ∈ SseFacts.subscribersOf subscribers l' /\
      (l' = l -> writeThrows r' = false)) /\
  (SseFacts.sets subscribers ->
   SseFacts.sets (Sse.subscribe subscribers l r) /\
   SseFacts.sets (Sse.unsubscribe subscribers l r) /\
   SseFacts.sets (Sse.notifyListChanged writeThrows subscribers l).1 /\
   NoDup (Sse.notifyListChanged writeThrows subscribers l).2.*1).
Proof.
  split; [intros l' r'; apply SseFacts.subscribersOf_subscribe|].
  split; [intros l' r'; apply SseFacts.subscribersOf_unsubscribe|].
  split; [intros r' m; apply SseFacts.written_notifyListChanged|].
  split; [intros l' r'; apply SseFacts.subscribersOf_notifyListChanged|].
  intros H. split; [now apply SseFacts.sets_subscribe|].
  split; [now apply SseFacts.sets_unsubscribe|].
  split; [now apply SseFacts.sets_notifyListChanged|].
  now apply SseFacts.NoDup_written.
Qed.

(** *** The invariant of the server *)

Module WriteRouteFacts.
Import Store StoreFacts SyncToken Api Server TodoWriteRoutes.

Lemma toISOString_nonempty c s : JsDate.toISOString c = Some s -> s <> "".
Proof.
  unfold JsDate.toISOString. destruct (Z.abs c <=? JsDate.maxTimeValue)%Z; [|discriminate].
  intros [= <-] H. apply (f_equal String.length) in H.
  rewrite JsDateFacts.length_app in H. simpl in H. lia.
Qed.

(** The counter after a call of [getMonotonicISOString]. *)
Definition nextClock (last nowMs : Z) : Z :=
  (Time.getMonotonicISOString last nowMs).1.

Lemma getMonotonicISOString_eq last nowMs :
  Time.getMonotonicISOString last nowMs
  = (nextClock last nowMs, JsDate.toISOString (nextClock last nowMs)).
Proof. reflexivity. Qed.

Lemma nextClock_gt last nowMs : last < nextClock last nowMs.
Proof. apply TimeFacts.counter_advances. Qed.

(** What the routes maintain, beyond the shape of the store: every stored
    todo has a version of at least 1, belongs to an existing list, and was
    last stamped by the monotonic clock, not after its present value; lists
    and users are stored under their own ids, a join key leads to a stored
    list, and the subscribers of a list are a set. *)
Record inv (sv : Server.t) : Prop := mk_inv {
  inv_wf : wf (store sv);
  inv_clock : 0 <= lastMonotonicTimestampMs sv;
  inv_stamps : forall k todo,
    todos (store sv) !! k = Some todo ->
    exists c, 0 <= c <= lastMonotonicTimestampMs sv /\
              JsDate.toISOString c = Some (updatedAt todo);
  inv_lists : forall k todo,
    todos (store sv) !! k = Some todo -> listExists (store sv) (listId todo) = true;
  inv_version : forall k todo,
    todos (store sv) !! k = Some todo -> 1 <= version todo;
  inv_list_id : forall i list,
    lists (store sv) !! i = Some list -> list_id list = i;
  inv_join : forall key i,
    Directory.listsByJoinKey (directory sv) !! key = Some i ->
    is_Some (lists (store sv) !! i);
  inv_user_id : forall i u,
    Directory.users (directory sv) !! i = Some u -> Stores.user_id u = i;
  inv_subscribers : SseFacts.sets (subscribers sv)
}.

Lemma inv_initial : inv Server.initial.
Proof.
  split; simpl; try (intros k todo H; rewrite lookup_empty in H; discriminate).
  - apply wf_empty.
  - unfold Time.initial. lia.
  - apply SseFacts.sets_empty.
Qed.

(** The store and the directory as they were, the clock not behind. *)
Lemma inv_frame sv sv' :
  store sv' = store sv -> directory sv' = directory sv ->
  lastMonotonicTimestampMs sv <= lastMonotonicTimestampMs sv' ->
  SseFacts.sets (subscribers sv') ->
  inv sv -> inv sv'.
Proof.
  intros Est Ed Hle Hsubs [H1 H2 H3 H4 H5 H6 H7 H8 H9].
  split; rewrite ?Est, ?Ed; try assumption.
  - lia.
  - intros k todo H. destruct (H3 _ _ H) as (c & Hc & E). exists c. split; [lia|exact E].
Qed.

Lemma inv_bootstrapRoute uuid now sv userId :
  inv sv -> inv (server (AuthRoutes.bootstrapRoute uuid now sv userId)).
Proof.
  intros Hinv. unfold AuthRoutes.bootstrapRoute.
  destruct (match userId with
            | Some i => if JsString.truthy i then Directory.getUser (directory sv) i else None
            | None => None
            end); [exact Hinv|].
  cbn [Directory.createUser server].
  destruct Hinv as [H1 H2 H3 H4 H5 H6 H7 H8 H9]. split; try assumption.
  cbn [directory Directory.users]. intros i u H.
  apply lookup_insert_Some in H as [[<- <-]|[_ H]]; [reflexivity|eauto].
Qed.

Lemma inv_createListRoute uuid key now sv userId :
  inv sv -> inv (server (ListRoutes.createListRoute uuid key now sv userId)).
Proof.
  intros Hinv. unfold ListRoutes.createListRoute.
  destruct (Directory.getUser (directory sv) userId); [|exact Hinv].
  cbn [Directory.createList Store.createList fst server].
  destruct Hinv as [H1 H2 H3 H4 H5 H6 H7 H8 H9].
  split; cbn [store directory lastMonotonicTimestampMs lists todos list_id
              Directory.indexList Directory.listsByJoinKey Directory.users joinKey];
    try assumption.
  - destruct H1 as [A B C D]. split; assumption.
  - intros k todo H. specialize (H4 _ _ H). unfold listExists in *.
    cbn [lists]. apply bool_decide_eq_true. apply bool_decide_eq_true in H4.
    destruct (decide (uuid = listId todo)) as [<-|Hne].
    + rewrite lookup_insert_eq. eauto.
    + rewrite lookup_insert_ne by exact Hne. exact H4.
  - intros i list H. apply lookup_insert_Some in H as [[<- <-]|[_ H]]; [reflexivity|eauto].
  - intros k i H. apply lookup_insert_Some in H as [[_ <-]|[_ H]].
    + rewrite lookup_insert_eq. eauto.
    + destruct (decide (uuid = i)) as [<-|Hne].
      * rewrite lookup_insert_eq. eauto.
      * rewrite lookup_insert_ne by exact Hne. eauto.
Qed.

Lemma inv_joinListRoute sv userId key :
  inv sv -> inv (server (ListRoutes.joinListRoute sv userId key)).
Proof.
  intros Hinv. unfold ListRoutes.joinListRoute.
  destruct (Directory.getUser _ _); [|exact Hinv].
  destruct (Directory.getListByJoinKey _ _ _); exact Hinv.
Qed.

Lemma inv_with_subscribers sv subs :
  SseFacts.sets subs -> inv sv -> inv (with_subscribers sv subs).
Proof. intros H. apply inv_frame; simpl; [reflexivity|reflexivity|lia|exact H]. Qed.

Lemma inv_eventsRoute sv l reply :
  inv sv -> inv (server (EventRoutes.eventsRoute sv l reply)).
Proof.
  intros Hinv. unfold EventRoutes.eventsRoute.
  destruct (listExists (store sv) l); [|exact Hinv].
  apply inv_with_subscribers; [|exact Hinv].
  apply SseFacts.sets_subscribe. exact (inv_subscribers _ Hinv).
Qed.

Section WithEnvironment.
Variable parseDate : string -> option Z.
Variable nowMs : Z.
Variable writeThrows : Sse.Connection -> bool.

Lemma inv_createTodoRoute sv l body :
  inv sv -> inv (server (createTodoRoute parseDate nowMs writeThrows sv l body)).
Proof.
  intros Hinv. unfold createTodoRoute.
  destruct (Validation.isValidIdentifier (ct_id body)); [|exact Hinv].
  destruct (Validation.isValidISOString parseDate (ct_createdAt body)); [|exact Hinv].
  destruct (listExists (store sv) l) eqn:Hex; [|exact Hinv].
  cbn [negb]. destruct (getTodo (store sv) (ct_id body)) eqn:Hget; [exact Hinv|].
  unfold getTodo in Hget. rewrite getMonotonicISOString_eq.
  pose proof (nextClock_gt (lastMonotonicTimestampMs sv) nowMs) as Hgt.
  set (last := nextClock (lastMonotonicTimestampMs sv) nowMs) in *.
  destruct (JsDate.toISOString last) as [stamp|] eqn:Hstamp.
  - cbn [createTodo].
    pose proof (SseFacts.sets_notifyListChanged writeThrows (subscribers sv) l
                  (inv_subscribers _ Hinv)) as Hsubs.
    destruct (Sse.notifyListChanged _ _ _) as [subs writes].
    cbn [server]. destruct Hinv as [H1 H2 H3 H4 H5 H6 H7 H8 H9].
    split; cbn [store directory lastMonotonicTimestampMs subscribers];
      try assumption.
    + apply wf_createTodo; [exact H1|exact Hget|]. simpl.
      exact (toISOString_nonempty _ _ Hstamp).
    + lia.
    + intros k t H. simpl in H.
      apply lookup_insert_Some in H as [[_ <-]|[_ H]]; simpl.
      * exists last. split; [lia|exact Hstamp].
      * destruct (H3 _ _ H) as (c & Hc & E). exists c. split; [lia|exact E].
    + intros k t H. simpl in H. unfold listExists in *. simpl.
      apply lookup_insert_Some in H as [[_ <-]|[_ H]]; simpl; [exact Hex|eauto].
    + intros k t H. simpl in H.
      apply lookup_insert_Some in H as [[_ <-]|[_ H]]; simpl; [lia|eauto].
  - cbn [server].
    apply (inv_frame sv); simpl;
      [reflexivity|reflexivity|lia|exact (inv_subscribers _ Hinv)|exact Hinv].
Qed.

(** The three ways [compareAndSwapTodo] ends. *)
Lemma compareAndSwapTodo_cases st k v u st' r :
  compareAndSwapTodo st k v u = (st', r) ->
  (todos st !! k = None /\ r = NotFound /\ st' = st) \/
  (exists todo, todos st !! k = Some todo /\ version todo <> v /\
                r = Conflict todo /\ st' = st) \/
  (exists todo, todos st !! k = Some todo /\ version todo = v /\
                r = Success (set_version (assign todo u) (v + 1)) /\
                st' = {| lists := lists st;
                         todos := <[k := set_version (assign todo u) (v + 1)]> (todos st);
                         todosByList := todosByList st |}).
Proof.
  unfold compareAndSwapTodo. destruct (todos st !! k) as [todo|].
  - destruct (decide (version todo = v)) as [Hv|Hv]; intros [= <- <-].
    + right; right. exists todo. repeat split; assumption.
    + right; left. exists todo. repeat split; assumption.
  - intros [= <- <-]. left. repeat split.
Qed.

(** The updates that the route hands to [compareAndSwapTodo]. *)
Definition stateUpdate (next : TodoState) (stamp : string) : TodoUpdates :=
  {| u_title := None; u_state := Some next; u_updatedAt := Some stamp;
     u_version := None; u_deletedAt := None |}.

Lemma inv_updateTodoStateRoute sv k body :
  inv sv -> inv (server (updateTodoStateRoute nowMs writeThrows sv k body)).
Proof.
  intros Hinv. unfold updateTodoStateRoute.
  destruct (getTodo (store sv) k) as [todo|] eqn:Hget; [|exact Hinv].
  destruct (match deletedAt todo with Some d => JsString.truthy d | None => false end);
    [exact Hinv|].
  destruct (StateMachine.isValidTransition (state todo) (us_nextState body));
    [|exact Hinv].
  cbn [negb]. rewrite getMonotonicISOString_eq.
  pose proof (nextClock_gt (lastMonotonicTimestampMs sv) nowMs) as Hgt.
  set (last := nextClock (lastMonotonicTimestampMs sv) nowMs) in *.
  destruct (JsDate.toISOString last) as [stamp|] eqn:Hstamp;
    [|cbn [server]; apply (inv_frame sv); simpl;
      [reflexivity|reflexivity|lia|exact (inv_subscribers _ Hinv)|exact Hinv]].
  fold (stateUpdate (us_nextState body) stamp).
  destruct (compareAndSwapTodo _ _ _ _) as [st r] eqn:Hcas.
  assert (Hwf : wf st).
  { pose proof (wf_compareAndSwapTodo (store sv) k (us_expectedVersion body)
                  (stateUpdate (us_nextState body) stamp) (inv_wf _ Hinv)) as H.
    rewrite Hcas in H. apply H. simpl.
    intros [= E]. exact (toISOString_nonempty _ _ Hstamp E). }
  assert (Hsame :
    st = store sv ->
    inv {| store := st; directory := directory sv;
           lastMonotonicTimestampMs := last; subscribers := subscribers sv |}).
  { intros ->.
    apply (inv_frame sv); simpl;
      [reflexivity|reflexivity|lia|exact (inv_subscribers _ Hinv)|exact Hinv]. }
  apply compareAndSwapTodo_cases in Hcas
    as [(_ & -> & E)|[(t & _ & _ & -> & E)|(t & Ht & Hv & -> & E)]].
  - cbn [reject server]. now apply Hsame.
  - cbn [reject server]. now apply Hsame.
  - pose proof (SseFacts.sets_notifyListChanged writeThrows (subscribers sv)
                  (listId (set_version (assign t (stateUpdate (us_nextState body) stamp))
                             (us_expectedVersion body + 1)))
                  (inv_subscribers _ Hinv)) as Hsubs.
    destruct (Sse.notifyListChanged _ _ _) as [subs writes]. cbn [server].
    destruct Hinv as [H1 H2 H3 H4 H5 H6 H7 H8 H9].
    split; cbn [store directory lastMonotonicTimestampMs subscribers];
      [exact Hwf|lia|..]; subst st; cbn [todos lists]; try assumption;
      intros k' t' H; apply lookup_insert_Some in H as [[_ <-]|[_ H]].
    + exists last. split; [lia|exact Hstamp].
    + destruct (H3 _ _ H) as (c & Hc & E). exists c. split; [lia|exact E].
    + unfold listExists in *. simpl. exact (H4 _ _ Ht).
    + unfold listExists in *. simpl. exact (H4 _ _ H).
    + simpl. specialize (H5 _ _ Ht). lia.
    + eauto.
Qed.

End WithEnvironment.

Lemma inv_handle parseDate sv r : inv sv -> inv (App.handle parseDate sv r).
Proof.
  intros Hinv. destruct r; cbn [App.handle].
  - now apply inv_bootstrapRoute.
  - now apply inv_createListRoute.
  - now apply inv_joinListRoute.
  - exact Hinv.
  - now apply inv_createTodoRoute.
  - now apply inv_updateTodoStateRoute.
  - now apply inv_eventsRoute.
  - apply inv_with_subscribers; [|exact Hinv].
    apply SseFacts.sets_unsubscribe. exact (inv_subscribers _ Hinv).
Qed.

Lemma inv_run parseDate requests : forall sv,
  inv sv -> inv (App.run parseDate sv requests).
Proof.
  induction requests as [|r requests IH]; intros sv Hinv; [exact Hinv|].
  apply IH. now apply inv_handle.
Qed.

End WriteRouteFacts.

(** X3: whatever requests the server has answered since it started, and
    whatever it answered, every stored todo has a version of at least 1,
    lies under its own id in the index of an existing list, once, and
    carries an [updatedAt] stamped by the monotonic clock, not later than
    the present value of its counter; lists and users lie under their own
    ids, every join key leads to a stored list, and no event stream is
    registered twice for a list. *)
Theorem server_stays_in_order
    (parseDate : string -> option Z) (requests : list App.Request) :
  WriteRouteFacts.inv (App.run parseDate Server.initial requests).
Proof. apply WriteRouteFacts.inv_run. exact WriteRouteFacts.inv_initial. Qed.

(** *** The update route *)

Module UpdateRouteFacts.
Import Store StoreFacts Api Server TodoWriteRoutes WriteRouteFacts.

(** A todo that [PATCH] treats as deleted. *)
Definition softDeleted (todo : Todo) : Prop :=
  exists d, deletedAt todo = Some d /\ d <> "".

Lemma softDeleted_spec todo :
  match deletedAt todo with Some d => JsString.truthy d | None => false end = true
  <-> softDeleted todo.
Proof.
  unfold softDeleted. destruct (deletedAt todo) as [d|].
  - rewrite JsString.truthy_nonempty. split.
    + intros H. exists d. split; [reflexivity|exact H].
    + intros (d' & [= <-] & H). exact H.
  - split; [discriminate|]. intros (d & H & _). discriminate.
Qed.

End UpdateRouteFacts.

(** X5: when [PATCH /todos/:todoId/state] answers 200, the todo was stored,
    not soft-deleted, at the expected version, and the transition is one the
    state machine allows; the todo it returns is the stored one with the new
    state, the version increased by exactly one and a fresh timestamp of the
    monotonic clock, every other field as before; it is what the store now
    holds under the id, and no other todo has changed. *)
Theorem updateTodoStateRoute_success
    (nowMs : Z) (writeThrows : Sse.Connection -> bool) (sv : Server.t)
    (k : string) (body : TodoWriteRoutes.UpdateTodoStateRequest) (todo' : Todo) :
  let r := TodoWriteRoutes.updateTodoStateRoute nowMs writeThrows sv k body in
  Server.outcome r = Api.Replied 200 (Api.TodoBody todo') ->
  exists old,
    Store.getTodo (Server.store sv) k = Some old /\
    ~ UpdateRouteFacts.softDeleted old /\
    StateMachine.isValidTransition (state old) (TodoWriteRoutes.us_nextState body)
    = true /\
    version old = TodoWriteRoutes.us_expectedVersion body /\
    state todo' = TodoWriteRoutes.us_nextState body /\
    version todo' = version old + 1 /\
    Server.lastMonotonicTimestampMs sv
    < Server.lastMonotonicTimestampMs (Server.server r) /\
    JsDate.toISOString (Server.lastMonotonicTimestampMs (Server.server r))
    = Some (updatedAt todo') /\
    id todo' = id old /\ listId todo' = listId old /\ title todo' = title old /\
    createdBy todo' = createdBy old /\ createdAt todo' = createdAt old /\
    deletedAt todo' = deletedAt old /\
    Store.getTodo (Server.store (Server.server r)) k = Some todo' /\
    (forall k', k' <> k ->
        Store.getTodo (Server.store (Server.server r)) k'
        = Store.getTodo (Server.store sv) k').
Proof.
  intros r. subst r. unfold TodoWriteRoutes.updateTodoStateRoute.
  destruct (Store.getTodo (Server.store sv) k) as [old|] eqn:Hget;
    [|discriminate].
  destruct (match deletedAt old with Some d => JsString.truthy d | None => false end)
    eqn:Hdel; [discriminate|].
  destruct (StateMachine.isValidTransition (state old)
              (TodoWriteRoutes.us_nextState body)) eqn:Hvalid; [|discriminate].
  cbn [negb]. rewrite WriteRouteFacts.getMonotonicISOString_eq.
  pose proof (WriteRouteFacts.nextClock_gt
                (Server.lastMonotonicTimestampMs sv) nowMs) as Hgt.
  set (last := WriteRouteFacts.nextClock _ _) in *.
  destruct (JsDate.toISOString last) as [stamp|] eqn:Hstamp; [|discriminate].
  destruct (Store.compareAndSwapTodo _ _ _ _) as [st res] eqn:Hcas.
  apply WriteRouteFacts.compareAndSwapTodo_cases in Hcas
    as [(_ & -> & E)|[(t & _ & _ & -> & E)|(t & Ht & Hv & -> & E)]];
    [discriminate|discriminate|].
  destruct (Sse.notifyListChanged _ _ _) as [subs writes].
  cbn [Server.outcome Server.server Server.store Server.lastMonotonicTimestampMs].
  intros [= <-]. unfold Store.getTodo in Hget. rewrite Hget in Ht.
  injection Ht as <-. exists old. split; [reflexivity|].
  split. { intros H. apply UpdateRouteFacts.softDeleted_spec in H. congruence. }
  subst st. cbn [Store.todos]. unfold Store.getTodo. cbn [Store.todos].
  repeat (split; [first [reflexivity | assumption | lia]|]).
  split; [simpl; lia|].
  repeat (split; [first [reflexivity | assumption | lia]|]).
  split; [apply lookup_insert_eq|].
  intros k' Hk'. apply lookup_insert_ne. congruence.
Qed.

(** X6: every other answer of [PATCH /todos/:todoId/state] leaves the store,
    the directory and the subscribers as they were and notifies nobody.
    It is 404 when no todo is stored under the id or the stored one is
    soft-deleted; 400 when the state machine does not allow the transition
    from the stored state; and 409, carrying the stored todo, when the
    stored version is not the expected one. *)
Theorem updateTodoStateRoute_refusal
    (nowMs : Z) (writeThrows : Sse.Connection -> bool) (sv : Server.t)
    (k : string) (body : TodoWriteRoutes.UpdateTodoStateRequest)
    (status : Z) (e : Api.ApiError) :
  let r := TodoWriteRoutes.updateTodoStateRoute nowMs writeThrows sv k body in
  Server.outcome r = Api.Replied status (Api.ErrorBody e) ->
  Server.store (Server.server r) = Server.store sv /\
  Server.directory (Server.server r) = Server.directory sv /\
  Server.subscribers (Server.server r) = Server.subscribers sv /\
  Server.written r = [] /\
  match Api.code e with
  | Api.NOT_FOUND =>
      status = 404 /\ Api.details e = None /\
      (Store.getTodo (Server.store sv) k = None \/
       exists old, Store.getTodo (Server.store sv) k = Some old /\
                   UpdateRouteFacts.softDeleted old)
  | Api.INVALID_TRANSITION =>
      status = 400 /\ Api.details e = None /\
      exists old, Store.getTodo (Server.store sv) k = Some old /\
                  ~ UpdateRouteFacts.softDeleted old /\
                  StateMachine.isValidTransition (state old)
                    (TodoWriteRoutes.us_nextState body) = false
  | Api.VERSION_CONFLICT =>
      status = 409 /\
      exists old, Store.getTodo (Server.store sv) k = Some old /\
                  Api.details e = Some old /\
                  ~ UpdateRouteFacts.softDeleted old /\
                  StateMachine.isValidTransition (state old)
                    (TodoWriteRoutes.us_nextState body) = true /\
                  version old <> TodoWriteRoutes.us_expectedVersion body
  | _ => False
  end.
Proof.
  intros r. subst r. unfold TodoWriteRoutes.updateTodoStateRoute.
  destruct (Store.getTodo (Server.store sv) k) as [old|] eqn:Hget.
  2:{ cbn [Server.reject Server.outcome Server.server Server.written].
      intros [= <- <-]. cbn [Api.code Api.details]. repeat split. now left. }
  destruct (match deletedAt old with Some d => JsString.truthy d | None => false end)
    eqn:Hdel.
  { cbn [Server.reject Server.outcome Server.server Server.written].
    intros [= <- <-]. cbn [Api.code Api.details]. repeat split. right.
    exists old. split; [reflexivity|]. now apply UpdateRouteFacts.softDeleted_spec. }
  assert (Hnd : ~ UpdateRouteFacts.softDeleted old).
  { intros H. apply UpdateRouteFacts.softDeleted_spec in H. congruence. }
  destruct (StateMachine.isValidTransition (state old)
              (TodoWriteRoutes.us_nextState body)) eqn:Hvalid.
  2:{ cbn [negb Server.reject Server.outcome Server.server Server.written].
      intros [= <- <-]. cbn [Api.code Api.details]. repeat split.
      exists old. repeat split; assumption. }
  cbn [negb]. rewrite WriteRouteFacts.getMonotonicISOString_eq.
  set (last := WriteRouteFacts.nextClock _ _) in *.
  destruct (JsDate.toISOString last) as [stamp|] eqn:Hstamp; [|discriminate].
  destruct (Store.compareAndSwapTodo _ _ _ _) as [st res] eqn:Hcas.
  apply WriteRouteFacts.compareAndSwapTodo_cases in Hcas
    as [(Hn & -> & E)|[(t & Ht & Hv & -> & E)|(t & Ht & Hv & -> & E)]].
  - unfold Store.getTodo in Hget. congruence.
  - cbn [Server.reject Server.outcome Server.server Server.written].
    intros [= <- <-]. cbn [Api.code Api.details Server.store Server.directory
                            Server.subscribers].
    unfold Store.getTodo in Hget. rewrite Hget in Ht. injection Ht as <-.
    repeat split; try assumption.
    exists old. repeat split; assumption.
  - destruct (Sse.notifyListChanged _ _ _) as [subs writes]. discriminate.
Qed.

(** *** The create route *)

Module CreateRouteFacts.
Import Store StoreFacts.

Lemma omap_ext_elem {A B} (f g : A -> option B) (l : list A) :
  (forall x, x ∈ l -> f x = g x) -> omap f l = omap g l.
Proof.
  induction l as [|a l IH]; intros H; [reflexivity|].
  change (match f a with Some y => y :: omap f l | None => omap f l end
          = match g a with Some y => y :: omap g l | None => omap g l end).
  rewrite (H a) by (apply elem_of_cons; now left).
  rewrite IH; [reflexivity|]. intros x Hx. apply H. apply elem_of_cons. now right.
Qed.

(** A todo stored under a fresh id leaves the listing of every other list
    as it was. *)
Lemma getTodosForList_createTodo_other st todo l cursor :
  wf st -> todos st !! id todo = None -> l <> listId todo ->
  getTodosForList (createTodo st todo).1 l cursor = getTodosForList st l cursor.
Proof.
  intros Hwf Hfresh Hl. unfold getTodosForList. cbn [createTodo fst todosByList].
  rewrite lookup_insert_ne by congruence.
  pose proof (wf_index st Hwf l) as Hidx.
  destruct (todosByList st !! l) as [ids|]; [|reflexivity]. simpl in Hidx.
  f_equal. apply omap_ext_elem. intros k Hk.
  apply Hidx in Hk as (t & Ht & _).
  unfold selectTodo. cbn [todos]. rewrite lookup_insert_ne; [reflexivity|].
  intros <-. congruence.
Qed.

End CreateRouteFacts.

(** X7: when [POST /lists/:listId/todos] answers 201, the id and the
    [createdAt] of the request passed validation, the list exists and the id
    was free; the todo it returns has the fields of the request, state TODO,
    version 1, no [deletedAt] and a fresh timestamp of the monotonic clock;
    it is what the store now holds under the id, it is in the full listing
    of its list, and no other todo and no other list's listing has
    changed. *)
Theorem createTodoRoute_created
    (parseDate : string -> option Z) (nowMs : Z)
    (writeThrows : Sse.Connection -> bool) (sv : Server.t) (l : string)
    (body : TodoWriteRoutes.CreateTodoRequest) (todo : Todo) :
  let r := TodoWriteRoutes.createTodoRoute parseDate nowMs writeThrows sv l body in
  StoreFacts.wf (Server.store sv) ->
  Server.outcome r = Api.Replied 201 (Api.TodoBody todo) ->
  Validation.isValidIdentifier (TodoWriteRoutes.ct_id body) = true /\
  Validation.isValidISOString parseDate (TodoWriteRoutes.ct_createdAt body) = true /\
  Store.listExists (Server.store sv) l = true /\
  Store.getTodo (Server.store sv) (TodoWriteRoutes.ct_id body) = None /\
  todo = {| id := TodoWriteRoutes.ct_id body; listId := l;
            title := TodoWriteRoutes.ct_title body; state := TODO;
            createdBy := TodoWriteRoutes.ct_userId body;
            createdAt := TodoWriteRoutes.ct_createdAt body;
            updatedAt := updatedAt todo; version := 1; deletedAt := None |} /\
  Server.lastMonotonicTimestampMs sv
  < Server.lastMonotonicTimestampMs (Server.server r) /\
  JsDate.toISOString (Server.lastMonotonicTimestampMs (Server.server r))
  = Some (updatedAt todo) /\
  Store.getTodo (Server.store (Server.server r)) (TodoWriteRoutes.ct_id body)
  = Some todo /\
  (forall k, k <> TodoWriteRoutes.ct_id body ->
      Store.getTodo (Server.store (Server.server r)) k
      = Store.getTodo (Server.store sv) k) /\
  todo ∈ Store.getTodosForList (Server.store (Server.server r)) l None /\
  (forall l' cursor, l' <> l ->
      Store.getTodosForList (Server.store (Server.server r)) l' cursor
      = Store.getTodosForList (Server.store sv) l' cursor).
Proof.
  intros r Hwf. subst r. unfold TodoWriteRoutes.createTodoRoute.
  destruct (Validation.isValidIdentifier _) eqn:Hid; [|discriminate].
  destruct (Validation.isValidISOString _ _) eqn:Hiso; [|discriminate].
  destruct (Store.listExists _ _) eqn:Hex; [|discriminate].
  cbn [negb].
  destruct (Store.getTodo _ _) as [existing|] eqn:Hget; [discriminate|].
  rewrite WriteRouteFacts.getMonotonicISOString_eq.
  pose proof (WriteRouteFacts.nextClock_gt
                (Server.lastMonotonicTimestampMs sv) nowMs) as Hgt.
  set (last := WriteRouteFacts.nextClock _ _) in *.
  destruct (JsDate.toISOString last) as [stamp|] eqn:Hstamp; [|discriminate].
  set (new := {| id := TodoWriteRoutes.ct_id body; listId := l;
                 title := TodoWriteRoutes.ct_title body; state := TODO;
                 createdBy := TodoWriteRoutes.ct_userId body;
                 createdAt := TodoWriteRoutes.ct_createdAt body;
                 updatedAt := stamp; version := 1; deletedAt := None |}).
  assert (Hwf' : StoreFacts.wf (Store.createTodo (Server.store sv) new).1).
  { apply StoreFacts.wf_createTodo; [exact Hwf|exact Hget|].
    exact (WriteRouteFacts.toISOString_nonempty _ _ Hstamp). }
  pose proof (CreateRouteFacts.getTodosForList_createTodo_other
                (Server.store sv) new) as Hother.
  destruct (Store.createTodo (Server.store sv) new) as [st created] eqn:Hcreate.
  unfold Store.createTodo in Hcreate. injection Hcreate as <- <-.
  destruct (Sse.notifyListChanged _ _ _) as [subs writes].
  cbn [Server.outcome Server.server Server.store Server.lastMonotonicTimestampMs].
  intros [= <-].
  repeat (split; [first [reflexivity | assumption]|]).
  split; [unfold Store.getTodo; apply lookup_insert_eq|].
  split; [intros k Hk; unfold Store.getTodo; apply lookup_insert_ne; congruence|].
  split.
  - apply ServerFacts.getTodosForList_elem; [exact Hwf'|].
    split; [apply lookup_insert_eq|]. split; [reflexivity|exact I].
  - intros l' cursor Hl'. apply Hother; [exact Hwf|exact Hget|exact Hl'].
Qed.

(** X8: [POST /lists/:listId/todos] never overwrites: when a todo is
    already stored under the id of the request, whatever the rest of the
    request, the server is left exactly as it was, nobody is notified, and
    the answer is an error, 409 ALREADY_EXISTS as soon as the request is
    otherwise in order. *)
Theorem createTodoRoute_never_overwrites
    (parseDate : string -> option Z) (nowMs : Z)
    (writeThrows : Sse.Connection -> bool) (sv : Server.t) (l : string)
    (body : TodoWriteRoutes.CreateTodoRequest) (existing : Todo) :
  let r := TodoWriteRoutes.createTodoRoute parseDate nowMs writeThrows sv l body in
  Store.getTodo (Server.store sv) (TodoWriteRoutes.ct_id body) = Some existing ->
  Server.server r = sv /\ Server.written r = [] /\
  exists status e,
    Server.outcome r = Api.Replied status (Api.ErrorBody e) /\
    (Validation.isValidIdentifier (TodoWriteRoutes.ct_id body) = true ->
     Validation.isValidISOString parseDate (TodoWriteRoutes.ct_createdAt body)
     = true ->
     Store.listExists (Server.store sv) l = true ->
     status = 409 /\ Api.code e = Api.ALREADY_EXISTS).
Proof.
  intros r Hget. subst r. unfold TodoWriteRoutes.createTodoRoute.
  destruct (Validation.isValidIdentifier _);
    [|repeat split; do 2 eexists; split; [reflexivity|discriminate]].
  destruct (Validation.isValidISOString _ _);
    [|repeat split; do 2 eexists; split; [reflexivity|discriminate]].
  destruct (Store.listExists _ _);
    [|repeat split; do 2 eexists; split; [reflexivity|discriminate]].
  cbn [negb]. rewrite Hget. repeat split.
  do 2 eexists. split; [reflexivity|]. intros _ _ _. split; reflexivity.
Qed.

(** *** Delta sync across writes *)

Module DeltaFacts.
Import Store StoreFacts SyncToken Api Server TodoWriteRoutes WriteRouteFacts.

(** The cursor of the request, if there is one, is a timestamp that the
    clock has reached. *)
Definition notAhead (sv : Server.t) (syncToken : option string) : Prop :=
  forall p, ServerFacts.requestCursor syncToken = Some p ->
    exists c, 0 <= c <= lastMonotonicTimestampMs sv /\
              JsDate.toISOString c = Some (lastUpdatedAt p).

(** The route hands out such tokens when it is given such tokens. *)
Lemma token_notAhead sv l syncToken todoList token :
  inv sv -> notAhead sv syncToken ->
  TodoRoutes.getTodos node (store sv) l syncToken
  = TodoRoutes.Ok todoList (Some token) ->
  notAhead sv (Some token).
Proof.
  intros Hinv Hna H.
  destruct (listExists (store sv) l) eqn:Hex;
    [|rewrite ServerFacts.getTodos_not_found in H by exact Hex; discriminate].
  rewrite (ServerFacts.getTodos_unfold _ _ _ Hex) in H. cbv zeta in H.
  injection H as <- <-. intros p. rewrite ServerFacts.requestCursor_token.
  intros [= <-]. unfold ServerFacts.replyPayload.
  destruct (last _) as [x|] eqn:Hlast.
  - apply last_Some_elem_of in Hlast.
    apply ServerFacts.getTodosForList_elem in Hlast as (Hget & _);
      [|exact (inv_wf _ Hinv)].
    exact (inv_stamps _ Hinv _ _ Hget).
  - destruct (ServerFacts.requestCursor syncToken) as [p|] eqn:Hp.
    + now apply Hna.
    + exists 0. split; [pose proof (inv_clock _ Hinv); lia|reflexivity].
Qed.

(** What has happened to the store between two states of the server: the
    clock has not gone back, no list has gone, and a todo is as it was or
    carries a stamp that the clock has issued in between. *)
Definition since (sv0 sv : Server.t) : Prop :=
  lastMonotonicTimestampMs sv0 <= lastMonotonicTimestampMs sv /\
  forall k t, todos (store sv) !! k = Some t ->
    todos (store sv0) !! k = Some t \/
    exists c, lastMonotonicTimestampMs sv0 < c <= lastMonotonicTimestampMs sv /\
              JsDate.toISOString c = Some (updatedAt t).

Lemma since_refl sv : since sv sv.
Proof. split; [lia|]. intros k t H. now left. Qed.

Lemma since_trans sv0 sv1 sv2 : since sv0 sv1 -> since sv1 sv2 -> since sv0 sv2.
Proof.
  intros [Hc1 H1] [Hc2 H2]. split; [lia|].
  intros k t H. destruct (H2 _ _ H) as [H'|(c & Hc & E)].
  - destruct (H1 _ _ H') as [H''|(c & Hc & E)]; [now left|].
    right. exists c. split; [lia|exact E].
  - right. exists c. split; [lia|exact E].
Qed.

Lemma since_same_store sv sv' :
  store sv' = store sv ->
  lastMonotonicTimestampMs sv <= lastMonotonicTimestampMs sv' ->
  since sv sv'.
Proof. intros E Hle. split; [exact Hle|]. intros k t H. left. congruence. Qed.

Lemma since_handle parseDate sv r : since sv (App.handle parseDate sv r).
Proof.
  destruct r as [uuid now userId|uuid key now userId|userId key|l tok
                 |nowMs writeThrows l body|nowMs writeThrows k body
                 |l reply|l reply]; cbn [App.handle].
  - unfold AuthRoutes.bootstrapRoute.
    destruct (match userId with
              | Some i => if JsString.truthy i
                          then Directory.getUser (directory sv) i else None
              | None => None
              end); [apply since_refl|].
    apply since_same_store; simpl; [reflexivity|lia].
  - unfold ListRoutes.createListRoute.
    destruct (Directory.getUser _ _); [|apply since_refl].
    cbn [Directory.createList server]. split; simpl; [lia|].
    intros k t H. now left.
  - unfold ListRoutes.joinListRoute.
    destruct (Directory.getUser _ _); [|apply since_refl].
    destruct (Directory.getListByJoinKey _ _ _); apply since_refl.
  - apply since_refl.
  - unfold createTodoRoute.
    destruct (Validation.isValidIdentifier _); [|apply since_refl].
    destruct (Validation.isValidISOString _ _); [|apply since_refl].
    destruct (listExists _ _); [|apply since_refl].
    cbn [negb]. destruct (getTodo _ _); [apply since_refl|].
    rewrite getMonotonicISOString_eq.
    pose proof (nextClock_gt (lastMonotonicTimestampMs sv) nowMs) as Hgt.
    set (last := nextClock _ _) in *.
    destruct (JsDate.toISOString last) as [stamp|] eqn:Hstamp;
      [|apply since_same_store; simpl; [reflexivity|lia]].
    cbn [createTodo]. destruct (Sse.notifyListChanged _ _ _) as [subs writes].
    split; simpl; [lia|]. intros k t H.
    apply lookup_insert_Some in H as [[_ <-]|[_ H]]; [|now left].
    right. exists last. split; [lia|exact Hstamp].
  - unfold updateTodoStateRoute.
    destruct (getTodo _ _) as [old|]; [|apply since_refl].
    destruct (match deletedAt old with
              | Some d => JsString.truthy d | None => false end);
      [apply since_refl|].
    destruct (StateMachine.isValidTransition _ _); [|apply since_refl].
    cbn [negb]. rewrite getMonotonicISOString_eq.
    pose proof (nextClock_gt (lastMonotonicTimestampMs sv) nowMs) as Hgt.
    set (last := nextClock _ _) in *.
    destruct (JsDate.toISOString last) as [stamp|] eqn:Hstamp;
      [|apply since_same_store; simpl; [reflexivity|lia]].
    destruct (compareAndSwapTodo _ _ _ _) as [st res] eqn:Hcas.
    apply compareAndSwapTodo_cases in Hcas
      as [(_ & -> & ->)|[(t & _ & _ & -> & ->)|(t & Ht & Hv & -> & ->)]].
    + apply since_same_store; simpl; [reflexivity|lia].
    + apply since_same_store; simpl; [reflexivity|lia].
    + destruct (Sse.notifyListChanged _ _ _) as [subs writes].
      split; simpl; [lia|]. intros k' t' H.
      apply lookup_insert_Some in H as [[_ <-]|[_ H]]; [|now left].
      right. exists last. split; [lia|exact Hstamp].
  - unfold EventRoutes.eventsRoute. destruct (listExists _ _); [|apply since_refl].
    apply since_same_store; simpl; [reflexivity|lia].
  - apply since_same_store; simpl; [reflexivity|lia].
Qed.

Lemma since_run parseDate requests : forall sv,
  since sv (App.run parseDate sv requests).
Proof.
  induction requests as [|r requests IH]; intros sv; [apply since_refl|].
  eapply since_trans; [apply since_handle|apply IH].
Qed.

Lemma notAhead_later sv sv' syncToken :
  lastMonotonicTimestampMs sv <= lastMonotonicTimestampMs sv' ->
  notAhead sv syncToken -> notAhead sv' syncToken.
Proof.
  intros Hle H p Hp. destruct (H p Hp) as (c & Hc & E).
  exists c. split; [lia|exact E].
Qed.

Lemma notAhead_syncOnce sv l held :
  inv sv -> notAhead sv held -> notAhead sv (SyncSession.syncOnce sv l held).
Proof.
  intros Hinv Hna. unfold SyncSession.syncOnce.
  destruct (TodoRoutes.getTodos node (store sv) l held)
    as [todoList [token|]|] eqn:H.
  - exact (token_notAhead _ _ _ _ _ Hinv Hna H).
  - intros p Hp. discriminate Hp.
  - intros p Hp. discriminate Hp.
Qed.

(** The token that a client in session holds is never ahead of the clock. *)
Lemma session_notAhead parseDate l rounds : forall sv held,
  inv sv -> notAhead sv held ->
  inv (SyncSession.session parseDate sv l held rounds).1 /\
  notAhead (SyncSession.session parseDate sv l held rounds).1
    (SyncSession.session parseDate sv l held rounds).2.
Proof.
  induction rounds as [|requests rounds IH]; intros sv held Hinv Hna;
    cbn [SyncSession.session]; [now split|].
  cbv zeta. apply IH.
  - now apply inv_run.
  - apply notAhead_syncOnce; [now apply inv_run|].
    eapply notAhead_later; [|exact Hna].
    apply (since_run parseDate requests sv).
Qed.

(** A sync with a token that is not ahead of the clock of the time returns
    what has been written since. *)
Lemma misses_no_write parseDate sv0 l token requests t :
  let sv := App.run parseDate sv0 requests in
  inv sv0 -> notAhead sv0 (Some token) ->
  lastMonotonicTimestampMs sv <= JsDate.maxFourDigitYearTime ->
  todos (store sv) !! id t = Some t ->
  listId t = l ->
  todos (store sv0) !! id t <> Some t ->
  exists todoList token',
    TodoRoutes.getTodos node (store sv) l (Some token)
    = TodoRoutes.Ok todoList (Some token') /\
    t ∈ todoList.
Proof.
  intros sv Hinv0 Htok Hmax Ht Hl Hchanged.
  assert (Hinv : inv sv) by now apply inv_run.
  assert (Hex : listExists (store sv) l = true).
  { rewrite <- Hl. exact (inv_lists _ Hinv _ _ Ht). }
  do 2 eexists. split; [apply (ServerFacts.getTodos_unfold _ _ _ Hex)|].
  apply ServerFacts.getTodosForList_elem; [exact (inv_wf _ Hinv)|].
  split; [exact Ht|]. split; [exact Hl|].
  destruct (ServerFacts.requestCursor (Some token)) as [p|] eqn:Hp; [|exact I].
  destruct (Htok _ Hp) as (c & Hc & Ec).
  destruct (since_run parseDate requests sv0) as [Hclock Hsince].
  destruct (Hsince _ _ Ht) as [Hsame|(c' & Hc' & Ec')]; [contradiction|].
  destruct (JsDateFacts.toISOString_lt c c') as (s1 & s2 & E1 & E2 & Hlt).
  - unfold JsDateFacts.minFourDigitYearTime. lia.
  - lia.
  - fold sv in Hc'. lia.
  - unfold StoreFacts.afterCursor, StoreFacts.cursorKey, ServerFacts.cursorOf.
    cbn [fmap option_fmap option_map]. left. cbn [fst StoreFacts.key].
    congruence.
Qed.

End DeltaFacts.

(** X9: delta sync misses no write to a client that keeps to [syncOnce].
    The client starts without a token and sends, at each sync, the token of
    its last answer; in between the server answers whatever requests.
    Then a sync with the token that the client holds returns every todo of
    the list that is not stored now exactly as it was stored at the last
    sync of the client: every todo created or updated since.  (While the
    clock is within the years up to 9999.) *)
Theorem delta_sync_misses_no_write
    (parseDate : string -> option Z) (l : string)
    (rounds : list (list App.Request)) (requests : list App.Request)
    (token : string) (t : Todo) :
  let atLastSync := (SyncSession.session parseDate Server.initial l None rounds).1 in
  let held := (SyncSession.session parseDate Server.initial l None rounds).2 in
  let sv := App.run parseDate atLastSync requests in
  held = Some token ->
  Server.lastMonotonicTimestampMs sv <= JsDate.maxFourDigitYearTime ->
  Store.todos (Server.store sv) !! id t = Some t ->
  listId t = l ->
  Store.todos (Server.store atLastSync) !! id t <> Some t ->
  exists todoList token',
    TodoRoutes.getTodos SyncToken.node (Server.store sv) l (Some token)
    = TodoRoutes.Ok todoList (Some token') /\
    t ∈ todoList.
Proof.
  intros atLastSync held sv Hheld Hmax Ht Hl Hchanged.
  destruct (DeltaFacts.session_notAhead parseDate l rounds Server.initial None)
    as [Hinv Hna].
  - exact WriteRouteFacts.inv_initial.
  - intros p Hp. discriminate Hp.
  - fold atLastSync held in Hinv, Hna. rewrite Hheld in Hna.
    exact (DeltaFacts.misses_no_write parseDate atLastSync l token requests t
             Hinv Hna Hmax Ht Hl Hchanged).
Qed.

(** *** Lists, users and event streams *)

(** X10: a list that [POST /lists] has created can be joined at once with
    the join key of the answer, by any known user: [POST /lists/join]
    answers 200 with that list, and the list exists for the todo routes.
    (The id of the list is not the empty string.) *)
Theorem created_list_can_be_joined
    (uuid key now : string) (sv : Server.t) (creator joiner : string) :
  let r := ListRoutes.createListRoute uuid key now sv creator in
  uuid <> "" ->
  is_Some (Directory.getUser (Server.directory sv) creator) ->
  is_Some (Directory.getUser (Server.directory sv) joiner) ->
  Server.outcome r = Api.Replied 201 (Api.CreateListResponse uuid key) /\
  Server.outcome (ListRoutes.joinListRoute (Server.server r) joiner key)
  = Api.Replied 200
      (Api.JoinListResponse uuid
         {| list_id := uuid; joinKey := key; list_createdAt := now |}) /\
  Store.listExists (Server.store (Server.server r)) uuid = true.
Proof.
  intros r Hne [u Hu] [u' Hu']. subst r.
  unfold ListRoutes.createListRoute. rewrite Hu.
  cbn [Directory.createList Store.createList fst Server.outcome Server.server].
  split; [reflexivity|]. split.
  - unfold ListRoutes.joinListRoute. cbn [Server.directory Server.store].
    unfold Directory.getUser in *. cbn [Directory.indexList Directory.users].
    rewrite Hu'. unfold Directory.getListByJoinKey, Directory.indexList.
    cbn [Directory.listsByJoinKey joinKey list_id Store.lists].
    rewrite lookup_insert_eq.
    apply JsString.truthy_nonempty in Hne. rewrite Hne.
    rewrite lookup_insert_eq. reflexivity.
  - unfold Store.listExists. cbn [Server.store Store.lists list_id].
    apply bool_decide_eq_true. rewrite lookup_insert_eq. eauto.
Qed.

(** X11: whenever [POST /lists/join] answers 200, the list of the answer is
    stored under the id of the answer, so the todo routes do not answer 404
    for it; an unknown user gets 401 and an unknown key 404, and the server
    is left as it was in every case. *)
Theorem joinListRoute_outcomes (sv : Server.t) (userId key : string) :
  let r := ListRoutes.joinListRoute sv userId key in
  WriteRouteFacts.inv sv ->
  Server.server r = sv /\ Server.written r = [] /\
  match Server.outcome r with
  | Api.Replied 200 (Api.JoinListResponse i list) =>
      is_Some (Directory.getUser (Server.directory sv) userId) /\
      Directory.listsByJoinKey (Server.directory sv) !! key = Some i /\
      Store.lists (Server.store sv) !! i = Some list /\
      list_id list = i /\
      Store.listExists (Server.store sv) i = true
  | Api.Replied 401 (Api.ErrorBody e) =>
      Api.code e = Api.UNAUTHORIZED /\
      Directory.getUser (Server.directory sv) userId = None
  | Api.Replied 404 (Api.ErrorBody e) =>
      Api.code e = Api.NOT_FOUND /\
      is_Some (Directory.getUser (Server.directory sv) userId) /\
      Directory.getListByJoinKey (Server.store sv) (Server.directory sv) key = None
  | _ => False
  end.
Proof.
  intros r Hinv. subst r. unfold ListRoutes.joinListRoute.
  destruct (Directory.getUser _ _) as [u|] eqn:Hu;
    [|repeat split].
  destruct (Directory.getListByJoinKey _ _ _) as [list|] eqn:Hlist;
    [|repeat split; eauto].
  cbn [Server.server Server.written Server.outcome].
  unfold Directory.getListByJoinKey in Hlist.
  destruct (Directory.listsByJoinKey _ !! key) as [i|] eqn:Hi; [|discriminate].
  destruct (JsString.truthy i); [|discriminate].
  pose proof (WriteRouteFacts.inv_list_id _ Hinv _ _ Hlist) as Hid.
  rewrite Hid.
  split; [reflexivity|]. split; [reflexivity|].
  split; [eauto|]. split; [reflexivity|]. split; [exact Hlist|].
  split; [reflexivity|].
  unfold Store.listExists. apply bool_decide_eq_true. eauto.
Qed.

(** X12: bootstrap is idempotent on the user it hands out: whatever
    [POST /auth/bootstrap] has answered, a further bootstrap with the id of
    the user of that answer returns this very user with status 200 and
    leaves the server as it is.  (The random id is not the empty string.) *)
Theorem bootstrap_again_returns_the_same_user
    (uuid now uuid' now' : string) (sv : Server.t) (userId : option string)
    (status : Z) (u : Stores.User) :
  let r := AuthRoutes.bootstrapRoute uuid now sv userId in
  WriteRouteFacts.inv sv ->
  uuid <> "" ->
  Server.outcome r = Api.Replied status (Api.BootstrapResponse u) ->
  AuthRoutes.bootstrapRoute uuid' now' (Server.server r) (Some (Stores.user_id u))
  = {| Server.server := Server.server r;
       Server.outcome := Api.Replied 200 (Api.BootstrapResponse u);
       Server.written := [] |}.
Proof.
  intros r Hinv Hne H.
  assert (Hu : JsString.truthy (Stores.user_id u) = true /\
               Directory.getUser (Server.directory (Server.server r))
                 (Stores.user_id u) = Some u).
  { subst r. unfold AuthRoutes.bootstrapRoute in *.
    destruct (match userId with
              | Some i => if JsString.truthy i
                          then Directory.getUser (Server.directory sv) i else None
              | None => None
              end) as [existing|] eqn:Hex.
    - cbn [Server.outcome Server.server] in *. injection H as <- <-.
      destruct userId as [i|]; [|discriminate].
      destruct (JsString.truthy i) eqn:Hi; [|discriminate].
      rewrite (WriteRouteFacts.inv_user_id _ Hinv _ _ Hex). split; assumption.
    - cbn [Directory.createUser Server.outcome Server.server Server.directory] in *.
      injection H as <- <-. cbn [Stores.user_id].
      split; [now apply JsString.truthy_nonempty|].
      unfold Directory.getUser. cbn [Directory.users Stores.user_id].
      apply lookup_insert_eq. }
  destruct Hu as [Ht Hu]. unfold AuthRoutes.bootstrapRoute at 1.
  rewrite Ht, Hu. reflexivity.
Qed.

(** X13: an event stream hears of every write to its list.  Once
    [GET /lists/:listId/events] has opened a stream on an existing list, the
    stream is registered for the list; and as long as a stream is registered
    for a list and writing to it does not throw, every create answered 201
    in the list and every update answered 200 of a todo of the list writes
    the [changed] message to it, once, and leaves it registered.  After its
    [close] event the stream is not registered any more. *)
Theorem event_stream_hears_of_every_write
    (parseDate : string -> option Z) (nowMs : Z)
    (writeThrows : Sse.Connection -> bool) (sv : Server.t) (l : string)
    (reply : Sse.Connection) :
  (Store.listExists (Server.store sv) l = true ->
   reply ∈ SseFacts.subscribersOf
             (Server.subscribers
                (Server.server (EventRoutes.eventsRoute sv l reply))) l) /\
  (reply ∈ SseFacts.subscribersOf (Server.subscribers sv) l ->
   writeThrows reply = false ->
   SseFacts.sets (Server.subscribers sv) ->
   (forall body todo,
       let r := TodoWriteRoutes.createTodoRoute parseDate nowMs writeThrows sv l
                  body in
       Server.outcome r = Api.Replied 201 (Api.TodoBody todo) ->
       (reply, Sse.message) ∈ Server.written r /\
       NoDup (Server.written r).*1 /\
       reply ∈ SseFacts.subscribersOf (Server.subscribers (Server.server r)) l) /\
   (forall k body todo,
       let r := TodoWriteRoutes.updateTodoStateRoute nowMs writeThrows sv k body in
       Server.outcome r = Api.Replied 200 (Api.TodoBody todo) ->
       listId todo = l ->
       (reply, Sse.message) ∈ Server.written r /\
       NoDup (Server.written r).*1 /\
       reply ∈ SseFacts.subscribersOf (Server.subscribers (Server.server r)) l)) /\
  reply ∉ SseFacts.subscribersOf
            (Server.subscribers (EventRoutes.onClose sv l reply)) l.
Proof.
  split; [|split].
  - intros Hex. unfold EventRoutes.eventsRoute. rewrite Hex.
    cbn [negb Server.server Server.with_subscribers Server.subscribers].
    apply SseFacts.subscribersOf_subscribe. right. split; reflexivity.
  - intros Hin Hok Hsets. split.
    + intros body todo r. subst r. unfold TodoWriteRoutes.createTodoRoute.
      destruct (Validation.isValidIdentifier _); [|discriminate].
      destruct (Validation.isValidISOString _ _); [|discriminate].
      destruct (Store.listExists _ _); [|discriminate].
      cbn [negb]. destruct (Store.getTodo _ _); [discriminate|].
      rewrite WriteRouteFacts.getMonotonicISOString_eq.
      destruct (JsDate.toISOString _); [|discriminate].
      cbn [Store.createTodo].
      pose proof (SseFacts.written_notifyListChanged writeThrows
                    (Server.subscribers sv) l reply Sse.message) as Hw.
      pose proof (SseFacts.subscribersOf_notifyListChanged writeThrows
                    (Server.subscribers sv) l l reply) as Hs.
      pose proof (SseFacts.NoDup_written writeThrows _ l Hsets) as Hnd.
      destruct (Sse.notifyListChanged _ _ _) as [subs writes].
      cbn [Server.outcome Server.written Server.server Server.subscribers].
      intros _. split; [apply Hw; tauto|]. split; [exact Hnd|]. apply Hs. tauto.
    + intros k body todo r. subst r. unfold TodoWriteRoutes.updateTodoStateRoute.
      destruct (Store.getTodo _ _) as [old|]; [|discriminate].
      destruct (match deletedAt old with
                | Some d => JsString.truthy d | None => false end);
        [discriminate|].
      destruct (StateMachine.isValidTransition _ _); [|discriminate].
      cbn [negb]. rewrite WriteRouteFacts.getMonotonicISOString_eq.
      destruct (JsDate.toISOString _); [|discriminate].
      destruct (Store.compareAndSwapTodo _ _ _ _) as [st [t| |]];
        [|discriminate|discriminate].
      pose proof (SseFacts.written_notifyListChanged writeThrows
                    (Server.subscribers sv) (listId t) reply Sse.message) as Hw.
      pose proof (SseFacts.subscribersOf_notifyListChanged writeThrows
                    (Server.subscribers sv) (listId t) (listId t) reply) as Hs.
      pose proof (SseFacts.NoDup_written writeThrows _ (listId t) Hsets) as Hnd.
      destruct (Sse.notifyListChanged _ _ _) as [subs writes].
      cbn [Server.outcome Server.written Server.server Server.subscribers].
      intros [= <-] <-. split; [apply Hw; tauto|]. split; [exact Hnd|].
      apply Hs. tauto.
  - unfold EventRoutes.onClose. cbn [Server.with_subscribers Server.subscribers].
    rewrite SseFacts.subscribersOf_unsubscribe. tauto.
Qed.

(** *** A session with the server *)

Module ServerExamples.
Import Server TodoWriteRoutes App.

Definition now : string := "2025-01-01T00:00:00.000Z".

(** 2025-01-01T00:00:00.000Z. *)
Definition nowMs : Z := 1735689600000.

Definition never (r : Sse.Connection) : bool := false.

Definition create (i : string) : CreateTodoRequest :=
  {| ct_id := i; ct_title := "Buy milk"; ct_userId := "user-1";
     ct_createdAt := now |}.

Definition start (i : string) (v : Z) : UpdateTodoStateRequest :=
  {| us_userId := "user-1"; us_nextState := ONGOING; us_expectedVersion := v |}.

Definition finish (i : string) (v : Z) : UpdateTodoStateRequest :=
  {| us_userId := "user-2"; us_nextState := DONE; us_expectedVersion := v |}.

(** A user, a list, an event stream on the list, a first todo. *)
Definition sv1 : Server.t :=
  run JsDate.parseISO Server.initial
    [Bootstrap "user-1" now None;
     CreateList "list-1" "key12345" now "user-1";
     OpenEvents "list-1" 7;
     CreateTodo nowMs never "list-1" (create "a")].

(** Then the first todo is started and a second one is created, within the
    same millisecond. *)
Definition later : list Request :=
  [UpdateTodoState nowMs never "a" (start "a" 1);
   CreateTodo nowMs never "list-1" (create "b")].

Definition sv2 : Server.t := run JsDate.parseISO sv1 later.

(** In between: the first todo is started, the second one is not there
    yet. *)
Definition mid : Server.t :=
  run JsDate.parseISO sv1 [UpdateTodoState nowMs never "a" (start "a" 1)].

(** The client of the list syncs after the first todo and again after it
    was started. *)
Definition rounds : list (list Request) :=
  [[Bootstrap "user-1" now None;
    CreateList "list-1" "key12345" now "user-1";
    OpenEvents "list-1" 7;
    CreateTodo nowMs never "list-1" (create "a")];
   [UpdateTodoState nowMs never "a" (start "a" 1)]].

Definition tokenMid : string :=
  default "" (SyncSession.session JsDate.parseISO Server.initial "list-1" None rounds).2.

Definition todoList1 : list Todo :=
  match TodoRoutes.getTodos SyncToken.node (store sv1) "list-1" None with
  | TodoRoutes.Ok todoList _ => todoList
  | TodoRoutes.ListNotFound => []
  end.

Definition token1 : string :=
  match TodoRoutes.getTodos SyncToken.node (store sv1) "list-1" None with
  | TodoRoutes.Ok _ (Some token) => token
  | _ => ""
  end.

Definition a1 : Todo :=
  {| id := "a"; listId := "list-1"; title := "Buy milk"; state := TODO;
     createdBy := "user-1"; createdAt := now;
     updatedAt := "2025-01-01T00:00:00.000Z"; version := 1; deletedAt := None |}.

Definition a2 : Todo :=
  {| id := "a"; listId := "list-1"; title := "Buy milk"; state := ONGOING;
     createdBy := "user-1"; createdAt := now;
     updatedAt := "2025-01-01T00:00:00.001Z"; version := 2; deletedAt := None |}.

Definition b1 : Todo :=
  {| id := "b"; listId := "list-1"; title := "Buy milk"; state := TODO;
     createdBy := "user-1"; createdAt := now;
     updatedAt := "2025-01-01T00:00:00.002Z"; version := 1; deletedAt := None |}.

Lemma inv_sv1 : WriteRouteFacts.inv sv1.
Proof. apply WriteRouteFacts.inv_run. exact WriteRouteFacts.inv_initial. Qed.

Lemma inv_sv2 : WriteRouteFacts.inv sv2.
Proof. apply WriteRouteFacts.inv_run. exact inv_sv1. Qed.

Lemma inv_mid : WriteRouteFacts.inv mid.
Proof. apply WriteRouteFacts.inv_run. exact inv_sv1. Qed.

Example first_sync :
  TodoRoutes.getTodos SyncToken.node (store sv1) "list-1" None
  = TodoRoutes.Ok [a1] (Some token1).
Proof. vm_compute. reflexivity. Qed.

Example delta_after_two_writes :
  TodoRoutes.getTodos SyncToken.node (store sv2) "list-1" (Some token1)
  = TodoRoutes.Ok [a2; b1]
      (SyncToken.encodeSyncToken SyncToken.node
         {| SyncToken.lastUpdatedAt := "2025-01-01T00:00:00.002Z";
            SyncToken.lastId := Some "b" |}).
Proof. vm_compute. reflexivity. Qed.

Example session_reaches_mid :
  SyncSession.session JsDate.parseISO Server.initial "list-1" None rounds
  = (mid,
     SyncToken.encodeSyncToken SyncToken.node
       {| SyncToken.lastUpdatedAt := "2025-01-01T00:00:00.001Z";
          SyncToken.lastId := Some "a" |}).
Proof. vm_compute. reflexivity. Qed.

Example delta_in_session :
  TodoRoutes.getTodos SyncToken.node (store sv2) "list-1" (Some tokenMid)
  = TodoRoutes.Ok [b1]
      (SyncToken.encodeSyncToken SyncToken.node
         {| SyncToken.lastUpdatedAt := "2025-01-01T00:00:00.002Z";
            SyncToken.lastId := Some "b" |}).
Proof. vm_compute. reflexivity. Qed.

Example stale_version_is_a_conflict :
  outcome (updateTodoStateRoute nowMs never sv2 "a" (finish "a" 1))
  = Api.Replied 409
      (Api.ErrorBody {| Api.error := "Version conflict";
                        Api.code := Api.VERSION_CONFLICT;
                        Api.details := Some a2 |}).
Proof. vm_compute. reflexivity. Qed.

Example skipping_a_state_is_refused :
  outcome (updateTodoStateRoute nowMs never sv1 "a"
             {| us_userId := "user-1"; us_nextState := DONE;
                us_expectedVersion := 1 |})
  = Api.Replied 400
      (Api.ErrorBody {| Api.error := "Invalid transition from TODO to DONE";
                        Api.code := Api.INVALID_TRANSITION;
                        Api.details := None |}).
Proof. vm_compute. reflexivity. Qed.

Example the_stream_is_told :
  written (createTodoRoute JsDate.parseISO nowMs never mid "list-1" (create "b"))
  = [(7, Sse.message)].
Proof. vm_compute. reflexivity. Qed.

End ServerExamples.

Lemma getTodos_token_is_the_new_cursor_witness :
  exists todoList token payload,
    TodoRoutes.getTodos SyncToken.node (Server.store ServerExamples.sv1) "list-1"
      None
    = TodoRoutes.Ok todoList (Some token) /\
    SyncToken.decodeSyncToken SyncToken.node token = Some payload /\
    match last todoList, ServerFacts.requestCursor None with
    | Some todo, _ =>
        payload = {| SyncToken.lastUpdatedAt := updatedAt todo;
                     SyncToken.lastId := Some (id todo) |}
    | None, Some asked => payload = asked
    | None, None =>
        payload = {| SyncToken.lastUpdatedAt := "1970-01-01T00:00:00.000Z";
                     SyncToken.lastId := None |}
    end.
Proof.
  apply (getTodos_token_is_the_new_cursor (Server.store ServerExamples.sv1)
           "list-1" None).
  vm_compute. reflexivity.
Defined.

Lemma delta_sync_again_returns_nothing_witness :
  TodoRoutes.getTodos SyncToken.node (Server.store ServerExamples.sv1) "list-1"
    (Some ServerExamples.token1)
  = TodoRoutes.Ok [] (Some ServerExamples.token1).
Proof.
  apply (delta_sync_again_returns_nothing (Server.store ServerExamples.sv1)
           "list-1" None ServerExamples.todoList1 ServerExamples.token1).
  - exact (WriteRouteFacts.inv_wf _ ServerExamples.inv_sv1).
  - vm_compute. reflexivity.
Defined.

Lemma subscribers_are_a_map_of_sets_witness :
  SseFacts.sets (Sse.subscribe ∅ "list-1" 7) /\
  SseFacts.sets (Sse.unsubscribe ∅ "list-1" 7) /\
  SseFacts.sets (Sse.notifyListChanged ServerExamples.never ∅ "list-1").1 /\
  NoDup (Sse.notifyListChanged ServerExamples.never ∅ "list-1").2.*1.
Proof.
  apply (subscribers_are_a_map_of_sets ServerExamples.never ∅ "list-1" 7).
  exact SseFacts.sets_empty.
Defined.

Lemma updateTodoStateRoute_success_witness :
  exists old,
    Store.getTodo (Server.store ServerExamples.sv1) "a" = Some old /\
    version ServerExamples.a2 = version old + 1.
Proof.
  destruct (updateTodoStateRoute_success ServerExamples.nowMs ServerExamples.never
              ServerExamples.sv1 "a" (ServerExamples.start "a" 1) ServerExamples.a2)
    as (old & H1 & _ & _ & _ & _ & H2 & _).
  - vm_compute. reflexivity.
  - exists old. split; assumption.
Defined.

Lemma updateTodoStateRoute_refusal_witness :
  Server.store
    (Server.server
       (TodoWriteRoutes.updateTodoStateRoute ServerExamples.nowMs
          ServerExamples.never ServerExamples.sv2 "a" (ServerExamples.finish "a" 1)))
  = Server.store ServerExamples.sv2.
Proof.
  refine (proj1 (updateTodoStateRoute_refusal ServerExamples.nowMs
                   ServerExamples.never ServerExamples.sv2 "a"
                   (ServerExamples.finish "a" 1) 409
                   {| Api.error := "Version conflict";
                      Api.code := Api.VERSION_CONFLICT;
                      Api.details := Some ServerExamples.a2 |} _)).
  vm_compute. reflexivity.
Defined.

Lemma createTodoRoute_created_witness :
  ServerExamples.b1
  ∈ Store.getTodosForList
      (Server.store
         (Server.server
            (TodoWriteRoutes.createTodoRoute JsDate.parseISO ServerExamples.nowMs
               ServerExamples.never ServerExamples.mid
               "list-1" (ServerExamples.create "b"))))
      "list-1" None.
Proof.
  refine (proj1 (proj2 (proj2 (proj2 (proj2 (proj2 (proj2 (proj2 (proj2 (proj2
            (createTodoRoute_created JsDate.parseISO ServerExamples.nowMs
               ServerExamples.never ServerExamples.mid
               "list-1" (ServerExamples.create "b") ServerExamples.b1 _ _))))))))))).
  - exact (WriteRouteFacts.inv_wf _ ServerExamples.inv_mid).
  - vm_compute. reflexivity.
Defined.

Lemma createTodoRoute_never_overwrites_witness :
  Server.server
    (TodoWriteRoutes.createTodoRoute JsDate.parseISO ServerExamples.nowMs
       ServerExamples.never ServerExamples.sv1 "list-1" (ServerExamples.create "a"))
  = ServerExamples.sv1.
Proof.
  refine (proj1 (createTodoRoute_never_overwrites JsDate.parseISO
                   ServerExamples.nowMs ServerExamples.never ServerExamples.sv1
                   "list-1" (ServerExamples.create "a") ServerExamples.a1 _)).
  vm_compute. reflexivity.
Defined.

Lemma delta_sync_misses_no_write_witness :
  exists todoList token',
    TodoRoutes.getTodos SyncToken.node (Server.store ServerExamples.sv2) "list-1"
      (Some ServerExamples.tokenMid)
    = TodoRoutes.Ok todoList (Some token') /\
    ServerExamples.b1 ∈ todoList.
Proof.
  apply (delta_sync_misses_no_write JsDate.parseISO "list-1"
           ServerExamples.rounds [App.CreateTodo ServerExamples.nowMs
                                    ServerExamples.never "list-1"
                                    (ServerExamples.create "b")]
           ServerExamples.tokenMid ServerExamples.b1).
  - vm_compute. reflexivity.
  - vm_compute. discriminate.
  - vm_compute. reflexivity.
  - reflexivity.
  - vm_compute. discriminate.
Defined.

Lemma created_list_can_be_joined_witness :
  Server.outcome
    (ListRoutes.joinListRoute
       (Server.server
          (ListRoutes.createListRoute "list-2" "key67890" ServerExamples.now
             ServerExamples.sv1 "user-1"))
       "user-1" "key67890")
  = Api.Replied 200
      (Api.JoinListResponse "list-2"
         {| list_id := "list-2"; joinKey := "key67890";
            list_createdAt := ServerExamples.now |}).
Proof.
  refine (proj1 (proj2 (created_list_can_be_joined "list-2" "key67890"
                          ServerExamples.now ServerExamples.sv1 "user-1" "user-1"
                          _ _ _))).
  - discriminate.
  - vm_compute. eauto.
  - vm_compute. eauto.
Defined.

Lemma joinListRoute_outcomes_witness :
  Server.server (ListRoutes.joinListRoute ServerExamples.sv1 "user-1" "key12345")
  = ServerExamples.sv1.
Proof.
  exact (proj1 (joinListRoute_outcomes ServerExamples.sv1 "user-1" "key12345"
                  ServerExamples.inv_sv1)).
Defined.

Lemma bootstrap_again_returns_the_same_user_witness :
  Server.outcome
    (AuthRoutes.bootstrapRoute "user-3" ServerExamples.now
       (Server.server
          (AuthRoutes.bootstrapRoute "user-2" ServerExamples.now ServerExamples.sv1
             None))
       (Some "user-2"))
  = Api.Replied 200
      (Api.BootstrapResponse
         {| Stores.user_id := "user-2"; Stores.user_name := None;
            Stores.user_createdAt := ServerExamples.now |}).
Proof.
  refine (f_equal Server.outcome
            (bootstrap_again_returns_the_same_user "user-2" ServerExamples.now
               "user-3" ServerExamples.now ServerExamples.sv1 None 201
               {| Stores.user_id := "user-2"; Stores.user_name := None;
                  Stores.user_createdAt := ServerExamples.now |}
               ServerExamples.inv_sv1 _ _)).
  - discriminate.
  - vm_compute. reflexivity.
Defined.

Lemma event_stream_hears_of_every_write_witness :
  (7, Sse.message)
  ∈ Server.written
      (TodoWriteRoutes.createTodoRoute JsDate.parseISO ServerExamples.nowMs
         ServerExamples.never ServerExamples.mid "list-1" (ServerExamples.create "b")).
Proof.
  refine (proj1 (proj1 (proj1 (proj2 (event_stream_hears_of_every_write
            JsDate.parseISO ServerExamples.nowMs ServerExamples.never
            ServerExamples.mid "list-1" 7)) _ _ _)
            (ServerExamples.create "b") ServerExamples.b1 _)).
  - vm_compute. constructor.
  - reflexivity.
  - exact (WriteRouteFacts.inv_subscribers _ ServerExamples.inv_mid).
  - vm_compute. reflexivity.
Defined.

(** ** The core package, further *)

(** *** Compare-and-swap between two writers *)

(** X16: of two writers that read the same version only the first one
    writes.  After a successful [compareAndSwapTodo] against a version, a
    second one against that same version, whatever it wants to write, is
    answered with a conflict that carries the todo the first one wrote, whose
    version is one more, and changes nothing; repeated against the version
    of that todo, it succeeds. *)
Theorem compareAndSwapTodo_second_writer_loses
    (st st1 : Store.t) (k : string) (v : Z) (u1 u2 : Store.TodoUpdates)
    (t1 : Todo) :
  Store.compareAndSwapTodo st k v u1 = (st1, Store.Success t1) ->
  version t1 = v + 1 /\
  Store.compareAndSwapTodo st1 k v u2 = (st1, Store.Conflict t1) /\
  exists st2 t2,
    Store.compareAndSwapTodo st1 k (version t1) u2 = (st2, Store.Success t2) /\
    version t2 = v + 2.
Proof.
  intros H. apply WriteRouteFacts.compareAndSwapTodo_cases in H
    as [(_ & H & _)|[(t & _ & _ & H & _)|(t & Ht & Hv & H & ->)]];
    try discriminate.
  injection H as ->. split; [reflexivity|]. split.
  - unfold Store.compareAndSwapTodo. cbn [Store.todos].
    rewrite lookup_insert_eq. cbn [version Store.set_version].
    destruct (decide (v + 1 = v)) as [E|_]; [lia|reflexivity].
  - unfold Store.compareAndSwapTodo. cbn [Store.todos].
    rewrite lookup_insert_eq. cbn [version Store.set_version].
    destruct (decide (v + 1 = v + 1)) as [_|N]; [|contradiction].
    do 2 eexists. split; [reflexivity|]. simpl. lia.
Qed.

Lemma compareAndSwapTodo_second_writer_loses_witness :
  Store.compareAndSwapTodo
    (Store.compareAndSwapTodo StoreExamples.st0 "a" 1
       (WriteRouteFacts.stateUpdate ONGOING StoreExamples.t2)).1
    "a" 1 (WriteRouteFacts.stateUpdate ONGOING StoreExamples.t2)
  = ((Store.compareAndSwapTodo StoreExamples.st0 "a" 1
        (WriteRouteFacts.stateUpdate ONGOING StoreExamples.t2)).1,
     Store.Conflict
       {| id := "a"; listId := "list-1"; title := "a"; state := ONGOING;
          createdBy := "user-1"; createdAt := StoreExamples.t1;
          updatedAt := StoreExamples.t2; version := 2; deletedAt := None |}).
Proof.
  refine (proj1 (proj2 (compareAndSwapTodo_second_writer_loses
            StoreExamples.st0 _ "a" 1
            (WriteRouteFacts.stateUpdate ONGOING StoreExamples.t2)
            (WriteRouteFacts.stateUpdate ONGOING StoreExamples.t2) _ _))).
  vm_compute. reflexivity.
Defined.

(** *** [retry] *)

Module RetryFacts.
Import RetryTask.

(** The attempts with which the task was called, and those after which the
    backoff timer was called, in order. *)
Definition taskCalls (calls : list Call) : list Z :=
  omap (fun c => match c with TaskCall a => Some a | _ => None end) calls.

Definition backoffCalls (calls : list Call) : list Z :=
  omap (fun c => match c with BackoffCall a => Some a | _ => None end) calls.

Lemma seqZ_snoc m n : 0 <= n -> seqZ m (n + 1) = seqZ m n ++ [m + n].
Proof.
  intros Hn. rewrite seqZ_app by lia. reflexivity.
Qed.

Lemma taskCalls_app a b : taskCalls (a ++ b) = taskCalls a ++ taskCalls b.
Proof. apply omap_app. Qed.

Lemma backoffCalls_app a b : backoffCalls (a ++ b) = backoffCalls a ++ backoffCalls b.
Proof. apply omap_app. Qed.

Section Facts.
Context {T : Type}.
Variable task : Z -> TaskOutcome T.
Variable options : option RetryOptions.

(** The attempt fails with an error after which [retry] goes on, as long as
    attempts are left. *)
Definition failsRetryably (attempt : Z) (e : ErrorObject) : Prop :=
  task attempt = Rejects (Err e) /\ name e <> "AbortError" /\
  forall f, shouldRetryOption options = Some f -> f e = true.

Hypothesis no_signal : options ≫= signal = None.

Lemma tryBlock_no_signal attempt :
  tryBlock task options attempt = (task attempt, [TaskCall attempt]).
Proof.
  unfold tryBlock, look. rewrite no_signal. destruct (task attempt); reflexivity.
Qed.

(** A failed attempt that is not the last one. *)
Lemma loop_failed fuel attempt e :
  attempt < maxAttempts options -> failsRetryably attempt e ->
  exists pre,
    loop task options (S fuel) attempt
    = ((loop task options fuel (attempt + 1)).1,
       pre ++ (loop task options fuel (attempt + 1)).2) /\
    taskCalls pre = [attempt] /\ backoffCalls pre = [attempt].
Proof.
  intros Hlt (Htask & Hname & Hshould). cbn [loop].
  destruct (attempt <=? maxAttempts options)%Z eqn:Hle; [|lia]. cbn [negb].
  rewrite tryBlock_no_signal, Htask.
  rewrite bool_decide_eq_false_2 by exact Hname.
  destruct (maxAttempts options <=? attempt)%Z eqn:Hge; [lia|].
  destruct (loop task options fuel (attempt + 1)) as [r rest].
  set (failed := if default false (onFailedAttempt <$> options)
                 then [FailedAttemptCall e attempt] else []).
  assert (Hf1 : taskCalls failed = []) by (subst failed; destruct (default _ _); reflexivity).
  assert (Hf2 : backoffCalls failed = []) by (subst failed; destruct (default _ _); reflexivity).
  destruct (shouldRetryOption options) as [f|] eqn:Hs.
  - rewrite (Hshould f eq_refl).
    exists (([TaskCall attempt] ++ failed) ++ [ShouldRetryCall e; BackoffCall attempt]).
    split; [cbn [fst snd]; f_equal; rewrite <- !app_assoc; reflexivity|].
    rewrite !taskCalls_app, !backoffCalls_app, Hf1, Hf2. split; reflexivity.
  - exists (([TaskCall attempt] ++ failed) ++ [BackoffCall attempt]).
    split; [cbn [fst snd]; f_equal; rewrite <- !app_assoc; reflexivity|].
    rewrite !taskCalls_app, !backoffCalls_app, Hf1, Hf2. split; reflexivity.
Qed.

(** [n] failed attempts in a row, none of them the last one. *)
Lemma loop_failures n : forall fuel attempt,
  attempt + Z.of_nat n <= maxAttempts options ->
  (forall a, attempt <= a < attempt + Z.of_nat n -> exists e, failsRetryably a e) ->
  exists pre,
    loop task options (n + fuel) attempt
    = ((loop task options fuel (attempt + Z.of_nat n)).1,
       pre ++ (loop task options fuel (attempt + Z.of_nat n)).2) /\
    taskCalls pre = seqZ attempt (Z.of_nat n) /\
    backoffCalls pre = seqZ attempt (Z.of_nat n).
Proof.
  induction n as [|n IH]; intros fuel attempt Hle Hfail.
  - exists []. rewrite Z.add_0_r. repeat split. destruct (loop _ _ _ _); reflexivity.
  - destruct (Hfail attempt) as [e He]; [lia|].
    destruct (loop_failed (n + fuel) attempt e) as (pre1 & E1 & T1 & B1); [lia|exact He|].
    destruct (IH fuel (attempt + 1)) as (pre2 & E2 & T2 & B2); [lia|intros a Ha; apply Hfail; lia|].
    replace (attempt + 1 + Z.of_nat n) with (attempt + Z.of_nat (S n)) in E2 by lia.
    exists (pre1 ++ pre2). cbn [Nat.add]. rewrite E1, E2. cbn [fst snd].
    split; [rewrite app_assoc; reflexivity|].
    rewrite taskCalls_app, backoffCalls_app, T1, T2, B1, B2.
    replace (Z.of_nat (S n)) with (Z.succ (Z.of_nat n)) by lia.
    rewrite (seqZ_cons attempt (Z.succ (Z.of_nat n))) by lia.
    rewrite Z.pred_succ, <- Z.add_1_r. split; reflexivity.
Qed.

Lemma loop_resolves fuel attempt v :
  attempt <= maxAttempts options -> task attempt = Resolves v ->
  loop task options (S fuel) attempt = (Fulfilled v, [TaskCall attempt]).
Proof.
  intros Hle Htask. cbn [loop].
  destruct (attempt <=? maxAttempts options)%Z eqn:E; [|lia]. cbn [negb].
  rewrite tryBlock_no_signal, Htask. reflexivity.
Qed.

Lemma loop_last_fails fuel e :
  task (maxAttempts options) = Rejects (Err e) -> name e <> "AbortError" ->
  exists calls,
    loop task options (S fuel) (maxAttempts options) = (Rejected (Err e), calls) /\
    taskCalls calls = [maxAttempts options] /\ backoffCalls calls = [].
Proof.
  intros Htask Hname. cbn [loop].
  destruct (maxAttempts options <=? maxAttempts options)%Z eqn:E; [|lia].
  cbn [negb]. rewrite tryBlock_no_signal, Htask.
  rewrite bool_decide_eq_false_2 by exact Hname.
  eexists. split; [reflexivity|].
  rewrite taskCalls_app, backoffCalls_app.
  destruct (default false (onFailedAttempt <$> options)); split; reflexivity.
Qed.

End Facts.
End RetryFacts.

(** X17: [retry] without an abort signal, when the task first resolves at
    attempt [k], within the [retries + 1] attempts allowed, after failing at
    every earlier attempt with an [Error] that is not an [AbortError] and
    that [shouldRetry], if given, accepts: the promise fulfils with the value
    of attempt [k]; the task has been called [k] times, with the attempts 1
    to [k] in order, and the backoff timer after each of the [k - 1]
    failures. *)
Theorem retry_resolves_at_first_success
    {T : Type} (task : Z -> RetryTask.TaskOutcome T)
    (options : option RetryTask.RetryOptions) (k : Z) (v : T) :
  options ≫= RetryTask.signal = None ->
  1 <= k <= RetryTask.maxAttempts options ->
  task k = RetryTask.Resolves v ->
  (forall a, 1 <= a < k -> exists e, RetryFacts.failsRetryably task options a e) ->
  (RetryTask.retry task options).1 = RetryTask.Fulfilled v /\
  RetryFacts.taskCalls (RetryTask.retry task options).2 = seqZ 1 k /\
  RetryFacts.backoffCalls (RetryTask.retry task options).2 = seqZ 1 (k - 1).
Proof.
  intros Hsig Hk Htask Hfail. unfold RetryTask.retry.
  set (n := Z.to_nat (k - 1)).
  replace (Z.to_nat (RetryTask.maxAttempts options))
    with (n + S (Z.to_nat (RetryTask.maxAttempts options - k)))%nat by lia.
  destruct (RetryFacts.loop_failures task options Hsig n
              (S (Z.to_nat (RetryTask.maxAttempts options - k))) 1)
    as (pre & E & Ht & Hb).
  - lia.
  - intros a Ha. apply Hfail. lia.
  - rewrite E. replace (1 + Z.of_nat n) with k by lia.
    rewrite (RetryFacts.loop_resolves task options Hsig _ k v) by (lia || exact Htask).
    cbn [fst snd]. split; [reflexivity|].
    rewrite RetryFacts.taskCalls_app, RetryFacts.backoffCalls_app, Ht, Hb.
    replace (Z.of_nat n) with (k - 1) by lia. cbn.
    split; [|apply app_nil_r].
    replace (seqZ 1 k) with (seqZ 1 (k - 1 + 1)) by (f_equal; lia).
    rewrite RetryFacts.seqZ_snoc by lia. f_equal. f_equal. lia.
Qed.

(** X18: [retry] without an abort signal and with [retries] of at least 0,
    when every attempt fails with an [Error] that is not an [AbortError] and
    that [shouldRetry], if given, accepts: the promise rejects with the error
    of the last attempt; the task has been called [retries + 1] times, with
    the attempts in order, and the backoff timer [retries] times, after each
    failure but the last. *)
Theorem retry_gives_up_after_the_last_attempt
    {T : Type} (task : Z -> RetryTask.TaskOutcome T)
    (options : option RetryTask.RetryOptions) (e : Z -> RetryTask.ErrorObject) :
  options ≫= RetryTask.signal = None ->
  0 <= RetryTask.maxRetries options ->
  (forall a, 1 <= a <= RetryTask.maxAttempts options ->
             RetryFacts.failsRetryably task options a (e a)) ->
  (RetryTask.retry task options).1
  = RetryTask.Rejected (RetryTask.Err (e (RetryTask.maxAttempts options))) /\
  RetryFacts.taskCalls (RetryTask.retry task options).2
  = seqZ 1 (RetryTask.maxAttempts options) /\
  RetryFacts.backoffCalls (RetryTask.retry task options).2
  = seqZ 1 (RetryTask.maxRetries options).
Proof.
  intros Hsig Hr Hfail. unfold RetryTask.retry.
  assert (Hm : RetryTask.maxAttempts options = RetryTask.maxRetries options + 1)
    by reflexivity.
  set (n := Z.to_nat (RetryTask.maxRetries options)).
  replace (Z.to_nat (RetryTask.maxAttempts options)) with (n + 1)%nat by lia.
  destruct (RetryFacts.loop_failures task options Hsig n 1%nat 1)
    as (pre & E & Ht & Hb).
  - lia.
  - intros a Ha. exists (e a). apply Hfail. lia.
  - rewrite E. replace (1 + Z.of_nat n) with (RetryTask.maxAttempts options) by lia.
    destruct (Hfail (RetryTask.maxAttempts options)) as (Htask & Hname & _); [lia|].
    destruct (RetryFacts.loop_last_fails task options Hsig 0 _ Htask Hname)
      as (calls & E' & Ht' & Hb').
    rewrite E'. cbn [fst snd]. split; [reflexivity|].
    rewrite RetryFacts.taskCalls_app, RetryFacts.backoffCalls_app, Ht, Hb, Ht', Hb'.
    replace (Z.of_nat n) with (RetryTask.maxRetries options) by lia.
    split; [|apply app_nil_r].
    rewrite Hm, RetryFacts.seqZ_snoc by lia. f_equal. f_equal. lia.
Qed.

Module RetryBound.
Import RetryTask RetryFacts.

Section Bound.
Context {T : Type}.
Variable task : Z -> TaskOutcome T.
Variable options : option RetryOptions.

(** One attempt calls the task once or not at all. *)
Lemma tryBlock_calls attempt :
  (tryBlock task options attempt).2 = [] \/
  (tryBlock task options attempt).2 = [TaskCall attempt].
Proof.
  unfold tryBlock. destruct (look options attempt BeforeTask); [now left|].
  destruct (task attempt); [|now right].
  destruct (look options attempt AfterTask); now right.
Qed.

Lemma sublist_head_or_not (x : Z) (calls : list Z) l1 l2 :
  calls = [] \/ calls = [x] -> sublist l1 l2 -> sublist (calls ++ l1) (x :: l2).
Proof.
  intros [-> | ->] H; simpl.
  - now apply sublist_cons.
  - now apply sublist_skip.
Qed.

Lemma loop_bound fuel : forall attempt,
  sublist (taskCalls (loop task options fuel attempt).2)
          (seqZ attempt (maxAttempts options - attempt + 1)) /\
  sublist (backoffCalls (loop task options fuel attempt).2)
          (seqZ attempt (maxAttempts options - attempt)).
Proof.
  induction fuel as [|fuel IH]; intros attempt; cbn [loop].
  - destruct (negb _); split; apply sublist_nil_l.
  - destruct (attempt <=? maxAttempts options)%Z eqn:Hle; cbn [negb];
      [|split; apply sublist_nil_l].
    apply Z.leb_le in Hle.
    rewrite (seqZ_cons attempt (maxAttempts options - attempt + 1)) by lia.
    replace (Z.pred (maxAttempts options - attempt + 1))
      with (maxAttempts options - (attempt + 1) + 1) by lia.
    rewrite <- Z.add_1_r.
    pose proof (tryBlock_calls attempt) as Hcalls.
    destruct (tryBlock task options attempt) as [[v|[e|text]] calls];
      cbn [snd] in *.
    + split.
      * rewrite <- (app_nil_r calls), taskCalls_app.
        apply sublist_head_or_not; [|apply sublist_nil_l].
        destruct Hcalls as [-> | ->]; [now left|now right].
      * destruct Hcalls as [-> | ->]; apply sublist_nil_l.
    + assert (Ht : taskCalls calls = [] \/ taskCalls calls = [attempt])
        by (destruct Hcalls as [-> | ->]; [now left|now right]).
      assert (Hb : backoffCalls calls = [])
        by (destruct Hcalls as [-> | ->]; reflexivity).
      set (failed := if default false (onFailedAttempt <$> options)
                     then [FailedAttemptCall e attempt] else []).
      assert (Hf1 : taskCalls failed = [])
        by (subst failed; destruct (default _ _); reflexivity).
      assert (Hf2 : backoffCalls failed = [])
        by (subst failed; destruct (default _ _); reflexivity).
      assert (Hstop : forall extra,
        taskCalls extra = [] -> backoffCalls extra = [] ->
        sublist (taskCalls ((calls ++ failed) ++ extra))
                (attempt :: seqZ (attempt + 1)
                              (maxAttempts options - (attempt + 1) + 1)) /\
        sublist (backoffCalls ((calls ++ failed) ++ extra))
                (seqZ attempt (maxAttempts options - attempt))).
      { intros extra E1 E2.
        rewrite !taskCalls_app, !backoffCalls_app, Hf1, Hf2, Hb, E1, E2.
        split; [|apply sublist_nil_l].
        rewrite !app_nil_r. rewrite <- (app_nil_r (taskCalls calls)).
        apply sublist_head_or_not; [exact Ht|apply sublist_nil_l]. }
      destruct (bool_decide (name e = "AbortError")).
      { cbn [snd]. rewrite <- (app_nil_r calls).
        rewrite taskCalls_app, backoffCalls_app, Hb. split; [|apply sublist_nil_l].
        apply sublist_head_or_not; [exact Ht|apply sublist_nil_l]. }
      destruct (maxAttempts options <=? attempt)%Z eqn:Hge.
      { cbn [snd]. rewrite <- (app_nil_r (calls ++ failed)).
        now apply Hstop. }
      apply Z.leb_gt in Hge.
      destruct (IH (attempt + 1)) as [IHt IHb].
      assert (Hgo : forall extra,
        taskCalls extra = [] -> backoffCalls extra = [attempt] ->
        sublist (taskCalls ((calls ++ failed) ++ extra
                            ++ (loop task options fuel (attempt + 1)).2))
                (attempt :: seqZ (attempt + 1)
                              (maxAttempts options - (attempt + 1) + 1)) /\
        sublist (backoffCalls ((calls ++ failed) ++ extra
                               ++ (loop task options fuel (attempt + 1)).2))
                (seqZ attempt (maxAttempts options - attempt))).
      { intros extra E1 E2.
        rewrite !taskCalls_app, !backoffCalls_app, Hf1, Hf2, Hb, E1, E2.
        rewrite !app_nil_r. cbn [app]. split.
        - apply sublist_head_or_not; [exact Ht|exact IHt].
        - rewrite (seqZ_cons attempt (maxAttempts options - attempt)) by lia.
          rewrite <- Z.add_1_r.
          replace (Z.pred (maxAttempts options - attempt))
            with (maxAttempts options - (attempt + 1)) by lia.
          now apply sublist_skip. }
      destruct (shouldRetryOption options) as [f|].
      * destruct (f e).
        -- destruct (loop task options fuel (attempt + 1)) as [r rest].
           cbn [snd] in *.
           apply (Hgo [ShouldRetryCall e; BackoffCall attempt]); reflexivity.
        -- cbn [snd]. apply Hstop; reflexivity.
      * destruct (loop task options fuel (attempt + 1)) as [r rest].
        cbn [snd] in *. apply (Hgo [BackoffCall attempt]); reflexivity.
    + cbn [snd]. split.
      * rewrite <- (app_nil_r calls), taskCalls_app.
        apply sublist_head_or_not; [|apply sublist_nil_l].
        destruct Hcalls as [-> | ->]; [now left|now right].
      * destruct Hcalls as [-> | ->]; apply sublist_nil_l.
Qed.

End Bound.
End RetryBound.

(** X19: whatever the task returns or throws, whatever [shouldRetry]
    answers and whenever the signal aborts, [retry] calls the task with
    increasing attempt numbers out of 1 to [retries + 1], so at most
    [retries + 1] times, and the backoff timer with increasing attempt
    numbers out of 1 to [retries], so at most [retries] times. *)
Theorem retry_never_exceeds_its_attempts
    {T : Type} (task : Z -> RetryTask.TaskOutcome T)
    (options : option RetryTask.RetryOptions) :
  let calls := (RetryTask.retry task options).2 in
  sublist (RetryFacts.taskCalls calls) (seqZ 1 (RetryTask.maxRetries options + 1)) /\
  sublist (RetryFacts.backoffCalls calls) (seqZ 1 (RetryTask.maxRetries options)) /\
  Z.of_nat (length (RetryFacts.taskCalls calls))
  <= Z.max 0 (RetryTask.maxRetries options + 1) /\
  Z.of_nat (length (RetryFacts.backoffCalls calls))
  <= Z.max 0 (RetryTask.maxRetries options).
Proof.
  intros calls. subst calls. unfold RetryTask.retry.
  destruct (RetryBound.loop_bound task options
              (Z.to_nat (RetryTask.maxAttempts options)) 1) as [Ht Hb].
  unfold RetryTask.maxAttempts in *.
  replace (RetryTask.maxRetries options + 1 - 1 + 1)
    with (RetryTask.maxRetries options + 1) in Ht by lia.
  replace (RetryTask.maxRetries options + 1 - 1)
    with (RetryTask.maxRetries options) in Hb by lia.
  split; [exact Ht|]. split; [exact Hb|].
  apply sublist_length in Ht, Hb. rewrite length_seqZ in Ht, Hb. lia.
Qed.

(** *** The scenarios of [retry.test.ts] *)

Module RetryExamples.
Import RetryTask.

Definition failure (text : string) : TaskOutcome string :=
  Rejects (Err {| name := "Error"; message := text |}).

(** Fails twice, then succeeds. *)
Definition thirdTime (attempt : Z) : TaskOutcome string :=
  if (attempt =? 1)%Z then failure "Attempt 1"
  else if (attempt =? 2)%Z then failure "Attempt 2"
  else Resolves "success".

Definition alwaysFails (attempt : Z) : TaskOutcome string := failure "Task failed".

Definition threeRetries : option RetryOptions :=
  Some {| retries := Some 3; shouldRetry := None; onFailedAttempt := true;
          signal := None |}.

Example succeeds_at_the_third_attempt :
  retry thirdTime threeRetries
  = (Fulfilled "success",
     [TaskCall 1;
      FailedAttemptCall {| name := "Error"; message := "Attempt 1" |} 1;
      BackoffCall 1;
      TaskCall 2;
      FailedAttemptCall {| name := "Error"; message := "Attempt 2" |} 2;
      BackoffCall 2;
      TaskCall 3]).
Proof. vm_compute. reflexivity. Qed.

Example four_calls_three_backoffs :
  (retry alwaysFails threeRetries).1
  = Rejected (Err {| name := "Error"; message := "Task failed" |}) /\
  RetryFacts.taskCalls (retry alwaysFails threeRetries).2 = [1; 2; 3; 4] /\
  RetryFacts.backoffCalls (retry alwaysFails threeRetries).2 = [1; 2; 3].
Proof. vm_compute. repeat split. Qed.

Example stops_when_shouldRetry_says_no :
  RetryFacts.taskCalls
    (retry alwaysFails
       (Some {| retries := Some 3; shouldRetry := Some (fun _ => false);
                onFailedAttempt := false; signal := None |})).2
  = [1].
Proof. vm_compute. reflexivity. Qed.

Example a_string_thrown_becomes_a_TypeError :
  (retry (fun _ => Rejects (NonError "string error") : TaskOutcome string) None).1
  = Rejected (Err {| name := "TypeError";
                     message := nonErrorMessage "string error" |}).
Proof. vm_compute. reflexivity. Qed.

Example an_aborted_signal_stops_before_the_task :
  retry thirdTime
    (Some {| retries := Some 3; shouldRetry := None; onFailedAttempt := false;
             signal := Some (fun _ _ =>
               Some (Err {| name := "AbortError";
                            message := "This operation was aborted" |})) |})
  = (Rejected (Err {| name := "AbortError";
                      message := "This operation was aborted" |}), []).
Proof. vm_compute. reflexivity. Qed.

Lemma thirdTime_fails a :
  1 <= a < 3 -> exists e, RetryFacts.failsRetryably thirdTime threeRetries a e.
Proof.
  intros Ha. assert (H : a = 1 \/ a = 2) by lia.
  destruct H as [-> | ->]; eexists; (split; [reflexivity|]);
    (split; [discriminate|]); intros f Hf; discriminate Hf.
Qed.

Lemma alwaysFails_fails a :
  RetryFacts.failsRetryably alwaysFails threeRetries a
    {| name := "Error"; message := "Task failed" |}.
Proof.
  split; [reflexivity|]. split; [discriminate|]. intros f Hf. discriminate Hf.
Qed.

End RetryExamples.

Lemma retry_resolves_at_first_success_witness :
  (RetryTask.retry RetryExamples.thirdTime RetryExamples.threeRetries).1
  = RetryTask.Fulfilled "success" /\
  RetryFacts.taskCalls
    (RetryTask.retry RetryExamples.thirdTime RetryExamples.threeRetries).2
  = seqZ 1 3 /\
  RetryFacts.backoffCalls
    (RetryTask.retry RetryExamples.thirdTime RetryExamples.threeRetries).2
  = seqZ 1 (3 - 1).
Proof.
  apply (retry_resolves_at_first_success RetryExamples.thirdTime
           RetryExamples.threeRetries 3 "success").
  - reflexivity.
  - vm_compute. split; discriminate.
  - reflexivity.
  - exact RetryExamples.thirdTime_fails.
Defined.

Lemma retry_gives_up_after_the_last_attempt_witness :
  (RetryTask.retry RetryExamples.alwaysFails RetryExamples.threeRetries).1
  = RetryTask.Rejected
      (RetryTask.Err {| RetryTask.name := "Error";
                        RetryTask.message := "Task failed" |}).
Proof.
  refine (proj1 (retry_gives_up_after_the_last_attempt RetryExamples.alwaysFails
                   RetryExamples.threeRetries
                   (fun _ => {| RetryTask.name := "Error";
                                RetryTask.message := "Task failed" |}) _ _ _)).
  - reflexivity.
  - vm_compute. discriminate.
  - intros a _. apply RetryExamples.alwaysFails_fails.
Defined.

(** *** Timestamps and their validation *)

Module IsoFacts.
Import JsDate JsDateFacts.

Lemma digitValue_digit n : digitValue (digit n) = Some (n mod 10).
Proof.
  unfold digitValue. rewrite N_of_digit.
  assert (H : 0 <= n mod 10 < 10) by (apply Z.mod_pos_bound; lia).
  replace (Z.of_N (48 + Z.to_N (n mod 10))) with (48 + n mod 10) by lia.
  destruct (48 <=? 48 + n mod 10)%Z eqn:E1; [|lia].
  destruct (48 + n mod 10 <=? 57)%Z eqn:E2; [|lia].
  simpl. f_equal. lia.
Qed.

Lemma isDigit_digit n : Validation.isDigit (digit n) = true.
Proof.
  unfold Validation.isDigit, CodeUnit.code. rewrite N_of_digit.
  assert (H : 0 <= n mod 10 < 10) by (apply Z.mod_pos_bound; lia).
  apply andb_true_intro. split; apply Z.leb_le; lia.
Qed.

Lemma number_digits2 n :
  0 <= n < 100 -> number 0 [digit (n / 10); digit n] = Some n.
Proof.
  intros Hn. cbn [number].
  repeat (rewrite digitValue_digit; cbn [mbind option_bind]). f_equal.
  Z.div_mod_to_equations. lia.
Qed.

Lemma number_digits3 n :
  0 <= n < 1000 -> number 0 [digit (n / 10 / 10); digit (n / 10); digit n] = Some n.
Proof.
  intros Hn. cbn [number].
  repeat (rewrite digitValue_digit; cbn [mbind option_bind]). f_equal.
  Z.div_mod_to_equations. lia.
Qed.

Lemma number_digits4 n :
  0 <= n < 10000 ->
  number 0 [digit (n / 10 / 10 / 10); digit (n / 10 / 10); digit (n / 10); digit n]
  = Some n.
Proof.
  intros Hn. cbn [number].
  repeat (rewrite digitValue_digit; cbn [mbind option_bind]). f_equal.
  Z.div_mod_to_equations. lia.
Qed.

(** A string of the shape that [toISOString] prints. *)
Definition shaped (y1 y2 y3 y4 mo1 mo2 d1 d2 h1 h2 mi1 mi2 s1 s2 f1 f2 f3 : ascii)
  : string :=
  String y1 (String y2 (String y3 (String y4 (String "-"
  (String mo1 (String mo2 (String "-"
  (String d1 (String d2 (String "T"
  (String h1 (String h2 (String ":"
  (String mi1 (String mi2 (String ":"
  (String s1 (String s2 (String "."
  (String f1 (String f2 (String f3 (String "Z" ""))))))))))))))))))))))).

Lemma parseISO_shaped y1 y2 y3 y4 mo1 mo2 d1 d2 h1 h2 mi1 mi2 s1 s2 f1 f2 f3 :
  parseISO (shaped y1 y2 y3 y4 mo1 mo2 d1 d2 h1 h2 mi1 mi2 s1 s2 f1 f2 f3)
  = (y ← number 0 [y1; y2; y3; y4];
     mo ← number 0 [mo1; mo2];
     d ← number 0 [d1; d2];
     h ← number 0 [h1; h2];
     mi ← number 0 [mi1; mi2];
     sec ← number 0 [s1; s2];
     f ← number 0 [f1; f2; f3];
     let leap := DaysInYear y - 365 in
     if (1 <=? mo)%Z && (mo <=? 12)%Z && (1 <=? d)%Z
        && (d <=? monthStart leap mo - monthStart leap (mo - 1))%Z
        && (h <=? 23)%Z && (mi <=? 59)%Z && (sec <=? 59)%Z
     then Some ((DayFromYear y + monthStart leap (mo - 1) + d - 1) * msPerDay
                + h * msPerHour + mi * msPerMinute + sec * msPerSecond + f)
     else None).
Proof. reflexivity. Qed.

Lemma matchesIsoDateUtc_shaped
    y1 y2 y3 y4 mo1 mo2 d1 d2 h1 h2 mi1 mi2 s1 s2 f1 f2 f3 :
  Forall (fun c => Validation.isDigit c = true)
    [y1; y2; y3; y4; mo1; mo2; d1; d2; h1; h2; mi1; mi2; s1; s2; f1; f2; f3] ->
  Validation.matchesIsoDateUtc
    (shaped y1 y2 y3 y4 mo1 mo2 d1 d2 h1 h2 mi1 mi2 s1 s2 f1 f2 f3) = true.
Proof.
  intros H. repeat (apply Forall_cons in H as [? H]).
  unfold Validation.matchesIsoDateUtc, shaped. cbn [list_ascii_of_string].
  repeat match goal with E : Validation.isDigit _ = true |- _ => rewrite E; clear E end.
  reflexivity.
Qed.

Lemma isoOfFields_shaped f :
  isoOfFields f
  = shaped (digit (f_year f / 10 / 10 / 10)) (digit (f_year f / 10 / 10))
      (digit (f_year f / 10)) (digit (f_year f))
      (digit (f_month f / 10)) (digit (f_month f))
      (digit (f_date f / 10)) (digit (f_date f))
      (digit (f_hour f / 10)) (digit (f_hour f))
      (digit (f_min f / 10)) (digit (f_min f))
      (digit (f_sec f / 10)) (digit (f_sec f))
      (digit (f_ms f / 10 / 10)) (digit (f_ms f / 10)) (digit (f_ms f)).
Proof. reflexivity. Qed.

(** A day of the year lies within its month. *)
Lemma monthOfDay_within leap dy :
  0 <= leap <= 1 -> 0 <= dy < 365 + leap ->
  monthStart leap (monthOfDay leap dy) <= dy
  < monthStart leap (monthOfDay leap dy + 1).
Proof.
  intros Hl Hd. unfold monthOfDay.
  repeat match goal with
         | |- context [(?a <? ?b)%Z] => destruct (Z.ltb_spec a b)
         end; cbn; unfold monthStart; simpl; lia.
Qed.

(** [Date.parse] reads back what [toISOString] prints. *)
Lemma parseISO_toISOString t :
  minFourDigitYearTime <= t <= maxFourDigitYearTime ->
  exists s, toISOString t = Some s /\ parseISO s = Some t /\
            Validation.matchesIsoDateUtc s = true.
Proof.
  intros Ht. exists (isoOfFields (fields t)).
  split; [now apply toISOString_four_digits|].
  pose proof (YearFromTime_four_digits t Ht) as Hy.
  pose proof (fields_range t) as (Hmo & Hd & Hh & Hmi & Hs & Hms).
  rewrite isoOfFields_shaped. split.
  - rewrite parseISO_shaped.
    cbn [fields f_year f_month f_date f_hour f_min f_sec f_ms] in *.
    rewrite number_digits4 by lia.
    rewrite !number_digits2 by lia.
    rewrite number_digits3 by lia. cbn [mbind option_bind]. cbv zeta.
    fold (InLeapYear t).
    pose proof (DayWithinYear_range t) as [Hleap Hdy].
    pose proof (monthOfDay_within _ _ Hleap Hdy) as Hin.
    fold (MonthFromTime t) in Hin.
    replace (MonthFromTime t + 1 - 1) with (MonthFromTime t) by lia.
    assert (Hdate : DateFromTime t
                    <= monthStart (InLeapYear t) (MonthFromTime t + 1)
                       - monthStart (InLeapYear t) (MonthFromTime t))
      by (unfold DateFromTime; lia).
    repeat match goal with
           | |- context [(?a <=? ?b)%Z] =>
               destruct (Z.leb_spec a b); [|lia]
           end.
    cbn [andb]. f_equal.
    unfold DateFromTime, DayWithinYear, Day, HourFromTime, MinFromTime,
      SecFromTime, msFromTime, msPerDay, msPerHour, msPerMinute, msPerSecond.
    generalize (DayFromYear (YearFromTime t))
               (monthStart (InLeapYear t) (MonthFromTime t)).
    intros a b. Z.div_mod_to_equations. lia.
  - apply matchesIsoDateUtc_shaped. repeat constructor; apply isDigit_digit.
Qed.

End IsoFacts.

(** X20: a timestamp that [getMonotonicISOString] hands out, as long as the
    counter is within the years 0 to 9999, is a string that [Date.parse]
    reads back to the very value of the counter and that [isValidISOString]
    accepts; so a [createdAt] that the client made with [toISOString] passes
    the validation of the create route. *)
Theorem server_timestamps_parse_back_and_validate (last nowMs : Z) :
  let clock := (Time.getMonotonicISOString last nowMs).1 in
  JsDateFacts.minFourDigitYearTime <= clock <= JsDate.maxFourDigitYearTime ->
  exists stamp,
    (Time.getMonotonicISOString last nowMs).2 = Some stamp /\
    JsDate.parseISO stamp = Some clock /\
    Validation.isValidISOString JsDate.parseISO stamp = true.
Proof.
  intros clock Hrange.
  destruct (IsoFacts.parseISO_toISOString clock Hrange) as (s & Hs & Hp & Hm).
  exists s. split; [exact Hs|]. split; [exact Hp|].
  unfold Validation.isValidISOString. rewrite Hm, Hp. cbn [negb].
  apply bool_decide_eq_true. eauto.
Qed.

Lemma server_timestamps_parse_back_and_validate_witness :
  exists stamp,
    (Time.getMonotonicISOString 1735689600000 1735689600000).2 = Some stamp /\
    JsDate.parseISO stamp = Some 1735689600001 /\
    Validation.isValidISOString JsDate.parseISO stamp = true.
Proof.
  apply (server_timestamps_parse_back_and_validate 1735689600000 1735689600000).
  vm_compute. split; discriminate.
Defined.

(** ** The client: cache, queues and runs, further *)

Module CacheFacts.
Import SyncState Merge MergeFacts.

Lemma JsMap_set_same {V} (m : JsMap.t V) k v :
  JsMap.get m k = Some v -> JsMap.set m k v = m.
Proof.
  induction m as [|[k' v'] m IH]; simpl; [discriminate|].
  destruct (decide (k' = k)) as [->|Hne].
  - now intros [= ->].
  - intros H. now rewrite IH.
Qed.

Lemma setServerTodo_same s todo :
  getServerTodo s (id todo) = Some todo -> setServerTodo s todo = s.
Proof.
  unfold getServerTodo, setServerTodo. intros H.
  rewrite JsMap_set_same by exact H. destruct s; reflexivity.
Qed.

Lemma id_todoToStore todo preserve : id (todoToStore todo preserve) = id todo.
Proof. destruct (todoToStore_shape todo preserve) as [c ->]. reflexivity. Qed.

Lemma version_todoToStore todo preserve :
  version (todoToStore todo preserve) = version todo.
Proof. destruct (todoToStore_shape todo preserve) as [c ->]. reflexivity. Qed.

(** Storing again what was stored, with the creation time it got. *)
Lemma todoToStore_again todo preserve :
  todoToStore todo (Some (createdAt (todoToStore todo preserve)))
  = todoToStore todo preserve.
Proof.
  unfold todoToStore at 2 3. destruct preserve as [c|].
  - destruct (JsString.truthy c && negb (bool_decide (createdAt todo = c))) eqn:E.
    + apply andb_true_iff in E as [Ht Hn]. unfold todoToStore.
      cbn [createdAt with_createdAt]. rewrite Ht, Hn. reflexivity.
    + unfold todoToStore. rewrite bool_decide_eq_true_2 by reflexivity.
      rewrite andb_false_r. reflexivity.
  - unfold todoToStore. rewrite bool_decide_eq_true_2 by reflexivity.
    rewrite andb_false_r. reflexivity.
Qed.

Section WithClock.
Variable parseDate : string -> option Z.

(** What one round of the merge loop does to an entry of the cache. *)
Lemma mergeIncoming_entry optimistic s t k c :
  getServerTodo s k = Some c ->
  exists c',
    getServerTodo (mergeIncoming parseDate optimistic s t) k = Some c' /\
    version c <= version c' /\
    (createdAt c <> "" -> createdAt c' = createdAt c).
Proof.
  intros Hc. destruct (decide (k = id t)) as [->|Hk].
  - destruct (mergeIncoming_cases parseDate optimistic s t) as [[Hsup ->]|[_ ->]].
    + rewrite Hc in *.
      eexists. split.
      * rewrite <- (id_todoToStore t (Some (createdAt c))).
        apply getServerTodo_set_eq.
      * rewrite version_todoToStore. split.
        -- destruct Hsup as [H|[H _]]; lia.
        -- intros Hne. rewrite todoToStore_preserved by exact Hne. reflexivity.
    + exists c. split; [exact Hc|]. split; [lia|reflexivity].
  - exists c. rewrite mergeIncoming_other by exact Hk.
    split; [exact Hc|]. split; [lia|reflexivity].
Qed.

Lemma merge_loop_entry optimistic incoming : forall s k c,
  getServerTodo s k = Some c ->
  exists c',
    getServerTodo (fold_left (mergeIncoming parseDate optimistic) incoming s) k
    = Some c' /\
    version c <= version c' /\
    (createdAt c <> "" -> createdAt c' = createdAt c).
Proof.
  induction incoming as [|t incoming IH]; intros s k c Hc; cbn [fold_left].
  - exists c. split; [exact Hc|]. split; [lia|reflexivity].
  - destruct (mergeIncoming_entry optimistic s t k c Hc) as (c1 & H1 & Hv1 & Hc1).
    destruct (IH _ _ _ H1) as (c2 & H2 & Hv2 & Hc2).
    exists c2. split; [exact H2|]. split; [lia|].
    intros Hne. rewrite Hc2; [now apply Hc1|]. rewrite Hc1; assumption.
Qed.

(** *** Merging the same todos again *)

(** After a round for [t], a further round for [t] changes nothing, as long
    as the entry under the id of [t] is the one that the first round left. *)
Lemma mergeIncoming_again optimistic optimistic' s0 s t :
  getServerTodo s (id t)
  = getServerTodo (mergeIncoming parseDate optimistic s0 t) (id t) ->
  mergeIncoming parseDate optimistic' s t = s.
Proof.
  intros Hentry.
  destruct (mergeIncoming_cases parseDate optimistic s0 t) as [[Hsup E]|[Hn E]];
    rewrite E in Hentry.
  - set (p1 := match getServerTodo s0 (id t) with
               | Some e => Some (createdAt e)
               | None => JsMap.get optimistic (id t)
               end) in *.
    rewrite <- (id_todoToStore t p1) in Hentry at 2.
    rewrite getServerTodo_set_eq in Hentry.
    destruct (mergeIncoming_cases parseDate optimistic' s t) as [[_ ->]|[_ ->]];
      [|reflexivity].
    rewrite Hentry, todoToStore_again.
    apply setServerTodo_same. rewrite id_todoToStore. exact Hentry.
  - destruct (mergeIncoming_cases parseDate optimistic' s t) as [[Hsup _]|[_ ->]];
      [|reflexivity].
    rewrite Hentry in Hsup. contradiction.
Qed.

Lemma merge_loop_other optimistic incoming : forall s k,
  k ∉ map id incoming ->
  getServerTodo (fold_left (mergeIncoming parseDate optimistic) incoming s) k
  = getServerTodo s k.
Proof.
  induction incoming as [|t incoming IH]; intros s k Hk; cbn [fold_left];
    [reflexivity|].
  cbn [map] in Hk. apply not_elem_of_cons in Hk as [Hk1 Hk2].
  rewrite IH by exact Hk2. now apply mergeIncoming_other.
Qed.

(** With distinct ids, the loop leaves under each id what the round for that
    id has left. *)
Lemma merge_loop_rounds optimistic incoming : forall s t,
  NoDup (map id incoming) -> t ∈ incoming ->
  exists s0,
    getServerTodo (fold_left (mergeIncoming parseDate optimistic) incoming s) (id t)
    = getServerTodo (mergeIncoming parseDate optimistic s0 t) (id t).
Proof.
  induction incoming as [|t0 incoming IH]; intros s t Hnd Ht; [inversion Ht|].
  cbn [map] in Hnd. apply NoDup_cons in Hnd as [Hfresh Hnd]. cbn [fold_left].
  apply elem_of_cons in Ht as [->|Ht].
  - exists s. now apply merge_loop_other.
  - now apply IH.
Qed.

Lemma merge_loop_fixed optimistic incoming s :
  (forall t, t ∈ incoming -> mergeIncoming parseDate optimistic s t = s) ->
  fold_left (mergeIncoming parseDate optimistic) incoming s = s.
Proof.
  induction incoming as [|t incoming IH]; intros H; cbn [fold_left]; [reflexivity|].
  rewrite H by (apply elem_of_cons; now left).
  apply IH. intros t' Ht'. apply H. apply elem_of_cons. now right.
Qed.

Lemma merge_loop_again optimistic optimistic' incoming s :
  NoDup (map id incoming) ->
  let s' := fold_left (mergeIncoming parseDate optimistic) incoming s in
  fold_left (mergeIncoming parseDate optimistic') incoming s' = s'.
Proof.
  intros Hnd s'. apply merge_loop_fixed. intros t Ht.
  destruct (merge_loop_rounds optimistic incoming s t Hnd Ht) as [s0 Hs0].
  exact (mergeIncoming_again optimistic optimistic' s0 s' t Hs0).
Qed.

End WithClock.
End CacheFacts.

(** X21: merging only moves the cache forward.  Whatever is merged, a todo
    that the cache holds is still held afterwards, at a version that is not
    lower, and with the creation time it had (when that is not empty): the
    cache never forgets a todo, never goes back to an older version, and
    never changes the creation time that orders the display. *)
Theorem mergeTodos_only_moves_the_cache_forward
    (parseDate : string -> option Z) (s : SyncState.t)
    (local incoming : list Todo) (k : string) (cached : Todo) :
  SyncState.getServerTodo s k = Some cached ->
  exists cached',
    SyncState.getServerTodo (Merge.mergeTodos parseDate s local incoming).1 k
    = Some cached' /\
    version cached <= version cached' /\
    (createdAt cached <> "" -> createdAt cached' = createdAt cached).
Proof. intros H. unfold Merge.mergeTodos. cbn [fst]. now apply CacheFacts.merge_loop_entry. Qed.

Lemma mergeTodos_only_moves_the_cache_forward_witness :
  exists cached',
    SyncState.getServerTodo
      (Merge.mergeTodos JsDate.parseISO
         (SyncState.setServerTodo SyncState.initial MergeExamples.confirmed)
         [] [MergeExamples.createTodo "todo-1" 2 "Test todo" DONE
               MergeExamples.jan1_1h MergeExamples.jan1_1h]).1 "todo-1"
    = Some cached' /\
    1 <= version cached' /\
    (MergeExamples.jan1_1s <> "" -> createdAt cached' = MergeExamples.jan1_1s).
Proof.
  exact (mergeTodos_only_moves_the_cache_forward JsDate.parseISO
           (SyncState.setServerTodo SyncState.initial MergeExamples.confirmed)
           [] [MergeExamples.createTodo "todo-1" 2 "Test todo" DONE
                 MergeExamples.jan1_1h MergeExamples.jan1_1h]
           "todo-1" MergeExamples.confirmed eq_refl).
Defined.

(** X22: merging the same answer of the server again changes nothing.
    When the incoming todos have distinct ids, as the todos of one answer
    have, a second merge of them leaves the cache exactly as the first one
    left it, whatever the local list is then; with the same local list it
    returns the same display list. *)
Theorem mergeTodos_again_changes_nothing
    (parseDate : string -> option Z) (s : SyncState.t)
    (local local' incoming : list Todo) :
  NoDup (map id incoming) ->
  let merged := Merge.mergeTodos parseDate s local incoming in
  (Merge.mergeTodos parseDate merged.1 local' incoming).1 = merged.1 /\
  Merge.mergeTodos parseDate merged.1 local incoming = merged.
Proof.
  intros Hnd merged. subst merged. unfold Merge.mergeTodos. cbn [fst].
  split.
  - now apply CacheFacts.merge_loop_again.
  - rewrite CacheFacts.merge_loop_again by exact Hnd. reflexivity.
Qed.

Lemma mergeTodos_again_changes_nothing_witness :
  (Merge.mergeTodos JsDate.parseISO
     (Merge.mergeTodos JsDate.parseISO SyncState.initial
        [MergeExamples.optimistic] [MergeExamples.confirmed]).1
     [] [MergeExamples.confirmed]).1
  = (Merge.mergeTodos JsDate.parseISO SyncState.initial
       [MergeExamples.optimistic] [MergeExamples.confirmed]).1 /\
  Merge.mergeTodos JsDate.parseISO
    (Merge.mergeTodos JsDate.parseISO SyncState.initial
       [MergeExamples.optimistic] [MergeExamples.confirmed]).1
    [MergeExamples.optimistic] [MergeExamples.confirmed]
  = Merge.mergeTodos JsDate.parseISO SyncState.initial
      [MergeExamples.optimistic] [MergeExamples.confirmed].
Proof.
  refine (mergeTodos_again_changes_nothing JsDate.parseISO SyncState.initial
            [MergeExamples.optimistic] [] [MergeExamples.confirmed] _).
  repeat constructor. intros H. inversion H.
Defined.

(** *** The display list *)

Module DisplayFacts.
Import SyncState Merge.

(** The todo that the display shows for a cached one: the pending mutations
    of its queue applied in order. *)
Definition shown (s : SyncState.t) (cached : Todo) : Todo :=
  fold_left applyMutation (getAllPendingMutations s (id cached)) cached.

Lemma applyMutations_fields q : forall c,
  let d := fold_left applyMutation q c in
  id d = id c /\ listId d = listId c /\ title d = title c /\
  createdBy d = createdBy c /\ createdAt d = createdAt c /\
  version d = version c /\ deletedAt d = deletedAt c /\
  state d = match last q with Some m => nextState m | None => state c end /\
  updatedAt d = match last q with Some m => appliedAt m | None => updatedAt c end.
Proof.
  induction q as [|m q IH]; intros c; cbn [fold_left]; [repeat split|].
  specialize (IH (applyMutation c m)). cbv zeta in *.
  destruct IH as (H1 & H2 & H3 & H4 & H5 & H6 & H7 & H8 & H9).
  split; [rewrite H1; reflexivity|]. split; [rewrite H2; reflexivity|].
  split; [rewrite H3; reflexivity|]. split; [rewrite H4; reflexivity|].
  split; [rewrite H5; reflexivity|]. split; [rewrite H6; reflexivity|].
  split; [rewrite H7; reflexivity|]. split.
  - rewrite H8. destruct q as [|m' q]; [reflexivity|].
    change (last (m :: m' :: q)) with (last (m' :: q)).
    destruct (last (m' :: q)) eqn:E; [reflexivity|].
    apply last_None in E. discriminate.
  - rewrite H9. destruct q as [|m' q]; [reflexivity|].
    change (last (m :: m' :: q)) with (last (m' :: q)).
    destruct (last (m' :: q)) eqn:E; [reflexivity|].
    apply last_None in E. discriminate.
Qed.

End DisplayFacts.

(** X23: what [mergeTodos] returns for display.  The list holds, for each
    todo of the cache after the merge, that todo with the state and the
    update time of the last mutation of its queue (the cached todo itself
    when the queue is empty) and every other field as cached; and besides
    exactly the local todos of version 0 whose id the cache does not hold.
    So an optimistic todo stays on display until the server confirms it, and
    a local todo that is neither cached nor optimistic is dropped. *)
Theorem mergeTodos_display_list
    (parseDate : string -> option Z) (s : SyncState.t)
    (local incoming : list Todo) (t : Todo) :
  let s' := (Merge.mergeTodos parseDate s local incoming).1 in
  (t ∈ (Merge.mergeTodos parseDate s local incoming).2 <->
   (exists cached, cached ∈ SyncState.getAllServerTodos s' /\
                   t = DisplayFacts.shown s' cached) \/
   (t ∈ local /\ version t = 0 /\ SyncState.getServerTodo s' (id t) = None)) /\
  (forall cached,
      let d := DisplayFacts.shown s' cached in
      let q := SyncState.getAllPendingMutations s' (id cached) in
      id d = id cached /\ listId d = listId cached /\ title d = title cached /\
      createdBy d = createdBy cached /\ createdAt d = createdAt cached /\
      version d = version cached /\ deletedAt d = deletedAt cached /\
      state d = match last q with
                | Some m => SyncState.nextState m | None => state cached end /\
      updatedAt d = match last q with
                    | Some m => SyncState.appliedAt m
                    | None => updatedAt cached end).
Proof.
  intros s'. subst s'. unfold Merge.mergeTodos. cbn [fst snd].
  set (s' := fold_left _ incoming s). split.
  - rewrite StoreFacts.sort_by_perm, elem_of_app.
    unfold Merge.deriveDisplayTodos. rewrite list_elem_of_fmap.
    rewrite list_elem_of_In, filter_In, <- list_elem_of_In.
    unfold Merge.isOptimisticTodo. rewrite andb_true_iff, negb_true_iff.
    rewrite bool_decide_eq_true, bool_decide_eq_false.
    split.
    + intros [(c & -> & Hc)|(Ht & Hv & Hn)].
      * left. exists c. split; [exact Hc|reflexivity].
      * right. split; [exact Ht|]. split; [exact Hv|].
        destruct (SyncState.getServerTodo s' (id t)); [|reflexivity].
        exfalso. apply Hn. eauto.
    + intros [(c & Hc & ->)|(Ht & Hv & Hn)].
      * left. exists c. split; [reflexivity|exact Hc].
      * right. split; [exact Ht|]. split; [exact Hv|].
        rewrite Hn. intros [x Hx]. discriminate.
  - intros cached. apply DisplayFacts.applyMutations_fields.
Qed.

(** *** The queues of pending mutations *)

Module QueueFacts.
Import SyncState PendingQueue.

Lemma keys_get {V} (m : JsMap.t V) k : k ∈ JsMap.keys m <-> is_Some (JsMap.get m k).
Proof.
  unfold JsMap.keys. induction m as [|[k' v] m IH]; simpl.
  - split; [intros H; inversion H|intros [x H]; discriminate].
  - rewrite elem_of_cons, IH. destruct (decide (k' = k)) as [->|Hne].
    + split; [eauto|now left].
    + split; [intros [E|H]; [congruence|exact H]|now right].
Qed.

(** No queue is stored empty. *)
Definition queuesNonEmpty (s : SyncState.t) : Prop :=
  forall k q, JsMap.get (pendingMutations s) k = Some q -> q <> [].

(** What changes the queues. *)
Inductive Op : Type :=
| Enqueue (uuid now k : string) (next : TodoState)
| Dequeue (k : string)
| DeletePending (k : string)
| SetServerTodo (todo : Todo)
| Clear.

Definition apply (s : SyncState.t) (op : Op) : SyncState.t :=
  match op with
  | Enqueue uuid now k next => (enqueueMutation s uuid now k next).1
  | Dequeue k => dequeueMutation s k
  | DeletePending k => deletePendingMutations s k
  | SetServerTodo todo => setServerTodo s todo
  | Clear => clearSyncState s
  end.

Lemma getAll_enqueue s uuid now k next k' :
  getAllPendingMutations (enqueueMutation s uuid now k next).1 k'
  = if decide (k' = k)
    then getAllPendingMutations s k ++ [(enqueueMutation s uuid now k next).2]
    else getAllPendingMutations s k'.
Proof.
  unfold getAllPendingMutations, enqueueMutation. cbn [fst snd pendingMutations
    set_pendingMutations].
  destruct (decide (k' = k)) as [->|Hne].
  - rewrite JsMap.get_set_eq. destruct (JsMap.get (pendingMutations s) k); reflexivity.
  - rewrite JsMap.get_set_ne by congruence. reflexivity.
Qed.

Lemma getAll_dequeue s k k' :
  getAllPendingMutations (dequeueMutation s k) k'
  = if decide (k' = k) then tail (getAllPendingMutations s k)
    else getAllPendingMutations s k'.
Proof.
  unfold getAllPendingMutations, dequeueMutation.
  destruct (JsMap.get (pendingMutations s) k) as [[|m [|m' q]]|] eqn:E;
    cbn [pendingMutations set_pendingMutations];
    destruct (decide (k' = k)) as [->|Hk];
    rewrite ?JsMap.get_delete_eq, ?JsMap.get_set_eq,
            ?(JsMap.get_delete_ne _ k k'), ?(JsMap.get_set_ne _ k k') by congruence;
    try reflexivity.
Qed.

Lemma queuesNonEmpty_apply s op : queuesNonEmpty s -> queuesNonEmpty (apply s op).
Proof.
  intros H. destruct op as [uuid now k next|k|k|todo|]; cbn [apply].
  - intros k' q. unfold enqueueMutation. cbn [fst pendingMutations set_pendingMutations].
    destruct (decide (k = k')) as [<-|Hk].
    + rewrite JsMap.get_set_eq. intros [= <-].
      destruct (JsMap.get (pendingMutations s) k) as [q0|]; [|discriminate].
      intros E. apply app_eq_nil in E as [_ E]. discriminate.
    + rewrite JsMap.get_set_ne by exact Hk. apply H.
  - intros k' q. unfold dequeueMutation.
    destruct (JsMap.get (pendingMutations s) k) as [[|m [|m' q0]]|] eqn:E;
      cbn [pendingMutations set_pendingMutations];
      destruct (decide (k = k')) as [<-|Hk];
      rewrite ?JsMap.get_delete_eq, ?JsMap.get_set_eq,
              ?(JsMap.get_delete_ne _ k k'), ?(JsMap.get_set_ne _ k k') by congruence;
      try discriminate; try apply H.
    intros [= <-]. discriminate.
  - intros k' q. unfold deletePendingMutations.
    cbn [pendingMutations set_pendingMutations].
    destruct (decide (k = k')) as [<-|Hk].
    + rewrite JsMap.get_delete_eq. discriminate.
    + rewrite JsMap.get_delete_ne by exact Hk. apply H.
  - exact H.
  - intros k' q. cbn. discriminate.
Qed.

Lemma queuesNonEmpty_run ops : forall s,
  queuesNonEmpty s -> queuesNonEmpty (fold_left apply ops s).
Proof.
  induction ops as [|op ops IH]; intros s H; [exact H|].
  apply IH. now apply queuesNonEmpty_apply.
Qed.

Lemma queuesNonEmpty_initial : queuesNonEmpty SyncState.initial.
Proof. intros k q. cbn. discriminate. Qed.

End QueueFacts.

(** X24: the queues of pending mutations are first in, first out, one per
    todo, and never stored empty.  In every state that enqueueing,
    dequeueing, deleting a queue, caching a todo and clearing lead to from
    the initial one: [enqueueMutation] puts the mutation at the end of the
    queue of its todo and [dequeueMutation] takes the first one off, each
    leaving the other queues alone; [getNextMutation] is the first of the
    queue; and a todo is among [getTodoIdsWithPendingMutations] exactly when
    [hasPendingMutations] holds of it, which is when it has a next
    mutation. *)
Theorem pending_queues_are_fifo (ops : list QueueFacts.Op) :
  let s := fold_left QueueFacts.apply ops SyncState.initial in
  (forall uuid now k next k',
      SyncState.getAllPendingMutations
        (SyncState.enqueueMutation s uuid now k next).1 k'
      = if decide (k' = k)
        then SyncState.getAllPendingMutations s k
             ++ [{| SyncState.m_id := uuid; SyncState.todoId := k;
                    SyncState.appliedAt := now; SyncState.nextState := next |}]
        else SyncState.getAllPendingMutations s k') /\
  (forall k k',
      SyncState.getAllPendingMutations (SyncState.dequeueMutation s k) k'
      = if decide (k' = k) then tail (SyncState.getAllPendingMutations s k)
        else SyncState.getAllPendingMutations s k') /\
  (forall k,
      SyncState.getNextMutation s k
      = head (SyncState.getAllPendingMutations s k)) /\
  (forall k,
      (k ∈ PendingQueue.getTodoIdsWithPendingMutations s <->
       PendingQueue.hasPendingMutations s k = true) /\
      (PendingQueue.hasPendingMutations s k = true <->
       is_Some (SyncState.getNextMutation s k))).
Proof.
  intros s.
  assert (Hne : QueueFacts.queuesNonEmpty s)
    by (apply QueueFacts.queuesNonEmpty_run, QueueFacts.queuesNonEmpty_initial).
  split; [intros; apply QueueFacts.getAll_enqueue|].
  split; [intros; apply QueueFacts.getAll_dequeue|].
  split.
  - intros k. unfold SyncState.getNextMutation, SyncState.getAllPendingMutations.
    destruct (JsMap.get (SyncState.pendingMutations s) k); reflexivity.
  - intros k. unfold PendingQueue.getTodoIdsWithPendingMutations,
      PendingQueue.hasPendingMutations, SyncState.getNextMutation.
    rewrite QueueFacts.keys_get.
    destruct (JsMap.get (SyncState.pendingMutations s) k) as [q|] eqn:E.
    + pose proof (Hne _ _ E) as Hq. destruct q as [|m q]; [contradiction|].
      cbn. split; split; eauto.
    + cbn. split; split; try discriminate; intros [x Hx]; discriminate.
Qed.

(** *** The processor, further *)

Module ProcessorMore.
Import SyncState Stores Processor.

Lemma validateMutation_proceed w m :
  validateMutation w m = VProceed <->
  exists cached,
    getServerTodo (syncState w) (todoId m) = Some cached /\
    ~ UpdateRouteFacts.softDeleted cached /\
    state cached <> nextState m /\
    StateMachine.isValidTransition (state cached) (nextState m) = true.
Proof.
  unfold validateMutation.
  destruct (getServerTodo (syncState w) (todoId m)) as [cached|];
    [|split; [discriminate|intros (c & H & _); discriminate]].
  pose proof (UpdateRouteFacts.softDeleted_spec cached) as Hdel.
  destruct (match deletedAt cached with
            | Some d => JsString.truthy d | None => false end).
  - split; [discriminate|]. intros (c & [= <-] & Hn & _). exfalso. tauto.
  - destruct (decide (state cached = nextState m)) as [E|N].
    + split; [discriminate|]. intros (c & [= <-] & _ & Hs & _). contradiction.
    + destruct (StateMachine.isValidTransition (state cached) (nextState m)) eqn:V;
        cbn [negb].
      * split; [|reflexivity]. intros _. exists cached.
        split; [reflexivity|]. split; [|split; [exact N|exact V]].
        intros H. apply Hdel in H. discriminate.
      * split; [discriminate|]. intros (c & [= <-] & _ & _ & H). congruence.
Qed.

Lemma canProcess_user w : canProcess w = true -> is_Some (user (authStore w)).
Proof.
  unfold canProcess. intros H. apply andb_true_iff in H as [H _].
  apply andb_true_iff in H as [H _]. now apply bool_decide_eq_true in H.
Qed.

Lemma sends_what_the_cache_allows parseDate run w m :
  canProcess w = true ->
  validateMutation w m = VProceed ->
  exists cached u,
    getServerTodo (syncState w) (todoId m) = Some cached /\
    user (authStore w) = Some u /\
    ~ UpdateRouteFacts.softDeleted cached /\
    state cached <> nextState m /\
    StateMachine.isValidTransition (state cached) (nextState m) = true /\
    resume parseDate run w (AwaitValidate m VProceed) Tick
    = Some (with_syncStore w (beginSyncOp (syncStore w)), run,
            AwaitExecute m
              (Some {| req_todoId := todoId m; req_userId := user_id u;
                       req_nextState := nextState m;
                       req_expectedVersion := version cached |})).
Proof.
  intros Hcan Hval.
  apply validateMutation_proceed in Hval as (cached & Hc & Hnd & Hs & Hv).
  destruct (canProcess_user w Hcan) as [u Hu].
  exists cached, u. repeat (split; [assumption|]).
  cbn [resume]. unfold executeMutation_send.
  rewrite Hu, Hc. reflexivity.
Qed.

End ProcessorMore.

(** X25: the processor only sends what its cache allows.  When validation
    lets a mutation proceed and nothing else touches the client before the
    request goes out, the cache holds the todo, not soft-deleted and in a
    state other than the target, from which the state machine allows the
    transition; and the request that goes out carries the id of the todo,
    the id of the user, the target state and, as expected version, the
    version of the cached todo. *)
Theorem processor_sends_only_what_the_cache_allows
    (parseDate : string -> option Z) (run : Processor.Run) (w : Processor.World)
    (m : SyncState.PendingMutation) :
  Processor.canProcess w = true ->
  Processor.validateMutation w m = Processor.VProceed ->
  exists cached u,
    SyncState.getServerTodo (Processor.syncState w) (SyncState.todoId m)
    = Some cached /\
    Stores.user (Processor.authStore w) = Some u /\
    ~ UpdateRouteFacts.softDeleted cached /\
    state cached <> SyncState.nextState m /\
    StateMachine.isValidTransition (state cached) (SyncState.nextState m) = true /\
    Processor.resume parseDate run w
      (Processor.AwaitValidate m Processor.VProceed) Processor.Tick
    = Some (Processor.with_syncStore w
              (Stores.beginSyncOp (Processor.syncStore w)),
            run,
            Processor.AwaitExecute m
              (Some {| Processor.req_todoId := SyncState.todoId m;
                       Processor.req_userId := Stores.user_id u;
                       Processor.req_nextState := SyncState.nextState m;
                       Processor.req_expectedVersion := version cached |})).
Proof.
  intros Hcan Hval. now apply ProcessorMore.sends_what_the_cache_allows.
Qed.

(** X26: what the client validates, the server accepts.  A request that the
    processor sends while its cached copy of the todo is the one the server
    stores is answered 200 by [PATCH /todos/:todoId/state], with the todo in
    the target state at the next version (the timestamp being within the
    range of [Date]). *)
Theorem request_from_a_current_cache_is_accepted
    (parseDate : string -> option Z) (nowMs : Z)
    (writeThrows : Sse.Connection -> bool) (run : Processor.Run)
    (w : Processor.World) (m : SyncState.PendingMutation) (sv : Server.t)
    (cached : Todo) (request : Processor.Request) (w' : Processor.World) :
  let r := TodoWriteRoutes.updateTodoStateRoute nowMs writeThrows sv
             (Processor.req_todoId request)
             {| TodoWriteRoutes.us_userId := Processor.req_userId request;
                TodoWriteRoutes.us_nextState := Processor.req_nextState request;
                TodoWriteRoutes.us_expectedVersion :=
                  Processor.req_expectedVersion request |} in
  Processor.canProcess w = true ->
  Processor.validateMutation w m = Processor.VProceed ->
  Processor.resume parseDate run w
    (Processor.AwaitValidate m Processor.VProceed) Processor.Tick
  = Some (w', run, Processor.AwaitExecute m (Some request)) ->
  SyncState.getServerTodo (Processor.syncState w) (SyncState.todoId m)
  = Some cached ->
  Store.getTodo (Server.store sv) (SyncState.todoId m) = Some cached ->
  is_Some (JsDate.toISOString (Server.lastMonotonicTimestampMs (Server.server r))) ->
  exists todo',
    Server.outcome r = Api.Replied 200 (Api.TodoBody todo') /\
    state todo' = SyncState.nextState m /\
    version todo' = version cached + 1 /\
    id todo' = id cached.
Proof.
  intros r Hcan Hval Hres Hcache Hstore Hclock.
  destruct (ProcessorMore.sends_what_the_cache_allows parseDate run w m Hcan Hval)
    as (c & u & Hc & Hu & Hnd & Hs & Hv & Hres').
  rewrite Hres' in Hres. injection Hres as _ <-.
  rewrite Hcache in Hc. injection Hc as <-.
  subst r. cbn [Processor.req_todoId Processor.req_userId Processor.req_nextState
                Processor.req_expectedVersion] in *.
  unfold TodoWriteRoutes.updateTodoStateRoute in *.
  cbn [TodoWriteRoutes.us_nextState TodoWriteRoutes.us_expectedVersion] in *.
  rewrite Hstore in *.
  destruct (match deletedAt cached with
            | Some d => JsString.truthy d | None => false end) eqn:Hdel.
  { apply UpdateRouteFacts.softDeleted_spec in Hdel. contradiction. }
  rewrite Hv in *. cbn [negb] in *.
  rewrite WriteRouteFacts.getMonotonicISOString_eq in *.
  set (last := WriteRouteFacts.nextClock _ _) in *.
  destruct (JsDate.toISOString last) as [stamp|] eqn:Hstamp.
  2:{ cbn [Server.server Server.with_clock Server.lastMonotonicTimestampMs] in Hclock.
      rewrite Hstamp in Hclock. destruct Hclock as [x Hx]. discriminate. }
  unfold Store.compareAndSwapTodo. unfold Store.getTodo in Hstore. rewrite Hstore.
  destruct (decide (version cached = version cached)) as [_|N]; [|contradiction].
  destruct (Sse.notifyListChanged _ _ _) as [subs writes].
  cbn [Server.outcome]. eexists. split; [reflexivity|]. repeat split.
Qed.

(** *** A client whose cache is the server's copy *)

Module ClientExamples.
Import SyncState Stores Processor.

Definition toOngoing : PendingMutation :=
  {| m_id := "m-1"; todoId := "a"; appliedAt := "2025-01-01T00:00:05.000Z";
     nextState := ONGOING |}.

Definition toDone : PendingMutation :=
  {| m_id := "m-2"; todoId := "a"; appliedAt := "2025-01-01T00:00:06.000Z";
     nextState := DONE |}.

(** The cache holds the first todo of [ServerExamples.sv1] as the server
    stores it; moving it to ONGOING and then to DONE is queued. *)
Definition world : World :=
  {| syncState :=
       {| serverState := [("a", ServerExamples.a1)];
          pendingMutations := [("a", [toOngoing; toDone])];
          activeRuns := [("a", tt)];
          runGeneration := 0 |};
     authStore := {| user := Some {| user_id := "user-1"; user_name := None;
                                     user_createdAt := ServerExamples.now |};
                     auth_status := Ready; auth_error := None |};
     listStore := {| ls_listId := Some "list-1"; list_joinKey := Some "key12345";
                     list_error := false |};
     todosStore := {| todos := [ServerExamples.a1]; syncToken := None |};
     syncStore := {| sync_status := Idle; sync_error := None;
                     pendingSyncOps := 0 |} |}.

Definition run0 : Run :=
  {| run_todoId := "a"; run_generation := 0; run_attempt := 1 |}.

Definition request : Request :=
  {| req_todoId := "a"; req_userId := "user-1"; req_nextState := ONGOING;
     req_expectedVersion := 1 |}.

(** The session has ended in the meantime. *)
Definition expired : World := handleAuthError world.

End ClientExamples.

Lemma processor_sends_only_what_the_cache_allows_witness :
  exists cached u,
    SyncState.getServerTodo (Processor.syncState ClientExamples.world) "a"
    = Some cached /\
    Stores.user (Processor.authStore ClientExamples.world) = Some u /\
    ~ UpdateRouteFacts.softDeleted cached /\
    state cached <> ONGOING /\
    StateMachine.isValidTransition (state cached) ONGOING = true /\
    Processor.resume JsDate.parseISO ClientExamples.run0 ClientExamples.world
      (Processor.AwaitValidate ClientExamples.toOngoing Processor.VProceed)
      Processor.Tick
    = Some (Processor.with_syncStore ClientExamples.world
              (Stores.beginSyncOp (Processor.syncStore ClientExamples.world)),
            ClientExamples.run0,
            Processor.AwaitExecute ClientExamples.toOngoing
              (Some {| Processor.req_todoId := "a";
                       Processor.req_userId := Stores.user_id u;
                       Processor.req_nextState := ONGOING;
                       Processor.req_expectedVersion := version cached |})).
Proof.
  exact (processor_sends_only_what_the_cache_allows JsDate.parseISO
           ClientExamples.run0 ClientExamples.world ClientExamples.toOngoing
           eq_refl eq_refl).
Defined.

Lemma request_from_a_current_cache_is_accepted_witness :
  exists todo',
    Server.outcome
      (TodoWriteRoutes.updateTodoStateRoute ServerExamples.nowMs
         ServerExamples.never ServerExamples.sv1 "a"
         {| TodoWriteRoutes.us_userId := "user-1";
            TodoWriteRoutes.us_nextState := ONGOING;
            TodoWriteRoutes.us_expectedVersion := 1 |})
    = Api.Replied 200 (Api.TodoBody todo') /\
    state todo' = ONGOING /\ version todo' = 2 /\ id todo' = "a".
Proof.
  refine (request_from_a_current_cache_is_accepted JsDate.parseISO
            ServerExamples.nowMs ServerExamples.never ClientExamples.run0
            ClientExamples.world ClientExamples.toOngoing ServerExamples.sv1
            ServerExamples.a1 ClientExamples.request
            (Processor.with_syncStore ClientExamples.world
               (Stores.beginSyncOp (Processor.syncStore ClientExamples.world)))
            eq_refl eq_refl eq_refl eq_refl _ _).
  - vm_compute. reflexivity.
  - vm_compute. eexists. reflexivity.
Defined.

Module ProcessorSteps.
Import SyncState Stores Processor.

Section WithClock.
Variable parseDate : string -> option Z.

Lemma loopHead_quiet run w :
  exists p, loopHead run w = (w, run, p) /\ effectOf p = [].
Proof.
  unfold loopHead.
  destruct (negb (isRunValid w (run_generation run))); [now eexists|].
  destruct (negb (canProcess w)); [now eexists|].
  destruct (getNextMutation (syncState w) (run_todoId run)); now eexists.
Qed.

Lemma refresh_cache w :
  serverState (syncState (updateDisplayTodos parseDate w [])) = serverState (syncState w).
Proof. reflexivity. Qed.

Lemma dequeue_cache s k : serverState (dequeueMutation s k) = serverState s.
Proof.
  unfold dequeueMutation.
  destruct (JsMap.get (pendingMutations s) k) as [[|m [|m' q]]|]; reflexivity.
Qed.

Lemma skip_step run w m v :
  v <> VProceed ->
  exists p,
    resume parseDate run w (AwaitValidate m v) Tick
    = Some (updateDisplayTodos parseDate
              (with_syncState w (dequeueMutation (syncState w) (run_todoId run)))
              [], run, p) /\
    effectOf p = [].
Proof.
  intros Hv. cbn [resume].
  destruct (loopHead_quiet run
              (updateDisplayTodos parseDate
                 (with_syncState w (dequeueMutation (syncState w) (run_todoId run)))
                 [])) as (p & Hp & Hq).
  exists p. split; [|exact Hq].
  destruct v; [contradiction| |]; now rewrite Hp.
Qed.

Lemma settle_stale w g outcome :
  isRunValid w g = false -> (forall err, outcome <> Throws err) ->
  executeMutation_settle w g outcome
  = (with_syncStore w (endSyncOp (syncStore w) None), ExCancelled).
Proof.
  intros Hg Hno. unfold executeMutation_settle. rewrite Hg. cbn [negb].
  destruct outcome; try reflexivity. now destruct (Hno err).
Qed.

End WithClock.
End ProcessorSteps.

(** X27: a mutation that validation does not let proceed is dropped without a
    request.  The run takes the head off the queue of its todo, leaves the
    other queues and the cache as they are, and goes back to the head of the
    loop; nothing is sent and no timer is set. *)
Theorem moot_mutation_is_dropped_without_a_request
    (parseDate : string -> option Z) (run : Processor.Run) (w : Processor.World)
    (m : SyncState.PendingMutation) (v : Processor.ValidationResult) :
  v <> Processor.VProceed ->
  exists w' p,
    Processor.resume parseDate run w (Processor.AwaitValidate m v) Processor.Tick
    = Some (w', run, p) /\
    Processor.effectOf p = [] /\
    (forall k,
       SyncState.getAllPendingMutations (Processor.syncState w') k
       = if decide (k = Processor.run_todoId run)
         then tail (SyncState.getAllPendingMutations (Processor.syncState w)
                      (Processor.run_todoId run))
         else SyncState.getAllPendingMutations (Processor.syncState w) k) /\
    SyncState.getAllServerTodos (Processor.syncState w')
    = SyncState.getAllServerTodos (Processor.syncState w) /\
    forall k, SyncState.getServerTodo (Processor.syncState w') k
              = SyncState.getServerTodo (Processor.syncState w) k.
Proof.
  intros Hv.
  destruct (ProcessorSteps.skip_step parseDate run w m v Hv) as (p & Hp & Hq).
  eexists _, p. split; [exact Hp|]. split; [exact Hq|].
  set (w1 := Processor.with_syncState w _).
  destruct (ProcessorFacts.updateDisplayTodos_frame parseDate w1 [])
    as (_ & _ & _ & Hpend & _).
  pose proof (ProcessorSteps.refresh_cache parseDate w1) as Hcache.
  pose proof (ProcessorSteps.dequeue_cache (Processor.syncState w)
                (Processor.run_todoId run)) as Hdq.
  split; [|split].
  - intros k. unfold SyncState.getAllPendingMutations at 1. rewrite Hpend.
    apply (QueueFacts.getAll_dequeue (Processor.syncState w)).
  - unfold SyncState.getAllServerTodos. rewrite Hcache. subst w1.
    cbn [Processor.syncState Processor.with_syncState]. now rewrite Hdq.
  - intros k. unfold SyncState.getServerTodo. rewrite Hcache. subst w1.
    cbn [Processor.syncState Processor.with_syncState]. now rewrite Hdq.
Qed.

Lemma moot_mutation_is_dropped_without_a_request_witness :
  exists w' p,
    Processor.resume JsDate.parseISO ClientExamples.run0 ClientExamples.world
      (Processor.AwaitValidate ClientExamples.toDone
         (Processor.validateMutation ClientExamples.world ClientExamples.toDone))
      Processor.Tick
    = Some (w', ClientExamples.run0, p) /\
    Processor.effectOf p = [] /\
    (forall k,
       SyncState.getAllPendingMutations (Processor.syncState w') k
       = if decide (k = "a")
         then [ClientExamples.toDone]
         else SyncState.getAllPendingMutations
                (Processor.syncState ClientExamples.world) k) /\
    SyncState.getAllServerTodos (Processor.syncState w') = [ServerExamples.a1] /\
    forall k, SyncState.getServerTodo (Processor.syncState w') k
              = SyncState.getServerTodo (Processor.syncState ClientExamples.world) k.
Proof.
  refine (moot_mutation_is_dropped_without_a_request JsDate.parseISO
            ClientExamples.run0 ClientExamples.world ClientExamples.toDone
            (Processor.validateMutation ClientExamples.world ClientExamples.toDone)
            _).
  vm_compute. discriminate.
Defined.

(** X28: a response that arrives after the run was cancelled is dropped.
    When the request settles with a response (it does not throw) and the run
    generation is no longer the one of the run, the run ends; the cache, the
    queues, the display list and the session are as before, and the sync
    operation is closed. *)
Theorem response_after_cancellation_is_dropped
    (parseDate : string -> option Z) (run : Processor.Run) (w : Processor.World)
    (m : SyncState.PendingMutation) (request : Processor.Request)
    (outcome : Processor.ApiOutcome) :
  SyncState.getRunGeneration (Processor.syncState w) <> Processor.run_generation run ->
  (forall err, outcome <> Processor.Throws err) ->
  exists w' run',
    Processor.resume parseDate run w (Processor.AwaitExecute m (Some request))
      (Processor.ApiSettled outcome)
    = Some (w', run', Processor.Exited) /\
    Processor.syncState w' = Processor.syncState w /\
    Processor.todosStore w' = Processor.todosStore w /\
    Processor.authStore w' = Processor.authStore w /\
    Processor.listStore w' = Processor.listStore w /\
    Processor.syncStore w' = Stores.endSyncOp (Processor.syncStore w) None.
Proof.
  intros Hgen Hno. cbn [Processor.resume].
  rewrite (ProcessorSteps.settle_stale w (Processor.run_generation run) outcome).
  - cbn [Processor.handleResult]. eexists _, _. split; [reflexivity|].
    repeat split.
  - unfold Processor.isRunValid. now apply bool_decide_eq_false_2.
  - exact Hno.
Qed.

Lemma response_after_cancellation_is_dropped_witness :
  exists w' run',
    Processor.resume JsDate.parseISO ClientExamples.run0 ClientExamples.expired
      (Processor.AwaitExecute ClientExamples.toOngoing
         (Some ClientExamples.request))
      (Processor.ApiSettled (Processor.RespOk ServerExamples.a2))
    = Some (w', run', Processor.Exited) /\
    Processor.syncState w' = Processor.syncState ClientExamples.expired /\
    Processor.todosStore w' = Processor.todosStore ClientExamples.expired /\
    Processor.authStore w' = Processor.authStore ClientExamples.expired /\
    Processor.listStore w' = Processor.listStore ClientExamples.expired /\
    Processor.syncStore w'
    = Stores.endSyncOp (Processor.syncStore ClientExamples.expired) None.
Proof.
  refine (response_after_cancellation_is_dropped JsDate.parseISO
            ClientExamples.run0 ClientExamples.expired ClientExamples.toOngoing
            ClientExamples.request (Processor.RespOk ServerExamples.a2) _ _).
  - vm_compute. discriminate.
  - intros err. discriminate.
Defined.

(** X29: a 401 ends the session, whether or not the run is still current.
    When the request settles with an unauthorized error of status 401, the
    run ends; the user is gone and the session is marked expired; the cache,
    the queues and the run registry are empty; the run generation has moved
    on by one, so that no run started before is valid and no run can
    process. *)
Theorem unauthorized_response_ends_the_session
    (parseDate : string -> option Z) (run : Processor.Run) (w : Processor.World)
    (m : SyncState.PendingMutation) (request : Processor.Request) :
  exists w' run',
    Processor.resume parseDate run w (Processor.AwaitExecute m (Some request))
      (Processor.ApiSettled (Processor.Throws (Processor.UnauthorizedError 401)))
    = Some (w', run', Processor.Exited) /\
    Stores.user (Processor.authStore w') = None /\
    Stores.auth_status (Processor.authStore w') = Stores.SessionExpired /\
    SyncState.getAllServerTodos (Processor.syncState w') = [] /\
    (forall k, SyncState.getAllPendingMutations (Processor.syncState w') k = []) /\
    (forall k, ActiveRuns.hasActiveRun (Processor.syncState w') k = false) /\
    SyncState.getRunGeneration (Processor.syncState w')
    = SyncState.getRunGeneration (Processor.syncState w) + 1 /\
    (forall g, g <= SyncState.getRunGeneration (Processor.syncState w) ->
               Processor.isRunValid w' g = false) /\
    Processor.canProcess w' = false.
Proof.
  cbn [Processor.resume]. unfold Processor.executeMutation_settle.
  cbn [Processor.isUnauthenticatedError].
  rewrite bool_decide_eq_true_2 by reflexivity.
  cbn [Processor.handleResult]. eexists _, _. split; [reflexivity|].
  repeat split.
  intros g Hg. unfold Processor.isRunValid. apply bool_decide_eq_false_2.
  unfold SyncState.getRunGeneration in *.
  cbn [Processor.handleAuthError Processor.syncState SyncState.clearSyncState
       SyncState.runGeneration Processor.with_syncStore] in *.
  lia.
Qed.

(** *** The registry of runs *)

Module RunFacts.
Import SyncState Stores Processor ActiveRuns MutationRuns.

Lemma processMutations_starts w k g :
  exists p,
    processMutations w k g
    = (w, {| run_todoId := k; run_generation := g; run_attempt := 1 |}, p).
Proof.
  unfold processMutations.
  destruct (ProcessorSteps.loopHead_quiet
              {| run_todoId := k; run_generation := g; run_attempt := 1 |} w)
    as (p & Hp & _).
  now exists p.
Qed.

Lemma hasActiveRun_set s k k' :
  hasActiveRun (setActiveRun s k) k'
  = if decide (k' = k) then true else hasActiveRun s k'.
Proof.
  unfold hasActiveRun, setActiveRun, JsMap.has. cbn [activeRuns set_activeRuns].
  destruct (decide (k' = k)) as [->|Hne].
  - now rewrite JsMap.get_set_eq.
  - now rewrite JsMap.get_set_ne by congruence.
Qed.

Lemma hasActiveRun_delete s k k' :
  hasActiveRun (deleteActiveRun s k) k'
  = if decide (k' = k) then false else hasActiveRun s k'.
Proof.
  unfold hasActiveRun, deleteActiveRun, JsMap.has. cbn [activeRuns set_activeRuns].
  destruct (decide (k' = k)) as [->|Hne].
  - now rewrite JsMap.get_delete_eq.
  - now rewrite JsMap.get_delete_ne by congruence.
Qed.

Lemma startMutationRun_cases w k :
  (hasActiveRun (syncState w) k = true /\ startMutationRun w k = (w, None)) \/
  (hasActiveRun (syncState w) k = false /\
   exists p,
     startMutationRun w k
     = (with_syncState w (setActiveRun (syncState w) k),
        Some ({| run_todoId := k;
                 run_generation := getRunGeneration (syncState w);
                 run_attempt := 1 |}, p))).
Proof.
  unfold startMutationRun.
  destruct (hasActiveRun (syncState w) k); [left; now split|right].
  split; [reflexivity|].
  destruct (processMutations_starts w k (getRunGeneration (syncState w)))
    as (p & ->).
  now exists p.
Qed.

End RunFacts.

(** X30: one run per todo.  [startMutationRun] does nothing when a run is
    registered for the todo; otherwise it starts a run under the current run
    generation and registers it, leaving the registrations of the other todos
    alone, so a second call right after starts nothing.  When the run has
    ended within its generation its callback removes the registration and
    only that one; the callback of a run of another generation leaves the
    registry as it is. *)
Theorem startMutationRun_one_run_per_todo (w : Processor.World) (k : string) :
  let r := MutationRuns.startMutationRun w k in
  ActiveRuns.hasActiveRun (Processor.syncState r.1) k = true /\
  MutationRuns.startMutationRun r.1 k = (r.1, None) /\
  (forall k', k' <> k ->
     ActiveRuns.hasActiveRun (Processor.syncState r.1) k'
     = ActiveRuns.hasActiveRun (Processor.syncState w) k') /\
  (r.2 = None <-> ActiveRuns.hasActiveRun (Processor.syncState w) k = true) /\
  (forall run p, r.2 = Some (run, p) ->
     Processor.run_todoId run = k /\
     Processor.run_generation run
     = SyncState.getRunGeneration (Processor.syncState w) /\
     forall k',
       ActiveRuns.hasActiveRun
         (Processor.syncState (MutationRuns.onRunSettled r.1 run)) k'
       = if decide (k' = k) then false
         else ActiveRuns.hasActiveRun (Processor.syncState w) k') /\
  (forall old,
     Processor.run_generation old
     <> SyncState.getRunGeneration (Processor.syncState w) ->
     MutationRuns.onRunSettled r.1 old = r.1).
Proof.
  intros r. subst r.
  destruct (RunFacts.startMutationRun_cases w k) as [[Ha ->]|[Ha (p & ->)]];
    cbn [fst snd].
  - split; [exact Ha|]. split.
    { unfold MutationRuns.startMutationRun. now rewrite Ha. }
    split; [reflexivity|]. split; [now split|].
    split; [discriminate|].
    intros old Hold. unfold MutationRuns.onRunSettled.
    rewrite bool_decide_eq_false_2; [reflexivity|congruence].
  - cbn [Processor.syncState Processor.with_syncState].
    split; [rewrite RunFacts.hasActiveRun_set; now destruct (decide (k = k))|].
    split.
    { unfold MutationRuns.startMutationRun.
      cbn [Processor.syncState Processor.with_syncState].
      rewrite RunFacts.hasActiveRun_set.
      now destruct (decide (k = k)). }
    split.
    { intros k' Hne. rewrite RunFacts.hasActiveRun_set.
      now destruct (decide (k' = k)). }
    split; [split; [discriminate|congruence]|].
    split.
    + intros run p' [= <- <-]. cbn [Processor.run_todoId Processor.run_generation].
      split; [reflexivity|]. split; [reflexivity|].
      intros k'. unfold MutationRuns.onRunSettled.
      cbn [Processor.syncState Processor.with_syncState
           Processor.run_todoId Processor.run_generation].
      rewrite bool_decide_eq_true_2 by reflexivity.
      cbn [Processor.syncState Processor.with_syncState].
      rewrite RunFacts.hasActiveRun_delete, RunFacts.hasActiveRun_set.
      now destruct (decide (k' = k)).
    + intros old Hold. unfold MutationRuns.onRunSettled.
      cbn [Processor.syncState Processor.with_syncState].
      rewrite bool_decide_eq_false_2; [reflexivity|].
      unfold SyncState.getRunGeneration in *. cbn. congruence.
Qed.

(** *** The sync indicator *)

Module SyncStoreFacts.
Import Stores SyncStoreOps.

Definition counted (s : SyncStore) : Prop :=
  0 <= pendingSyncOps s /\ (sync_status s = Syncing <-> 0 < pendingSyncOps s).

Lemma counted_initial : counted initialState.
Proof. split; [reflexivity|]. split; [discriminate|]. cbn. lia. Qed.

Lemma counted_apply s op : counted s -> counted (apply s op).
Proof.
  intros [Hn Hs]. destruct op as [|error|]; cbn [apply].
  - split; cbn; [lia|]. split; [lia|reflexivity].
  - unfold endSyncOp. cbv zeta.
    destruct (decide (Z.max 0 (pendingSyncOps s - 1) = 0)) as [E|N].
    + split; cbn [pendingSyncOps sync_status]; [lia|].
      rewrite E. split; [|lia].
      now destruct (match error with Some e => JsString.truthy e | None => false end).
    + assert (H : 0 < Z.max 0 (pendingSyncOps s - 1)) by lia.
      destruct (match error with Some e => JsString.truthy e | None => false end);
        (split; cbn [pendingSyncOps sync_status]; [lia|]);
        (split; [intros _; exact H|intros _; apply Hs; lia]).
  - exact (conj Hn Hs).
Qed.

Lemma counted_run ops : forall s, counted s -> counted (fold_left apply ops s).
Proof.
  induction ops as [|op ops IH]; intros s H; [exact H|].
  cbn [fold_left]. apply IH. now apply counted_apply.
Qed.

Lemma begin_end s : counted s ->
  pendingSyncOps (endSyncOp (beginSyncOp s) None) = pendingSyncOps s.
Proof.
  intros [Hn _]. unfold endSyncOp, beginSyncOp. cbv zeta.
  cbn [pendingSyncOps].
  destruct (decide (Z.max 0 (pendingSyncOps s + 1 - 1) = 0));
    cbn [pendingSyncOps]; lia.
Qed.

End SyncStoreFacts.

(** X14: the sync indicator shows syncing exactly while operations are in
    flight.  Whatever sequence of [beginSyncOp], [endSyncOp] and
    [clearSyncError] the store has gone through, the counter of pending
    operations is not negative and the status is [syncing] exactly when the
    counter is positive; an operation that begins and ends without error
    leaves the counter where it was, and an [endSyncOp] that brings it to
    zero sets the status to [error] when it reports an error and to [idle]
    otherwise. *)
Theorem sync_status_follows_the_counter (ops : list SyncStoreOps.Op) :
  let s := fold_left SyncStoreOps.apply ops SyncStoreOps.initialState in
  0 <= Stores.pendingSyncOps s /\
  (Stores.sync_status s = Stores.Syncing <-> 0 < Stores.pendingSyncOps s) /\
  Stores.pendingSyncOps (Stores.endSyncOp (Stores.beginSyncOp s) None)
  = Stores.pendingSyncOps s /\
  (forall error,
     Stores.pendingSyncOps s <= 1 ->
     Stores.sync_status (Stores.endSyncOp s error)
     = match error with
       | Some (String _ _) => Stores.SyncError
       | _ => Stores.Idle
       end).
Proof.
  intros s.
  assert (H : SyncStoreFacts.counted s)
    by (apply SyncStoreFacts.counted_run, SyncStoreFacts.counted_initial).
  destruct H as [Hn Hs]. split; [exact Hn|]. split; [exact Hs|].
  split; [now apply SyncStoreFacts.begin_end|].
  intros error Hle. unfold Stores.endSyncOp. cbv zeta.
  destruct (decide (Z.max 0 (Stores.pendingSyncOps s - 1) = 0)) as [_|N]; [|lia].
  cbn [Stores.sync_status]. destruct error as [[|c e]|]; reflexivity.
Qed.
